(** * The transaction load generator of go-seele ([cmd/tool/cmd/sendtx.go])

    A shallow embedding of the [sendtx] tool: the per-account [balance]
    record, the transaction generator [send], the per-worker throttle, the
    worker loop [loopSendMode1_2], the confirmation monitor
    [loopCheckMode1] with [getIncludedAndPendingBalance] and [getTx], the
    rotation of mode 3, the bootstrap [initAccount] and the hand-out of the
    command; and of the configuration loader [LoadConfigFromFile] of the
    node.

    Conventions.
    - Go's [int] is taken at its 64-bit width, [uint64] is 64 bits; both
      are [Z] with the wrap-around written out.
    - A [*balance] is an index into a heap of [balance] records, so that two
      slices holding the same pointer alias the same record.
    - Whatever comes from outside the process (the random generator, the
      key generator, the RPC answers, the clock) is an explicit argument. *)

From Stdlib Require Import ZArith Lia Bool Sorted.
From stdpp Require Import base option list gmap strings.

Open Scope Z_scope.

(** ** Go machine arithmetic and panics *)

Module Go.

Definition int_min : Z := - 2 ^ 63.
Definition int_max : Z := 2 ^ 63 - 1.
Definition uint64_max : Z := 2 ^ 64 - 1.

(** Two's complement wrap-around of a signed 64-bit [int]. *)
Definition wrap_int (z : Z) : Z := (z + 2 ^ 63) mod 2 ^ 64 - 2 ^ 63.

(** Wrap-around of a [uint64]. *)
Definition wrap_uint64 (z : Z) : Z := z mod 2 ^ 64.

Definition in_int (z : Z) : Prop := int_min <= z <= int_max.
Definition in_uint64 (z : Z) : Prop := 0 <= z <= uint64_max.

(** A call either returns a value or panics (which ends the process). *)
Inductive outcome (A : Type) : Type :=
| Ret (a : A)
| Panic.
Arguments Ret {A} a.
Arguments Panic {A}.

Definition bind {A B : Type} (m : outcome A) (k : A -> outcome B) : outcome B :=
  match m with
  | Ret a => k a
  | Panic => Panic
  end.

(** [rand.Intn n]: panics when [n <= 0], otherwise a number of the
    half-open interval [[0, n)]. The generator's raw output [r] is the
    argument; every number of the interval is reached by some [r]. *)
Definition Intn (r n : Z) : outcome Z :=
  if n <=? 0 then Panic else Ret (r mod n).

End Go.

Import Go.

Notation "'do' x <- m ; k" := (bind m (fun x => k))
  (at level 10, x name, m at level 100, k at level 200).

(** ** Data model *)

(** Modelled from the spec: [common.Address] and its method [Shard()] are
    not among the sources at hand. The spec has the shard "derived from
    [address]; immutable": an address is the account identifier together
    with the shard [Address.Shard()] returns for it. *)
Record Address : Type := mkAddress {
  addr_id : Z;
  addr_shard : Z
}.

#[global] Instance Address_eq_dec : EqDecision Address.
Proof. solve_decision. Defined.

#[global] Instance Address_countable : Countable Address.
Proof.
  apply (inj_countable' (fun a => (addr_id a, addr_shard a))
                        (fun p => mkAddress (fst p) (snd p))).
  intros []. reflexivity.
Defined.

(** [type balance struct], field for field. [tx] is a [*common.Hash]:
    [None] is the nil pointer. *)
Record balance : Type := mkBalance {
  address : Address;
  privateKey : Z;
  amount : Z;
  shard : Z;
  nonce : Z;
  tx : option Z;
  packed : bool
}.

(** A [*balance] and the store of the records pointers refer to. *)
Abbreviation ptr := nat (only parsing).
Abbreviation heap := (list balance) (only parsing).

(** [&balance{...}]: a new record at an address no live pointer has. *)
Definition alloc (h : heap) (v : balance) : ptr * heap :=
  (length h, h ++ [v]).

(** The package-level flags [mode], [tps], [debug], and the shards for which
    [clientList] holds a connection. *)
Record Config : Type := mkConfig {
  mode : Z;
  tps : Z;
  debug : bool;
  clientList : gset Z
}.

(** ** The transaction generator: [send] *)

(** What one call of [send] receives from outside: the raw outputs of the
    random generator, the key pair of [crypto.MustGenerateShardKeyPair],
    the result of [util.GenerateTx] ([None] is an error, [Some hash] the
    hash of the transaction built) and the pair [(ok, err)] of
    [util.SendTx]. *)
Record SendEnv : Type := mkSendEnv {
  rand_amount : Z;
  rand_client : Z;
  key_id : Z;
  key_priv : Z;
  gen_tx : option Z;
  send_ok : bool;
  send_err : bool
}.

(** Lines 274-279: the amount to send under the active mode. *)
Definition send_amount (md : Z) (r : Z) (b : balance) : outcome Z :=
  if md =? 1 then Intn r (amount b)
  else if md =? 3 then Ret (amount b)
  else Ret 1.

(** Modelled from the spec: [crypto.MustGenerateShardKeyPair] is not among
    the sources at hand. The spec has it derive "a fresh destination
    address/key pair on the same shard as the source": the new key pair
    comes from outside, the address lies on the requested shard. *)
Definition MustGenerateShardKeyPair (sh : Z) (e : SendEnv) : Address * Z :=
  (mkAddress (key_id e) sh, key_priv e).

(** [getRandClient]: panics without any client, otherwise picks one. *)
Definition getRandClient (cfg : Config) (r : Z) : outcome Z :=
  if decide (size (clientList cfg) = 0%nat) then Panic
  else Intn r (Z.of_nat (size (clientList cfg))).

(** Lines 300-301: [!ok || err != nil]. *)
Definition send_rejected (e : SendEnv) : bool :=
  negb (send_ok e) || send_err e.

(** Lines 282-289 and 308: the beneficiary record, [txo] its [tx] field. *)
Definition newBalance_of (src : balance) (e : SendEnv) (amt : Z)
  (txo : option Z) : balance :=
  let '(addr, key) := MustGenerateShardKeyPair (addr_shard (address src)) e in
  mkBalance addr key amt (addr_shard addr) 0 txo false.

(** Lines 306-307: [b.nonce++; b.amount -= amount]. *)
Definition debit (src : balance) (amt : Z) : balance :=
  mkBalance (address src) (privateKey src) (wrap_int (amount src - amt))
            (shard src) (wrap_uint64 (nonce src + 1)) (tx src) (packed src).

(** [func send(b *balance) *balance]. The result is the pointer to the new
    beneficiary record and the store after the call. A pointer outside the
    store plays the nil pointer: dereferencing it panics. *)
Definition send (cfg : Config) (e : SendEnv) (h : heap) (b : ptr)
  : outcome (ptr * heap) :=
  match h !! b with
  | None => Panic
  | Some src =>
      do amt <- send_amount (mode cfg) (rand_amount e) src;
      do client <- getRandClient cfg (rand_client e);
      match gen_tx e with
      | None => Ret (alloc h (newBalance_of src e amt None))
      | Some hash =>
          if send_rejected e then Ret (alloc h (newBalance_of src e amt None))
          else Ret (alloc (<[b := debit src amt]> h)
                          (newBalance_of src e amt (Some hash)))
      end
  end.

(** The submission of a call failed: generation error, not accepted, or an
    RPC error. *)
Definition submission_fails (e : SendEnv) : Prop :=
  gen_tx e = None \/ send_ok e = false \/ send_err e = true.

(** The submission succeeded with transaction hash [hash]. *)
Definition submission_succeeds (e : SendEnv) (hash : Z) : Prop :=
  gen_tx e = Some hash /\ send_ok e = true /\ send_err e = false.

(** Repeated calls of [send] on the same entry, one per element of [es];
    the beneficiaries are collected in call order. *)
Fixpoint send_cycles (cfg : Config) (es : list SendEnv) (h : heap) (b : ptr)
  : outcome (list ptr * heap) :=
  match es with
  | [] => Ret ([], h)
  | e :: es' =>
      do r <- send cfg e h b;
      do r' <- send_cycles cfg es' (snd r) b;
      Ret (fst r :: fst r', snd r')
  end.

(** ** The rate limiter (lines 174-184 of [loopSendMode1_2], 136-146 of
    [SendMode3])

    Times are nanoseconds on the process's monotonic clock, durations are
    [time.Duration] (an [int64] of nanoseconds). *)

Definition Second : Z := 1000000000.
Definition Minute : Z := 60 * Second.

(** [t.Sub(u)]: the difference, saturated to the range of a duration. *)
Definition Sub (t u : Z) : Z := Z.max int_min (Z.min int_max (t - u)).

(** The effect of one execution of the counting and throttling lines. *)
Record Tick : Type := mkTick {
  tk_count : Z;          (* the running count afterwards *)
  tk_start : Z;          (* [tpsStartTime] afterwards *)
  tk_now : Z;            (* the clock afterwards *)
  tk_sleep : option Z;   (* the argument of [time.Sleep], when it was called *)
  tk_reset : bool        (* whether the window was reset *)
}.

(** [k] is [tps]; [count] and [start] are the running count and
    [tpsStartTime] before; [now] is the clock when the count is incremented
    and compared; [lag] is the time by which [time.Sleep] oversleeps and the
    second [time.Now()] is late. *)
Definition throttle (k count start now : Z) (lag : N) : Tick :=
  let count1 := wrap_int (count + 1) in
  if count1 =? k then
    let elapse := Sub now start in
    let sleep :=
      if elapse <? Second then Some (wrap_int (Second - elapse)) else None in
    let now' := now + Z.max 0 (default 0 sleep) + Z.of_N lag in
    mkTick 0 now' now' sleep true
  else mkTick count1 start now None false.

(** A completed window, as an observer of the worker records it (not a
    datum of the program). *)
Record WindowRec : Type := mkWindowRec {
  w_start : Z;           (* [tpsStartTime] during the window *)
  w_reached : Z;         (* the clock when the count reached [tps] *)
  w_sleep : option Z;    (* the suspension requested then *)
  w_end : Z;             (* the clock at the reset *)
  w_sends : Z            (* the sends counted since the previous reset *)
}.

(** One worker pacing its sends. [p_sent] and [p_log] are the observer's:
    the sends since the last reset and the completed windows, oldest
    first. *)
Record Pace : Type := mkPace {
  p_now : Z;
  p_start : Z;
  p_count : Z;
  p_sent : Z;
  p_log : list WindowRec
}.

(** Lines 155-156: [count := 0; tpsStartTime = time.Now()]. *)
Definition pace_init (now : Z) : Pace := mkPace now now 0 0 [].

(** One iteration of the sending loop as far as pacing goes: the send takes
    [dt], then the count is incremented and the throttle applied. *)
Definition pace_step (k : Z) (s : Pace) (d : N * N) : Pace :=
  let now := p_now s + Z.of_N (fst d) in
  let t := throttle k (p_count s) (p_start s) now (snd d) in
  if tk_reset t then
    mkPace (tk_now t) (tk_start t) (tk_count t) 0
           (p_log s ++ [mkWindowRec (p_start s) now (tk_sleep t) (tk_now t)
                                    (p_sent s + 1)])
  else mkPace (tk_now t) (tk_start t) (tk_count t) (p_sent s + 1) (p_log s).

Definition pace (k : Z) (ds : list (N * N)) (s : Pace) : Pace :=
  foldl (pace_step k) s ds.

(** Several workers of [loopSendMode1_2] pacing at once. Each has its own
    [count] (a local of the function); [tpsStartTime] is the one
    package-level variable (line 86) they all assign and read. *)
Record Crowd : Type := mkCrowd {
  c_now : Z;
  c_tpsStartTime : Z;
  c_counts : list Z;                      (* [count] of worker 0, 1, ... *)
  c_log : list (nat * Z * option Z)       (* worker, clock at its send, sleep *)
}.

Inductive PaceEvent : Type :=
| Begin (i : nat)                  (* worker [i] executes lines 155-156 *)
| Sent (i : nat) (dt lag : N).     (* worker [i] completes a send and paces *)

Definition crowd_step (k : Z) (c : Crowd) (ev : PaceEvent) : Crowd :=
  match ev with
  | Begin i =>
      mkCrowd (c_now c) (c_now c) (<[i := 0]> (c_counts c)) (c_log c)
  | Sent i dt lag =>
      let now := c_now c + Z.of_N dt in
      let t := throttle k (default 0 (c_counts c !! i)) (c_tpsStartTime c) now lag in
      mkCrowd (tk_now t) (tk_start t) (<[i := tk_count t]> (c_counts c))
              (c_log c ++ [(i, now, tk_sleep t)])
  end.

Definition crowd (k : Z) (evs : list PaceEvent) (c : Crowd) : Crowd :=
  foldl (crowd_step k) c evs.

(** The sends of worker [i] in a log: the clock at each and the suspension
    that followed. *)
Definition sends_of (i : nat) (log : list (nat * Z * option Z))
  : list (Z * option Z) :=
  omap (fun x => if decide (fst (fst x) = i) then Some (snd (fst x), snd x) else None) log.

(** Several threads of [loopSendMode3] pacing at once: [Run] starts one
    [StartSend] per thread, and in mode 3 each of them runs [loopSendMode3].
    [tpsCount] and [tpsStartTime] are the package-level variables of lines
    86-87, which every thread increments, compares and resets in
    [SendMode3]. A thread inside [time.Sleep] (line 141) is recorded with
    the clock at which its sleep is due to end; the other threads go on
    meanwhile. [sh_sends] and [sh_resets] are the observer's: the sends and
    the resets of the window, oldest first. *)
Record Shared : Type := mkShared {
  sh_now : Z;
  sh_tpsStartTime : Z;
  sh_tpsCount : Z;
  sh_asleep : list (option Z);      (* thread 0, 1, ...: [None] is awake *)
  sh_sends : list (nat * Z);        (* thread, clock at its send *)
  sh_resets : list (nat * Z)        (* thread, clock at its reset *)
}.

Inductive SharedEvent : Type :=
| Started (i : nat)               (* thread [i] executes line 95 *)
| Counted (i : nat) (dt : N)      (* thread [i] completes a send, lines 136-141 *)
| Woken (i : nat) (lag : N).      (* its sleep returns, lines 144-145 *)

(** One step of an interleaving of the threads. An event of a thread that
    cannot take it (a send of a sleeping thread, the waking of a thread that
    is awake) changes nothing. *)
Definition shared_step (k : Z) (c : Shared) (ev : SharedEvent) : Shared :=
  match ev with
  | Started i =>
      mkShared (sh_now c) (sh_now c) (sh_tpsCount c) (sh_asleep c)
               (sh_sends c) (sh_resets c)
  | Counted i dt =>
      match sh_asleep c !! i with
      | Some None =>
          let now := sh_now c + Z.of_N dt in
          let count1 := wrap_int (sh_tpsCount c + 1) in
          let sends := sh_sends c ++ [(i, now)] in
          if count1 =? k then
            let elapse := Sub now (sh_tpsStartTime c) in
            if elapse <? Second then
              mkShared now (sh_tpsStartTime c) count1
                       (<[i := Some (now + Z.max 0 (wrap_int (Second - elapse)))]>
                          (sh_asleep c))
                       sends (sh_resets c)
            else
              mkShared now now 0 (sh_asleep c) sends (sh_resets c ++ [(i, now)])
          else
            mkShared now (sh_tpsStartTime c) count1 (sh_asleep c) sends
                     (sh_resets c)
      | _ => c
      end
  | Woken i lag =>
      match sh_asleep c !! i with
      | Some (Some due) =>
          let now := Z.max (sh_now c) due + Z.of_N lag in
          mkShared now now 0 (<[i := None]> (sh_asleep c)) (sh_sends c)
                   (sh_resets c ++ [(i, now)])
      | _ => c
      end
  end.

Definition shared_run (k : Z) (evs : list SharedEvent) (c : Shared) : Shared :=
  foldl (shared_step k) c evs.

(** The sends of a log made before the clock shows [t]. *)
Definition sends_before (t : Z) (sends : list (nat * Z)) : list (nat * Z) :=
  filter (fun x => snd x < t) sends.

(** The sends of thread [i] in a log. *)
Definition sends_by (i : nat) (sends : list (nat * Z)) : list (nat * Z) :=
  filter (fun x => fst x = i) sends.

(** ** The worker loop: [loopSendMode1_2] *)

(** The entry still has funds: [b.amount > 0]. *)
Definition has_funds (h : heap) (b : ptr) : Prop :=
  match h !! b with
  | Some v => 0 < amount v
  | None => False
  end.

#[global] Instance has_funds_dec h b : Decision (has_funds h b).
Proof. unfold has_funds. destruct (h !! b); apply _. Defined.

(** The state a worker runs on. [balanceList] and [count] are locals of
    [loopSendMode1_2]; the store, the channel [txCh] (oldest first; its
    capacity only ever delays the sender), the clock and [tpsStartTime] are
    shared with the rest of the process. *)
Record Worker : Type := mkWorker {
  w_heap : heap;
  w_txCh : list ptr;
  w_now : Z;
  w_tpsStartTime : Z;
  w_balanceList : list ptr;
  w_count : Z
}.

(** What one iteration of the inner loop receives from outside. *)
Record IterEnv : Type := mkIterEnv {
  it_send : SendEnv;
  it_dt : N;      (* how long the send took *)
  it_lag : N      (* by how much a sleep overshoots *)
}.

(** Lines 167-184: one iteration of [for _, b := range copyBalances]. *)
Definition loop_body (cfg : Config) (ie : IterEnv) (b : ptr) (s : Worker)
  : outcome Worker :=
  do r <- send cfg (it_send ie) (w_heap s) b;
  let newBalance := fst r in
  let h' := snd r in
  let ch :=
    if mode cfg =? 1 then
      if decide (has_funds h' newBalance) then w_txCh s ++ [newBalance]
      else w_txCh s
    else w_txCh s in
  let t := throttle (tps cfg) (w_count s) (w_tpsStartTime s)
                    (w_now s + Z.of_N (it_dt ie)) (it_lag ie) in
  Ret (mkWorker h' ch (tk_now t) (tk_start t) (w_balanceList s) (tk_count t)).

(** The inner loop over the snapshot, iteration [i] receiving [E i]. *)
Fixpoint loop_range (cfg : Config) (E : nat -> IterEnv) (i : nat)
  (copyBalances : list ptr) (s : Worker) : outcome Worker :=
  match copyBalances with
  | [] => Ret s
  | b :: rest =>
      do s' <- loop_body cfg (E i) b s;
      loop_range cfg E (S i) rest s'
  end.

(** Lines 160-195: one pass of the outer loop: snapshot, inner loop, then
    the entries without funds are dropped from [balanceList]. *)
Definition pass (cfg : Config) (E : nat -> IterEnv) (s : Worker)
  : outcome Worker :=
  let copyBalances := w_balanceList s in
  do s' <- loop_range cfg E 0 copyBalances s;
  let nextBalanceList := filter (has_funds (w_heap s')) (w_balanceList s') in
  Ret (mkWorker (w_heap s') (w_txCh s') (w_now s') (w_tpsStartTime s')
                nextBalanceList (w_count s')).

(** [n] passes, pass [j] receiving [E j]. *)
Fixpoint passes (cfg : Config) (E : nat -> nat -> IterEnv) (j n : nat)
  (s : Worker) : outcome Worker :=
  match n with
  | O => Ret s
  | S n' =>
      do s' <- pass cfg (E j) s;
      passes cfg E (S j) n' s'
  end.

(** Lines 152-156: the worker's state when its loop starts. *)
Definition worker_init (h : heap) (ch : list ptr) (now : Z)
  (balanceList : list ptr) : Worker :=
  mkWorker h ch now now balanceList 0.

(** [loopSendMode1_2(balanceList, lock, threadNum)], cut after [n] passes of
    its endless loop. *)
Definition loopSendMode1_2 (cfg : Config) (E : nat -> nat -> IterEnv) (n : nat)
  (h : heap) (ch : list ptr) (now : Z) (balanceList : list ptr)
  : outcome Worker :=
  passes cfg E 0 n (worker_init h ch now balanceList).

(** ** Bootstrap: the pool handed to the workers *)

(** Lines 355-362 of [initAccount]: the non-nil entries with funds. *)
Definition initAccount_result (h : heap) (balanceList : list (option ptr))
  : list ptr :=
  omap (fun ob =>
          match ob with
          | Some b => if decide (has_funds h b) then Some b else None
          | None => None
          end) balanceList.

(** [newBalancesList(balanceList, splitNum, true)]: [splitNum] consecutive
    parts of [len/splitNum] entries, the last one taking the rest. A
    [splitNum] that is not positive panics ([make] with a negative length,
    or the division by zero). *)
Definition newBalancesList_copy (balanceList : list ptr) (splitNum : Z)
  : outcome (list (list ptr)) :=
  if splitNum <=? 0 then Panic
  else
    let n := Z.to_nat splitNum in
    let unit := (length balanceList / n)%nat in
    Ret (map (fun i =>
                let start := (unit * i)%nat in
                let end_ := if decide (i = (n - 1)%nat) then length balanceList
                            else (unit * (i + 1))%nat in
                take (end_ - start) (drop start balanceList))
             (seq 0 n)).

(** ** The confirmation monitor: [loopCheckMode1] *)

(** A value of the decoded JSON answer ([interface{}]). *)
Inductive JVal : Type :=
| JString (s : string)
| JNumber (z : Z)
| JNull.

#[global] Instance JVal_eq_dec : EqDecision JVal.
Proof. solve_decision. Defined.

(** The answer of [util.GetTransactionByHash]: the decoded result and the
    error ([None] is a nil error). *)
Definition TxAnswer : Type := gmap string JVal * option string.

(** The ledger as the monitor sees it during one poll. *)
Definition Ledger : Type := Address -> Z -> TxAnswer.

(** [getClient]: the connection of the address's shard, or a panic. *)
Definition getClient (cfg : Config) (a : Address) : outcome Z :=
  if decide (addr_shard a ∈ clientList cfg) then Ret (addr_shard a) else Panic.

(** [getTx]: an error is printed, and the result returned either way. *)
Definition getTx (cfg : Config) (ledger : Ledger) (a : Address) (hash : Z)
  : outcome (gmap string JVal) :=
  do client <- getClient cfg a;
  let '(result, err) := ledger a hash in
  match err with
  | Some _ => Ret result
  | None => Ret result
  end.

(** [result["status"] == s]. *)
Definition status_is (result : gmap string JVal) (s : string) : bool :=
  bool_decide (result !! "status"%string = Some (JString s)).

(** The loop of [getIncludedAndPendingBalance], with its two accumulators. *)
Fixpoint classify_loop (cfg : Config) (ledger : Ledger) (h : heap)
  (balances include pending : list ptr) : outcome (list ptr * list ptr) :=
  match balances with
  | [] => Ret (include, pending)
  | b :: rest =>
      match h !! b with
      | None => Panic
      | Some v =>
          match tx v with
          | None => classify_loop cfg ledger h rest include pending
          | Some hash =>
              do result <- getTx cfg ledger (address v) hash;
              if decide (0 < size result)%nat then
                if status_is result "block" then
                  classify_loop cfg ledger h rest (include ++ [b]) pending
                else if status_is result "pool" then
                  classify_loop cfg ledger h rest include (pending ++ [b])
                else classify_loop cfg ledger h rest include pending
              else classify_loop cfg ledger h rest include pending
          end
      end
  end.

Definition getIncludedAndPendingBalance (cfg : Config) (ledger : Ledger)
  (h : heap) (balances : list ptr) : outcome (list ptr * list ptr) :=
  classify_loop cfg ledger h balances [] [].

(** The locals of [loopCheckMode1]. [m_balanceList] is the function's own
    parameter [balanceList]: a slice is passed by value, so this variable
    and the worker's [balanceList] are two variables. *)
Record Monitor : Type := mkMonitor {
  m_balanceList : list ptr;
  toPackedBalanceList : list ptr;
  toConfirmBalanceList : gmap Z (list ptr)
}.

Definition confirmTime : Z := 2 * Minute.

(** [case b := <-txCh]. *)
Definition monitor_recv (b : ptr) (m : Monitor) : Monitor :=
  mkMonitor (m_balanceList m) (toPackedBalanceList m ++ [b])
            (toConfirmBalanceList m).

(** [case <-checkPack.C], with [now] the value of [time.Now()]. *)
Definition monitor_checkPack (cfg : Config) (ledger : Ledger) (now : Z)
  (h : heap) (m : Monitor) : outcome Monitor :=
  do r <- getIncludedAndPendingBalance cfg ledger h (toPackedBalanceList m);
  let included := fst r in
  let pending := snd r in
  Ret (mkMonitor (m_balanceList m) pending
                 (<[now := included]> (toConfirmBalanceList m))).

(** The body of the loop of [case <-confirm.C] for one bucket; [nowf key]
    is the value of [time.Now()] when the bucket [key] is visited. *)
Definition confirm_bucket (nowf : Z -> Z) (m : Monitor) (kv : Z * list ptr)
  : Monitor :=
  let duration := Sub (nowf (fst kv)) (fst kv) in
  if confirmTime <? duration then
    mkMonitor (m_balanceList m ++ snd kv) (toPackedBalanceList m)
              (delete (fst kv) (toConfirmBalanceList m))
  else m.

(** [case <-confirm.C]: every bucket is visited once, in an order Go leaves
    open (here the order of [map_to_list]). *)
Definition monitor_confirm (nowf : Z -> Z) (m : Monitor) : Monitor :=
  foldl (confirm_bucket nowf) m (map_to_list (toConfirmBalanceList m)).

(** ** One thread of [StartSend] in mode 1: a worker and its monitor *)

Record System : Type := mkSystem {
  sys_worker : Worker;
  sys_monitor : Monitor
}.

(** [StartSend(balanceList, threadNum)]: both goroutines are started with
    the same slice value. *)
Definition StartSend (h : heap) (now : Z) (balanceList : list ptr) : System :=
  mkSystem (worker_init h [] now balanceList)
           (mkMonitor balanceList [] ∅).

Inductive Event : Type :=
| WorkerPass (E : nat -> IterEnv)
| MonitorRecv
| MonitorCheckPack (ledger : Ledger) (now : Z)
| MonitorConfirm (nowf : Z -> Z).

(** One step of the interleaving. The monitor takes the oldest element of
    [txCh]; with nothing in the channel that case is not taken. *)
Definition sys_step (cfg : Config) (s : System) (ev : Event) : outcome System :=
  match ev with
  | WorkerPass E =>
      do w <- pass cfg E (sys_worker s);
      Ret (mkSystem w (sys_monitor s))
  | MonitorRecv =>
      let w := sys_worker s in
      match w_txCh w with
      | [] => Ret s
      | b :: ch =>
          Ret (mkSystem
                 (mkWorker (w_heap w) ch (w_now w) (w_tpsStartTime w)
                           (w_balanceList w) (w_count w))
                 (monitor_recv b (sys_monitor s)))
      end
  | MonitorCheckPack ledger now =>
      do m <- monitor_checkPack cfg ledger now (w_heap (sys_worker s))
                                (sys_monitor s);
      Ret (mkSystem (sys_worker s) m)
  | MonitorConfirm nowf =>
      Ret (mkSystem (sys_worker s) (monitor_confirm nowf (sys_monitor s)))
  end.

Fixpoint sys_run (cfg : Config) (evs : list Event) (s : System)
  : outcome System :=
  match evs with
  | [] => Ret s
  | ev :: rest =>
      do s' <- sys_step cfg s ev;
      sys_run cfg rest s'
  end.

(** ** Runs of [send] over several entries, with the accepted submissions *)

(** The call's transaction was built and accepted. *)
Definition accepted (e : SendEnv) : bool :=
  match gen_tx e with
  | Some _ => negb (send_rejected e)
  | None => false
  end.

(** A transaction handed to [util.SendTx] (line 300): the entry it was sent
    from, the address of that entry, the nonce it was signed with ([b.nonce]
    at line 295), and whether it was accepted (line 301). *)
Record Submission : Type := mkSubmission {
  sub_entry : ptr;
  sub_address : Address;
  sub_nonce : Z;
  sub_accepted : bool
}.

(** Calls of [send], each on the entry named with it, until the list ends
    or a call panics: the transactions submitted, oldest first. A call whose
    transaction cannot be built (line 296) submits nothing. *)
Fixpoint submissions (cfg : Config) (steps : list (ptr * SendEnv)) (h : heap)
  : list Submission :=
  match steps with
  | [] => []
  | (b, e) :: rest =>
      match send cfg e h b with
      | Panic => []
      | Ret r =>
          match h !! b, gen_tx e with
          | Some src, Some _ =>
              [mkSubmission b (address src) (nonce src)
                            (negb (send_rejected e))]
          | _, _ => []
          end ++ submissions cfg rest (snd r)
      end
  end.





(** No two entries that submit hold the same address. *)
Definition one_entry_per_address (tr : list Submission) : Prop :=
  Forall (fun s =>
            Forall (fun t => sub_address s = sub_address t ->
                             sub_entry s = sub_entry t) tr) tr.

#[global] Instance one_entry_per_address_dec tr :
  Decision (one_entry_per_address tr).
Proof. unfold one_entry_per_address. apply _. Defined.

(** ** Concrete data for the examples *)

(** Mode [md], [k] sends per second, a connection for shard 1 only. *)
Definition cfg_of (md k : Z) : Config := mkConfig md k false {[ 1 ]}.

(** An account on shard 1 with the given funds and nonce, nothing sent. *)
Definition account (id amt n : Z) : balance :=
  mkBalance (mkAddress id 1) id amt 1 n None false.

(** A call whose transaction is built with hash [hash] and accepted. *)
Definition env_ok (r id hash : Z) : SendEnv :=
  mkSendEnv r 0 id id (Some hash) true false.

(** A call whose transaction the ledger does not accept. *)
Definition env_refused (r id hash : Z) : SendEnv :=
  mkSendEnv r 0 id id (Some hash) false false.

(** A call whose transaction cannot be built. *)
Definition env_nogen (r id : Z) : SendEnv :=
  mkSendEnv r 0 id id None true false.

(** A call whose RPC fails. *)
Definition env_rpcerr (r id hash : Z) : SendEnv :=
  mkSendEnv r 0 id id (Some hash) true true.



(** Three calls on entry 0, the second one refused. *)
Definition steps_mixed : list (ptr * SendEnv) :=
  [(0%nat, env_ok 0 8 500); (0%nat, env_refused 0 9 501); (0%nat, env_ok 0 10 502)].


(** An account whose nonce is the greatest [uint64]. *)
Definition account_last_nonce : balance := account 7 5 18446744073709551615.

(** Pacing invariant of one worker with ceiling [k]: the count is the number
    of sends since the last reset and stays below [k], the window start is
    not in the future, and every completed window counts [k] sends, lasts at
    least a second, and was closed by the suspension for the rest of the
    second when the count reached [k] earlier than that. *)
Definition window_ok (k : Z) (w : WindowRec) : Prop :=
  w_sends w = k /\
  Second <= w_end w - w_start w /\
  (w_reached w - w_start w < Second ->
   w_sleep w = Some (Second - (w_reached w - w_start w))).

Definition pace_inv (k : Z) (s : Pace) : Prop :=
  0 <= p_count s < k /\
  p_start s <= p_now s /\
  p_sent s = p_count s /\
  Forall (window_ok k) (p_log s).

Definition ms : N := 1000000.

(** Two workers with ceiling 2. Worker 1 sends at 0.1 s and at 1.5 s; in
    between worker 0 sends twice and throttles. *)
Definition crowd_start : Crowd := mkCrowd 0 0 [0; 0] [].

Definition schedule_together : list PaceEvent :=
  [Begin 0; Begin 1;
   Sent 1 (100 * ms) 0; Sent 0 0 0; Sent 0 (100 * ms) 0;
   Sent 1 (500 * ms) 0].

(** Worker 1 alone, sending at the same two instants. *)
Definition schedule_alone : list PaceEvent :=
  [Begin 1; Sent 1 (100 * ms) 0; Sent 1 (1400 * ms) 0].

(** The entry can be polled: it is in the store and, when it carries a
    transaction, a client serves the shard of its address. *)
Definition queryable (cfg : Config) (h : heap) (b : ptr) : Prop :=
  exists v, h !! b = Some v /\
            (forall hash, tx v = Some hash -> addr_shard (address v) ∈ clientList cfg).

(** The result the ledger returns for the transaction of entry [b]. *)
Definition answer_of (ledger : Ledger) (h : heap) (b : ptr)
  : option (gmap string JVal) :=
  match h !! b with
  | Some v =>
      match tx v with
      | Some hash => Some (fst (ledger (address v) hash))
      | None => None
      end
  | None => None
  end.

(** Entry [b] carries a transaction for which the ledger reports status
    [s]. *)
Definition reported (ledger : Ledger) (h : heap) (s : string) (b : ptr) : bool :=
  match answer_of ledger h b with
  | Some result => status_is result s
  | None => false
  end.

(** The ledger [ledger] with every error removed from its answers. *)
Definition without_errors (ledger : Ledger) : Ledger :=
  fun a hash => (fst (ledger a hash), None).

(** A ledger that knows every transaction as included in a block. *)
Definition ledger_block : Ledger :=
  fun _ _ => ({[ "status"%string := JString "block" ]}, None).

(** A ledger whose every query fails, with no result. *)
Definition ledger_down : Ledger :=
  fun _ _ => (∅, Some "connection refused"%string).

(** A ledger that answers by the hash: 500 is in a block, 501 in the pool,
    502 has a status of its own, 503 fails with an empty result, 504 fails
    with the status of the pool, anything else is unknown. *)
Definition ledger_mixed : Ledger :=
  fun _ hash =>
    if hash =? 500 then ({[ "status"%string := JString "block" ]}, None)
    else if hash =? 501 then ({[ "status"%string := JString "pool" ]}, None)
    else if hash =? 502 then ({[ "status"%string := JString "orphan" ]}, None)
    else if hash =? 503 then (∅, Some "timeout"%string)
    else if hash =? 504
         then ({[ "status"%string := JString "pool" ]}, Some "timeout"%string)
    else (∅, None).

(** A beneficiary on shard 1 waiting for the transaction [hash]. *)
Definition waiting (id amt hash : Z) : balance :=
  mkBalance (mkAddress id 1) id amt 1 0 (Some hash) false.

Definition heap_mixed : list balance :=
  [waiting 20 10 500; waiting 21 10 501; waiting 22 10 502;
   waiting 23 10 503; waiting 24 10 504; waiting 25 10 505].

Definition monitor_mixed : Monitor :=
  mkMonitor [] [0; 1; 2; 3; 4; 5]%nat ∅.

(** Every amount of the store is an [int]. *)
Definition amounts_in_int (h : heap) : Prop :=
  Forall (fun v => in_int (amount v)) h.

(** The run of the spec's scenario B: one account holding 100, every
    submission accepted, a ledger that reports every transaction as included
    in a block. The worker sends once from the account; the monitor receives
    the beneficiary, polls at 30 s, and sweeps at 180 s, when the bucket is
    150 s old; then the worker makes its next pass. *)
Definition env_always (r hash : Z) : nat -> IterEnv :=
  fun i => mkIterEnv (env_ok r (Z.of_nat i + 8) hash) 0 0.

Definition scenario_B : list Event :=
  [WorkerPass (env_always 40 500);
   MonitorRecv;
   MonitorCheckPack ledger_block (30 * Second);
   MonitorConfirm (fun _ => 180 * Second);
   WorkerPass (env_always 25 501)].

(** The bucket with key [key] is older than the cool-down when it is
    visited. *)
Definition expired (nowf : Z -> Z) (key : Z) : Prop :=
  confirmTime < Sub (nowf key) key.

#[global] Instance expired_dec nowf key : Decision (expired nowf key).
Proof. unfold expired. apply _. Defined.

(** The time the sends of a pacing run take by themselves. *)
Definition elapsed_of (ds : list (N * N)) : Z :=
  foldr (fun d acc => Z.of_N (fst d) + acc) 0 ds.

(** Every iteration's submission is accepted. *)
Definition all_accepted (E : nat -> IterEnv) : Prop :=
  forall i, accepted (it_send (E i)) = true.

(** Three accounts holding 100, 9 and 1. *)
Definition heap_mixed_accounts : list balance :=
  [account 7 100 0; account 8 9 4; account 9 1 2].

(** The worker after one mode-2 pass over the three accounts, every
    submission accepted: each account has sent 1; the last one is empty and
    has left the list. *)
Definition pass2_result : Worker :=
  mkWorker
    [account 7 99 1; account 8 8 5; account 9 0 3;
     waiting 8 1 600; waiting 9 1 600; waiting 10 1 600]
    [] 1000000000 1000000000 [0; 1]%nat 0.

(** The entry holds more than 1. *)
Definition holds_more_than_one (h : heap) (b : ptr) : Prop :=
  match h !! b with
  | Some v => 1 < amount v
  | None => False
  end.

#[global] Instance holds_more_than_one_dec h b :
  Decision (holds_more_than_one h b).
Proof. unfold holds_more_than_one. destruct (h !! b); apply _. Defined.

(** The entry still holds funds once 1 is taken from it: [b.amount -= 1]
    on an [int], then [b.amount > 0]. *)
Definition funded_after_one (h : heap) (b : ptr) : Prop :=
  match h !! b with
  | Some v => 0 < wrap_int (amount v - 1)
  | None => False
  end.

#[global] Instance funded_after_one_dec h b : Decision (funded_after_one h b).
Proof. unfold funded_after_one. destruct (h !! b); apply _. Defined.

(** A worker about to start on the three accounts. *)
Definition worker3 : Worker :=
  worker_init heap_mixed_accounts [] 0 [0; 1; 2]%nat.

(** Three waiting beneficiaries, the second on shard 2. *)
Definition heap_stray : list balance :=
  [waiting 20 10 500;
   mkBalance (mkAddress 21 2) 21 10 2 0 (Some 501) false;
   waiting 22 10 502].

(** ** [newBalancesList] with both values of [copyValue], and mode 3 *)

(** A slice of [*balance] that may hold nil pointers: [None] is nil. *)
Abbreviation slice := (list (option nat)) (only parsing).

(** [newBalancesList(balanceList, splitNum, copyValue)], lines 104-124:
    [splitNum] slices of [len/splitNum] entries, the last one taking the
    rest; filled from [balanceList] when [copyValue] holds, left nil
    otherwise. [make] with a negative length and the division by 0
    panic. *)
Definition newBalancesList (balanceList : slice) (splitNum : Z)
  (copyValue : bool) : outcome (list slice) :=
  if splitNum <=? 0 then Panic
  else
    let n := Z.to_nat splitNum in
    let unit := (length balanceList / n)%nat in
    Ret (map (fun i =>
                let start := (unit * i)%nat in
                let end_ := if decide (i = (n - 1)%nat) then length balanceList
                            else (unit * (i + 1))%nat in
                if copyValue then take (end_ - start) (drop start balanceList)
                else replicate (end_ - start) None)
             (seq 0 n)).

(** Go's [copy(dst, src)]: the first [min(len(dst), len(src))] elements of
    [dst] are overwritten. *)
Definition Go_copy {A : Type} (dst src : list A) : list A :=
  take (length dst) src ++ drop (length src) dst.

(** The state [SendMode3] runs on: the store, the slice [next] it writes,
    the clock, and the package-level [tpsStartTime] and [tpsCount]. *)
Record Rotation : Type := mkRotation {
  r_heap : heap;
  r_next : slice;
  r_now : Z;
  r_tpsStartTime : Z;
  r_tpsCount : Z
}.

(** Lines 130-132: the debug line prints [newBalance.tx.ToHex()].
    [common.Hash] is not among the sources at hand; what [ToHex] does on the
    nil hash of a submission that failed is the parameter [hexnil]. *)
Definition debug_print (cfg : Config) (hexnil : outcome unit) (nb : balance)
  : outcome unit :=
  if debug cfg then
    match tx nb with
    | Some _ => Ret tt
    | None => hexnil
    end
  else Ret tt.

(** Lines 129-146: one iteration of [for i, b := range current]. A nil [b]
    panics inside [send], an [i] outside [next] at the assignment. *)
Definition mode3_body (cfg : Config) (hexnil : outcome unit) (ie : IterEnv)
  (i : nat) (b : option ptr) (s : Rotation) : outcome Rotation :=
  match b with
  | None => Panic
  | Some b =>
      do r <- send cfg (it_send ie) (r_heap s) b;
      let newBalance := fst r in
      let h' := snd r in
      match h' !! newBalance with
      | None => Panic
      | Some nb =>
          do printed <- debug_print cfg hexnil nb;
          if decide (i < length (r_next s))%nat then
            let t := throttle (tps cfg) (r_tpsCount s) (r_tpsStartTime s)
                              (r_now s + Z.of_N (it_dt ie)) (it_lag ie) in
            Ret (mkRotation h' (<[i := Some newBalance]> (r_next s))
                            (tk_now t) (tk_start t) (tk_count t))
          else Panic
      end
  end.

Fixpoint mode3_range (cfg : Config) (hexnil : outcome unit)
  (E : nat -> IterEnv) (i : nat) (current : slice) (s : Rotation)
  : outcome Rotation :=
  match current with
  | [] => Ret s
  | b :: rest =>
      do s' <- mode3_body cfg hexnil (E i) i b s;
      mode3_range cfg hexnil E (S i) rest s'
  end.

(** [SendMode3(current, next)], [next] being [r_next]: the result is the
    slice [current] after the call and the state. *)
Definition SendMode3 (cfg : Config) (hexnil : outcome unit)
  (E : nat -> IterEnv) (current : slice) (s : Rotation)
  : outcome (slice * Rotation) :=
  let current' := Go_copy current (r_next s) in
  do s' <- mode3_range cfg hexnil E 0 current' s;
  Ret (current', s').

(** The amounts the entries of a list hold in a store. *)
Definition amounts_of (h : heap) (bs : list ptr) : list (option Z) :=
  (fun b => amount <$> h !! b) <$> bs.

(** A rotation about to start on the accounts 0 and 2 of the three. *)
Definition rotation2 : Rotation :=
  mkRotation heap_mixed_accounts [Some 0; Some 2]%nat 0 0 0.

(** The state of [loopSendMode3]: the store, the clock, the package-level
    [tpsStartTime] and [tpsCount], and the locals [balances] and
    [nextBalances]. *)
Record Mode3 : Type := mkMode3 {
  l3_heap : heap;
  l3_now : Z;
  l3_tpsStartTime : Z;
  l3_tpsCount : Z;
  l3_balances : list slice;
  l3_nextBalances : list slice
}.

(** Lines 92-95: the two splits and the start of the window. [tpsCount]
    keeps the value it has. *)
Definition loopSendMode3_init (h : heap) (now tpsCount : Z)
  (balanceList : slice) : outcome Mode3 :=
  do balances <- newBalancesList balanceList 3 false;
  do nextBalances <- newBalancesList balanceList 3 true;
  Ret (mkMode3 h now now tpsCount balances nextBalances).

(** [SendMode3(balances[j], nextBalances[j])]. Both slices are written
    through: the elements of [balances[j]] by [copy], those of
    [nextBalances[j]] by the assignments. *)
Definition mode3_call (cfg : Config) (hexnil : outcome unit)
  (E : nat -> IterEnv) (j : nat) (st : Mode3) : outcome Mode3 :=
  match l3_balances st !! j, l3_nextBalances st !! j with
  | Some current, Some next =>
      do r <- SendMode3 cfg hexnil E current
                (mkRotation (l3_heap st) next (l3_now st)
                            (l3_tpsStartTime st) (l3_tpsCount st));
      let s' := snd r in
      Ret (mkMode3 (r_heap s') (r_now s') (r_tpsStartTime s') (r_tpsCount s')
                   (<[j := fst r]> (l3_balances st))
                   (<[j := r_next s']> (l3_nextBalances st)))
  | _, _ => Panic
  end.

(** Lines 98-100: one turn of the endless loop, call [j] receiving [E j]. *)
Definition mode3_cycle (cfg : Config) (hexnil : outcome unit)
  (E : nat -> nat -> IterEnv) (st : Mode3) : outcome Mode3 :=
  do st0 <- mode3_call cfg hexnil (E 0%nat) 0 st;
  do st1 <- mode3_call cfg hexnil (E 1%nat) 1 st0;
  mode3_call cfg hexnil (E 2%nat) 2 st1.

(** [n] turns of the loop, turn [c] receiving [E c]. *)
Fixpoint mode3_cycles (cfg : Config) (hexnil : outcome unit)
  (E : nat -> nat -> nat -> IterEnv) (c n : nat) (st : Mode3)
  : outcome Mode3 :=
  match n with
  | O => Ret st
  | S n' =>
      do st' <- mode3_cycle cfg hexnil (E c) st;
      mode3_cycles cfg hexnil E (S c) n' st'
  end.

(** [loopSendMode3(balanceList)], cut after [n] turns of its loop. *)
Definition loopSendMode3 (cfg : Config) (hexnil : outcome unit)
  (E : nat -> nat -> nat -> IterEnv) (n : nat) (h : heap) (now tpsCount : Z)
  (balanceList : slice) : outcome Mode3 :=
  do st <- loopSendMode3_init h now tpsCount balanceList;
  mode3_cycles cfg hexnil E 0 n st.

(** The rotation's invariant: [nextBalances] holds the non-nil entries
    [ls], part by part; the parts of [balances] have the same lengths; the
    entries are distinct and in the store; and part by part they hold the
    amounts [A]. *)
Definition rotation_inv (A : list (list (option Z))) (ls : list (list ptr))
  (st : Mode3) : Prop :=
  l3_nextBalances st = map (map Some) ls /\
  Forall2 (fun c l => length c = length l) (l3_balances st) ls /\
  NoDup (concat ls) /\
  Forall (fun b => is_Some (l3_heap st !! b)) (concat ls) /\
  map (amounts_of (l3_heap st)) ls = A.

(** The first submission is accepted, every later one refused. *)
Definition env_second_refused : nat -> IterEnv :=
  fun i =>
    match i with
    | O => mkIterEnv (env_ok 0 30 700) 0 0
    | S _ => mkIterEnv (env_refused 0 31 701) 0 0
    end.

(** ** [getRandClient], with the client it returns *)

(** Lines 320-329: the range over [clientList], [clients] being the clients
    in the order the range visits them; [None] is the final [return nil]. *)
Fixpoint getRandClient_scan (clients : list Z) (index count : Z) : option Z :=
  match clients with
  | [] => None
  | v :: rest =>
      if count =? index then Some v
      else getRandClient_scan rest index (wrap_int (count + 1))
  end.

(** [getRandClient] on the clients [clients]. *)
Definition getRandClient_from (clients : list Z) (r : Z) : outcome (option Z) :=
  if decide (length clients = 0%nat) then Panic
  else
    do index <- Intn r (Z.of_nat (length clients));
    Ret (getRandClient_scan clients index 0).

(** ** Bootstrap: [initAccount], [initBalance], [getBalance], [getNonce] *)

(** What the bootstrap receives from outside: the key parser and the address
    derivation of package [crypto], the two RPC calls ([None] is an error),
    and the constant [common.SeeleToFan], none of which is among the sources
    at hand. A balance comes in Fan. *)
Record Chain : Type := mkChain {
  LoadECDSAFromString : string -> option Z;
  GetAddress : Z -> Address;
  seele_getBalance : Address -> option Z;
  GetAccountNonce : Address -> option Z;
  SeeleToFan : positive
}.

(** [int(x.Uint64())] for a [*big.Int]: the low 64 bits of the absolute
    value, read as a signed [int]. *)
Definition int_of_big (x : Z) : Z := wrap_int (wrap_uint64 (Z.abs x)).

(** [getBalance]: panics without client for the shard and when the call
    fails; otherwise the balance in whole Seele as an [int], and [true]. *)
Definition getBalance (cfg : Config) (chain : Chain) (a : Address)
  : outcome (Z * bool) :=
  do client <- getClient cfg a;
  match seele_getBalance chain a with
  | None => Panic
  | Some bal => Ret (int_of_big (bal / Z.pos (SeeleToFan chain)), true)
  end.

(** [getNonce]: panics without client and when the call fails. *)
Definition getNonce (cfg : Config) (chain : Chain) (a : Address) : outcome Z :=
  do client <- getClient cfg a;
  match GetAccountNonce chain a with
  | None => Panic
  | Some n => Ret n
  end.

(** The store and the slice [balanceList] the goroutines of [initAccount]
    fill. *)
Record Boot : Type := mkBoot {
  bt_heap : heap;
  bt_balanceList : slice
}.

(** [b.nonce = n]. *)
Definition set_nonce (v : balance) (n : Z) : balance :=
  mkBalance (address v) (privateKey v) (amount v) (shard v) n (tx v) (packed v).

(** Lines 370-404: the body of the loop of [initBalance] at index [i]. *)
Definition initBalance_at (cfg : Config) (chain : Chain)
  (keyList : list string) (i : nat) (s : Boot) : outcome Boot :=
  match keyList !! i with
  | None => Panic
  | Some hex =>
      if decide (hex = ""%string) then Ret s
      else
        match LoadECDSAFromString chain hex with
        | None => Panic
        | Some key =>
            let addr := GetAddress chain key in
            if decide (addr_shard addr ∈ clientList cfg) then
              do r <- getBalance cfg chain addr;
              if negb (snd r) then Ret s
              else
                let v := mkBalance addr key (fst r) (addr_shard addr) 0 None
                                   false in
                let b := fst (alloc (bt_heap s) v) in
                let h1 := snd (alloc (bt_heap s) v) in
                if 0 <? amount v then
                  do n <- getNonce cfg chain addr;
                  if decide (i < length (bt_balanceList s))%nat then
                    Ret (mkBoot (<[b := set_nonce v n]> h1)
                                (<[i := Some b]> (bt_balanceList s)))
                  else Panic
                else Ret (mkBoot h1 (bt_balanceList s))
            else Ret s
        end
  end.

(** The loop of [initBalance] over the indices [idxs]. *)
Fixpoint initBalance_range (cfg : Config) (chain : Chain)
  (keyList : list string) (idxs : list nat) (s : Boot) : outcome Boot :=
  match idxs with
  | [] => Ret s
  | i :: rest =>
      do s' <- initBalance_at cfg chain keyList i s;
      initBalance_range cfg chain keyList rest s'
  end.

(** [initBalance(balanceList, keyList, start, end, wg)]. *)
Definition initBalance (cfg : Config) (chain : Chain) (keyList : list string)
  (start end_ : nat) (s : Boot) : outcome Boot :=
  initBalance_range cfg chain keyList (seq start (end_ - start)) s.

(** The goroutines [idxs] of [initAccount], each on its range. They write
    different slots of [balanceList] and share nothing else; they are run
    one after the other here, which fixes the order in which the records
    are allocated. *)
Fixpoint initAccount_threads (cfg : Config) (chain : Chain)
  (keyList : list string) (unit n : nat) (idxs : list nat) (s : Boot)
  : outcome Boot :=
  match idxs with
  | [] => Ret s
  | i :: rest =>
      let end_ := if decide (i = (n - 1)%nat) then length keyList
                  else ((i + 1) * unit)%nat in
      do s' <- initBalance cfg chain keyList (i * unit) end_ s;
      initAccount_threads cfg chain keyList unit n rest s'
  end.

(** [initAccount(threads)] from line 339 on, [keyList] being the lines of
    the key file: the pool and the store. A zero [threads] panics in the
    division; with a negative one the loop is not entered. *)
Definition initAccount (cfg : Config) (chain : Chain) (keyList : list string)
  (threads : Z) (h : heap) : outcome (list ptr * heap) :=
  if threads =? 0 then Panic
  else
    let balanceList := replicate (length keyList) None in
    if threads <? 0 then Ret (initAccount_result h balanceList, h)
    else
      let n := Z.to_nat threads in
      let unit := (length keyList / n)%nat in
      do s <- initAccount_threads cfg chain keyList unit n (seq 0 n)
                                  (mkBoot h balanceList);
      Ret (initAccount_result (bt_heap s) (bt_balanceList s), bt_heap s).

(** The record a line of the key file stands for: none for an empty line,
    a key on a shard without client, or a balance that is not positive as
    an [int]. *)
Definition account_of (cfg : Config) (chain : Chain) (hex : string)
  : option balance :=
  if decide (hex = ""%string) then None
  else
    match LoadECDSAFromString chain hex with
    | None => None
    | Some key =>
        let addr := GetAddress chain key in
        if decide (addr_shard addr ∈ clientList cfg) then
          match seele_getBalance chain addr with
          | None => None
          | Some bal =>
              let amt := int_of_big (bal / Z.pos (SeeleToFan chain)) in
              if 0 <? amt then
                match GetAccountNonce chain addr with
                | Some n =>
                    Some (mkBalance addr key amt (addr_shard addr) n None false)
                | None => None
                end
              else None
          end
        else None
    end.

(** The line can be processed without panic: it is empty, or its key parses
    and, when a client serves its shard, the balance call succeeds and, for
    a positive balance, the nonce call too. *)
Definition bootable (cfg : Config) (chain : Chain) (hex : string) : Prop :=
  hex = ""%string \/
  exists key,
    LoadECDSAFromString chain hex = Some key /\
    (addr_shard (GetAddress chain key) ∈ clientList cfg ->
     exists bal,
       seele_getBalance chain (GetAddress chain key) = Some bal /\
       (0 < int_of_big (bal / Z.pos (SeeleToFan chain)) ->
        is_Some (GetAccountNonce chain (GetAddress chain key)))).

(** ** The command: bootstrap and hand-out *)

(** The loop of [Run], lines 61-63, over the threads [idxs]: thread [i] is
    started on [balances[i]]; an index out of range panics. The result holds
    the lists the threads are started on, in the order of the threads. *)
Fixpoint Run_lists (balances : list slice) (idxs : list nat)
  : outcome (list slice) :=
  match idxs with
  | [] => Ret []
  | i :: rest =>
      match balances !! i with
      | None => Panic
      | Some l => do ls <- Run_lists balances rest; Ret (l :: ls)
      end
  end.

(** [Run] of [sendTxCmd], lines 52-63, after [initClient()] and up to the
    start of the goroutines: the lists of the threads and the store. *)
Definition Run (cfg : Config) (chain : Chain) (keyList : list string)
  (threads : Z) (h : heap) : outcome (list slice * heap) :=
  do r <- initAccount cfg chain keyList threads h;
  do balances <- newBalancesList (map Some (fst r)) threads true;
  do lists <- Run_lists balances (seq 0 (Z.to_nat threads));
  Ret (lists, snd r).

(** A world for the bootstrap examples. A key is as long as its line; the
    line "zz" does not parse; keys divisible by 3 lie on shard 2, the others
    on shard 1; the balance call fails for key 4, gives less than one Seele
    for key 5, and three Seele and 7 Fan per unit of the key otherwise. *)
Definition chain_demo : Chain :=
  mkChain
    (fun hex => if decide (hex = "zz"%string) then None
                else Some (Z.of_nat (String.length hex)))
    (fun key => mkAddress key (if key mod 3 =? 0 then 2 else 1))
    (fun a => if addr_id a =? 4 then None
              else if addr_id a =? 5 then Some 99999999
              else Some (addr_id a * 300000000 + 7))
    (fun a => Some (addr_id a + 10))
    100000000%positive.

Definition keys_demo : list string :=
  ["a"; ""; "bbb"; "cc"; "ddddd"]%string.

Definition keys_bad : list string :=
  ["a"; "zz"; "cc"]%string.

(** * The configuration loader of the node

    [GetConfigFromFile], [LoadConfigFromFile], [CopyConfig], [GetP2pConfig]
    and [LoadAccountConfig] of the second source file (package [cmd]). *)

(** ** Configuration records *)

(** [util.Config], [node.Config], [p2p.Config] and the structs inside them
    are declared in packages that are not among the sources at hand. The
    records below hold the fields the loader names; a value the loader only
    copies (a whole struct such as [HTTPServer], or the fields of a struct
    it does not name) is an [Opaque], [zero] being the zero value of its
    type. *)
Inductive Opaque : Type :=
| zero
| opaque (id : Z).

(** [p2p.Config]: [PrivateKey] is a pointer, [None] being nil. *)
Record p2p_Config : Type := mkP2P {
  PrivateKey : option Z;
  SubPrivateKey : string;
  p2p_rest : Opaque
}.

(** [core.GenesisInfo]: [Accounts] is a [map[common.Address]*big.Int]; the
    nil map and the empty map read the same. *)
Record GenesisInfo : Type := mkGenesis {
  Accounts : gmap Address Z;
  genesis_rest : Opaque
}.

Record BasicConfig : Type := mkBasic {
  Coinbase : string;
  DataDir : string;
  basic_rest : Opaque
}.

Record LogConfig : Type := mkLog {
  PrintLog : bool;
  IsDebug : bool;
  log_rest : Opaque
}.

(** [util.Config], as [CopyConfig] and [LoadConfigFromFile] read it. *)
Record util_Config : Type := mkUtil {
  u_BasicConfig : BasicConfig;
  u_LogConfig : LogConfig;
  u_HTTPServer : Opaque;
  u_WSServerConfig : Opaque;
  u_P2PConfig : p2p_Config;
  u_MetricsConfig : Opaque;
  u_GenesisConfig : GenesisInfo
}.

(** [node.SeeleConfig]. *)
Record SeeleConfig : Type := mkSeele {
  s_TxConf : Opaque;
  s_Coinbase : Address;
  s_GenesisConfig : GenesisInfo
}.

(** [node.Config], as [CopyConfig] builds it. *)
Record node_Config : Type := mkNode {
  n_BasicConfig : BasicConfig;
  n_LogConfig : LogConfig;
  n_HTTPServer : Opaque;
  n_WSServerConfig : Opaque;
  n_P2PConfig : p2p_Config;
  n_SeeleConfig : SeeleConfig;
  n_MetricsConfig : Opaque
}.

(** The fields of the package-level [comm.LogConfiguration] the loader
    writes. *)
Record LogConfiguration : Type := mkLogConfiguration {
  lc_PrintLog : bool;
  lc_IsDebug : bool;
  lc_DataDir : string
}.

(** What the loader calls outside this file. An [error] is [None] for nil
    and [Some msg] otherwise; a call that returns a value or an error is a
    sum, the error on the right.
    - [ioutil_ReadFile]: the content of the file, or an error;
    - [json_Unmarshal_Config]: [json.Unmarshal(buff, &config)] on a zero
      [util.Config]: what the config holds afterwards, and the error;
    - [json_Unmarshal_Accounts]: [json.Unmarshal(buff, &result)] on the
      empty map: what the map holds afterwards, and the error;
    - [crypto_LoadECDSAFromString], [common_HexMustToAddres] (which may
      panic), [core_DefaultTxPoolConfig], [common_GetDefaultDataFolder],
      [filepath_Join]: the functions of these names;
    - [common_EmptyAddress]: the zero value of [common.Address]. *)
Record LoadEnv : Type := mkLoadEnv {
  ioutil_ReadFile : string -> string + string;
  json_Unmarshal_Config : string -> util_Config * option string;
  json_Unmarshal_Accounts : string -> gmap Address Z * option string;
  crypto_LoadECDSAFromString : string -> Z + string;
  common_HexMustToAddres : string -> outcome Address;
  core_DefaultTxPoolConfig : Opaque;
  common_GetDefaultDataFolder : string;
  filepath_Join : string -> string -> string;
  common_EmptyAddress : Address
}.

(** The zero values [var config util.Config] and [node.SeeleConfig{}]. *)
Definition zero_GenesisInfo : GenesisInfo := mkGenesis ∅ zero.

Definition zero_util_Config : util_Config :=
  mkUtil (mkBasic "" "" zero) (mkLog false false zero) zero zero
         (mkP2P None "" zero) zero zero_GenesisInfo.

Definition zero_SeeleConfig (W : LoadEnv) : SeeleConfig :=
  mkSeele zero (common_EmptyAddress W) zero_GenesisInfo.

(** ** The loader *)

(** [GetConfigFromFile]: the config and the error; the config is returned
    with an error too, zero after a failed read and as [json.Unmarshal] left
    it after a failed parse. *)
Definition GetConfigFromFile (W : LoadEnv) (filepath : string)
  : util_Config * option string :=
  match ioutil_ReadFile W filepath with
  | inr err => (zero_util_Config, Some err)
  | inl buff => json_Unmarshal_Config W buff
  end.

(** [LoadAccountConfig]: no file is read for the empty path. *)
Definition LoadAccountConfig (W : LoadEnv) (account : string)
  : gmap Address Z * option string :=
  if decide (account = ""%string) then (∅, None)
  else
    match ioutil_ReadFile W account with
    | inr err => (∅, Some err)
    | inl buff => json_Unmarshal_Accounts W buff
    end.

(** [CopyConfig]. *)
Definition CopyConfig (W : LoadEnv) (cmdConfig : util_Config) : node_Config :=
  mkNode (u_BasicConfig cmdConfig) (u_LogConfig cmdConfig)
         (u_HTTPServer cmdConfig) (u_WSServerConfig cmdConfig)
         (u_P2PConfig cmdConfig) (zero_SeeleConfig W)
         (u_MetricsConfig cmdConfig).

(** [cmdConfig.P2PConfig.PrivateKey = key]. *)
Definition set_PrivateKey (c : util_Config) (key : Z) : util_Config :=
  mkUtil (u_BasicConfig c) (u_LogConfig c) (u_HTTPServer c)
         (u_WSServerConfig c)
         (mkP2P (Some key) (SubPrivateKey (u_P2PConfig c))
                (p2p_rest (u_P2PConfig c)))
         (u_MetricsConfig c) (u_GenesisConfig c).

(** [GetP2pConfig(cmdConfig)]: the pair it returns and [*cmdConfig] after
    the call, which the function writes through the pointer. *)
Definition GetP2pConfig (W : LoadEnv) (cmdConfig : util_Config)
  : (p2p_Config * option string) * util_Config :=
  match PrivateKey (u_P2PConfig cmdConfig) with
  | None =>
      match crypto_LoadECDSAFromString W (SubPrivateKey (u_P2PConfig cmdConfig)) with
      | inr err => ((u_P2PConfig cmdConfig, Some err), cmdConfig)
      | inl key =>
          let cmdConfig' := set_PrivateKey cmdConfig key in
          ((u_P2PConfig cmdConfig', None), cmdConfig')
      end
  | Some _ => ((u_P2PConfig cmdConfig, None), cmdConfig)
  end.

(** [cmdConfig.GenesisConfig.Accounts = accounts]. *)
Definition set_Accounts (c : util_Config) (accounts : gmap Address Z)
  : util_Config :=
  mkUtil (u_BasicConfig c) (u_LogConfig c) (u_HTTPServer c)
         (u_WSServerConfig c) (u_P2PConfig c) (u_MetricsConfig c)
         (mkGenesis accounts (genesis_rest (u_GenesisConfig c))).

(** [LoadConfigFromFile(configFile, accounts)], run with the package-level
    [comm.LogConfiguration] holding [lc]: the pair it returns ([None] being
    the nil config) and the log configuration afterwards. *)
Definition LoadConfigFromFile (W : LoadEnv) (configFile accounts : string)
  (lc : LogConfiguration)
  : outcome ((option node_Config * option string) * LogConfiguration) :=
  let cmdConfig := fst (GetConfigFromFile W configFile) in
  match snd (GetConfigFromFile W configFile) with
  | Some err => Ret ((None, Some err), lc)
  | None =>
      let cmdConfig := set_Accounts cmdConfig
                                    (fst (LoadAccountConfig W accounts)) in
      match snd (LoadAccountConfig W accounts) with
      | Some err => Ret ((None, Some err), lc)
      | None =>
          let config := CopyConfig W cmdConfig in
          let r := GetP2pConfig W cmdConfig in
          let cmdConfig := snd r in
          let config :=
            mkNode (n_BasicConfig config) (n_LogConfig config)
                   (n_HTTPServer config) (n_WSServerConfig config)
                   (fst (fst r)) (n_SeeleConfig config)
                   (n_MetricsConfig config) in
          match snd (fst r) with
          | Some err => Ret ((Some config, Some err), lc)
          | None =>
              do coinbase <- common_HexMustToAddres W
                               (Coinbase (n_BasicConfig config));
              let seele := mkSeele (core_DefaultTxPoolConfig W) coinbase
                                   (u_GenesisConfig cmdConfig) in
              let lc' := mkLogConfiguration
                           (PrintLog (n_LogConfig config))
                           (IsDebug (n_LogConfig config))
                           (DataDir (n_BasicConfig config)) in
              let basic :=
                mkBasic (Coinbase (n_BasicConfig config))
                        (filepath_Join W (common_GetDefaultDataFolder W)
                                       (DataDir (n_BasicConfig config)))
                        (basic_rest (n_BasicConfig config)) in
              Ret ((Some (mkNode basic (n_LogConfig config)
                                 (n_HTTPServer config)
                                 (n_WSServerConfig config)
                                 (n_P2PConfig config) seele
                                 (n_MetricsConfig config)),
                    None), lc')
          end
      end
  end.

(** ** A world for the loader examples *)

(** The config file of the examples: no key object yet, the key string
    [key], and one genesis account of its own. *)
Definition config_demo (key : string) : util_Config :=
  mkUtil (mkBasic "0xc0" "node1" (opaque 1)) (mkLog true false (opaque 2))
         (opaque 3) (opaque 4) (mkP2P None key (opaque 6)) (opaque 7)
         (mkGenesis {[ mkAddress 2 1 := 999 ]} (opaque 8)).

(** Three files exist: [node.json] and [badkey.json] parse as configs, the
    second with a key string that is no key; [accounts.json] parses as one
    account. The coinbase [0xc0] is an address, any other string is not. *)
Definition world_demo : LoadEnv :=
  mkLoadEnv
    (fun path =>
       if decide (path = "node.json"%string) then inl "cfg"%string
       else if decide (path = "badkey.json"%string) then inl "cfgbad"%string
       else if decide (path = "accounts.json"%string) then inl "accs"%string
       else inr "no such file"%string)
    (fun buff =>
       if decide (buff = "cfg"%string) then (config_demo "k1", None)
       else if decide (buff = "cfgbad"%string) then (config_demo "??", None)
       else (zero_util_Config, Some "invalid character"%string))
    (fun buff =>
       if decide (buff = "accs"%string) then ({[ mkAddress 1 1 := 50 ]}, None)
       else (∅, Some "invalid character"%string))
    (fun hex =>
       if decide (hex = "k1"%string) then inl 11
       else inr "invalid key"%string)
    (fun hex =>
       if decide (hex = "0xc0"%string) then Ret (mkAddress 9 1) else Panic)
    (opaque 5)
    "/home/.seele"%string
    (fun a b => (a +:+ "/" +:+ b)%string)
    (mkAddress 0 1).

Definition lc_demo : LogConfiguration :=
  mkLogConfiguration false true "old"%string.

(** Two threads in mode 3 with ceiling 2, both started at 0. Thread 0 sends
    at 0.1 s and 0.2 s and goes to sleep; thread 1 sends at 0.3 s, 0.4 s and
    0.5 s; then the sleep of thread 0 ends. *)
Definition shared_start : Shared := mkShared 0 0 0 [None; None] [] [].

Definition schedule_shared : list SharedEvent :=
  [Started 0; Started 1;
   Counted 0 (100 * ms); Counted 0 (100 * ms);
   Counted 1 (100 * ms); Counted 1 (100 * ms); Counted 1 (100 * ms);
   Woken 0 0].


(** A key file that lists the key [a] twice, the two records [initAccount]
    makes of it, and an accepted call on each. *)
Definition keys_twice : list string := ["a"; "a"]%string.

Definition heap_twins : list balance :=
  [mkBalance (mkAddress 1 1) 1 3 1 11 None false;
   mkBalance (mkAddress 1 1) 1 3 1 11 None false].


(** * Properties *)

(** Goals about the ranges of machine integers and durations, by linear
    arithmetic once the bounds are unfolded. *)
Ltac range_lia :=
  unfold in_int, in_uint64, int_min, int_max, uint64_max, Second in *; lia.

(** ** Machine arithmetic *)

Lemma wrap_int_id z : in_int z -> wrap_int z = z.
Proof.
  unfold in_int, int_min, int_max, wrap_int. intros Hz.
  rewrite Z.mod_small; lia.
Qed.

Lemma wrap_uint64_id z : in_uint64 z -> wrap_uint64 z = z.
Proof.
  unfold in_uint64, uint64_max, wrap_uint64. intros Hz.
  rewrite Z.mod_small; lia.
Qed.

Lemma Intn_range r n : 0 < n -> exists a, Intn r n = Ret a /\ 0 <= a < n.
Proof.
  intros Hn. unfold Intn.
  destruct (Z.leb_spec n 0) as [Hle|_]; [lia|].
  exists (r mod n). split; [reflexivity|]. apply Z.mod_pos_bound. exact Hn.
Qed.

Lemma Intn_onto n v : 0 <= v < n -> Intn v n = Ret v.
Proof.
  intros Hv. unfold Intn.
  destruct (Z.leb_spec n 0) as [Hle|_]; [lia|].
  rewrite Z.mod_small by exact Hv. reflexivity.
Qed.

Lemma Intn_panics r n : n <= 0 -> Intn r n = Panic.
Proof.
  intros Hn. unfold Intn.
  destruct (Z.leb_spec n 0) as [_|Hlt]; [reflexivity|lia].
Qed.

(** ** [send] *)

Lemma getRandClient_returns cfg r :
  size (clientList cfg) <> 0%nat -> exists c, getRandClient cfg r = Ret c.
Proof.
  intros Hne. unfold getRandClient.
  destruct (decide (size (clientList cfg) = 0%nat)) as [Hz|Hnz].
  - contradiction.
  - destruct (Intn_range r (Z.of_nat (size (clientList cfg)))) as (c & Hc & _).
    + lia.
    + exists c. exact Hc.
Qed.

(** When the draw of the amount and the choice of a client go through,
    [send] returns, and what it returns is decided by [accepted]. *)
Lemma send_returns cfg e h b src amt :
  h !! b = Some src ->
  send_amount (mode cfg) (rand_amount e) src = Ret amt ->
  size (clientList cfg) <> 0%nat ->
  send cfg e h b =
    Ret (if accepted e
         then alloc (<[b := debit src amt]> h) (newBalance_of src e amt (gen_tx e))
         else alloc h (newBalance_of src e amt None)).
Proof.
  intros Hb Hamt Hcl. unfold send. rewrite Hb, Hamt. simpl.
  destruct (getRandClient_returns cfg (rand_client e) Hcl) as (c & Hc).
  rewrite Hc. simpl. unfold accepted.
  destruct (gen_tx e) as [hash|]; [|reflexivity].
  destruct (send_rejected e); reflexivity.
Qed.

Lemma send_amount_returns md r src :
  (md = 1 -> 0 < amount src) ->
  exists amt, send_amount md r src = Ret amt.
Proof.
  intros Hpos. unfold send_amount.
  destruct (Z.eqb_spec md 1) as [H1|H1].
  - destruct (Intn_range r (amount src) (Hpos H1)) as (a & Ha & _). eauto.
  - destruct (md =? 3); eauto.
Qed.

Lemma submission_fails_not_accepted e : submission_fails e -> accepted e = false.
Proof.
  unfold submission_fails, accepted, send_rejected.
  intros [Hg|[Hok|Herr]].
  - rewrite Hg. reflexivity.
  - destruct (gen_tx e); [|reflexivity]. rewrite Hok. reflexivity.
  - destruct (gen_tx e); [|reflexivity]. rewrite Herr.
    destruct (send_ok e); reflexivity.
Qed.

Lemma submission_succeeds_accepted e hash :
  submission_succeeds e hash -> accepted e = true /\ gen_tx e = Some hash.
Proof.
  unfold submission_succeeds, accepted, send_rejected.
  intros (Hg & Hok & Herr). rewrite Hg, Hok, Herr. split; reflexivity.
Qed.

(** [send] panics exactly when the entry is nil, when mode 1 draws from an
    amount that is not positive, or when there is no client at all. *)
Lemma send_panics_iff cfg e h b :
  send cfg e h b = Panic <->
  h !! b = None \/
  (exists src, h !! b = Some src /\ mode cfg = 1 /\ amount src <= 0) \/
  size (clientList cfg) = 0%nat.
Proof.
  unfold send. destruct (h !! b) as [src|] eqn:Hb.
  2:{ split; [auto|reflexivity]. }
  unfold send_amount.
  destruct (Z.eqb_spec (mode cfg) 1) as [H1|H1].
  - unfold Intn at 1. destruct (Z.leb_spec (amount src) 0) as [Hle|Hgt]; simpl.
    + split; [|reflexivity]. intros _. right. left. eauto.
    + unfold getRandClient.
      destruct (decide (size (clientList cfg) = 0%nat)) as [Hz|Hnz]; simpl.
      * split; [|reflexivity]. intros _. right. right. exact Hz.
      * destruct (Intn_range (rand_client e) (Z.of_nat (size (clientList cfg))))
          as (c & Hc & _); [lia|]. rewrite Hc. simpl.
        split.
        { destruct (gen_tx e); [destruct (send_rejected e)|]; discriminate. }
        intros [Hn|[(s' & Hs' & _ & Hle)|He]].
        -- discriminate.
        -- injection Hs' as <-. lia.
        -- contradiction.
  - assert (exists amt, (if mode cfg =? 3 then Ret (amount src) else Ret 1) = Ret amt)
      as (amt & ->) by (destruct (mode cfg =? 3); eauto).
    simpl. unfold getRandClient.
    destruct (decide (size (clientList cfg) = 0%nat)) as [Hz|Hnz]; simpl.
    + split; [|reflexivity]. intros _. right. right. exact Hz.
    + destruct (Intn_range (rand_client e) (Z.of_nat (size (clientList cfg))))
        as (c & Hc & _); [lia|]. rewrite Hc. simpl.
      split.
      { destruct (gen_tx e); [destruct (send_rejected e)|]; discriminate. }
      intros [Hn|[(s' & Hs' & Hm & _)|He]].
      * discriminate.
      * contradiction.
      * contradiction.
Qed.

Lemma newBalance_of_fields src e amt txo :
  amount (newBalance_of src e amt txo) = amt /\
  nonce (newBalance_of src e amt txo) = 0 /\
  tx (newBalance_of src e amt txo) = txo /\
  addr_shard (address (newBalance_of src e amt txo)) = addr_shard (address src).
Proof. unfold newBalance_of, MustGenerateShardKeyPair. simpl. auto. Qed.

(** A failed call: the store only gains the beneficiary, which carries no
    transaction. *)
Lemma send_failed cfg e h b src :
  h !! b = Some src ->
  submission_fails e ->
  (mode cfg = 1 -> 0 < amount src) ->
  size (clientList cfg) <> 0%nat ->
  exists nb, send cfg e h b = Ret (length h, h ++ [nb]) /\ tx nb = None.
Proof.
  intros Hb Hf Hpos Hcl.
  destruct (send_amount_returns (mode cfg) (rand_amount e) src Hpos) as (amt & Hamt).
  rewrite (send_returns cfg e h b src amt Hb Hamt Hcl).
  rewrite (submission_fails_not_accepted e Hf).
  exists (newBalance_of src e amt None). split; [reflexivity|].
  apply newBalance_of_fields.
Qed.

(** C2. In every mode, a call of [send] whose submission fails (the
    transaction cannot be built, the ledger does not accept it, or the RPC
    errs) returns a beneficiary without transaction hash and leaves the
    source entry as it was: its nonce and amount, and every other field;
    and so after any number of failed calls in a row. The two side
    conditions say that the call gets as far as submitting: mode 1 draws
    from a positive amount and a client exists ([send_panics_iff]). *)
Theorem send_failure_leaves_source cfg es h b src :
  h !! b = Some src ->
  Forall submission_fails es ->
  (mode cfg = 1 -> 0 < amount src) ->
  size (clientList cfg) <> 0%nat ->
  exists qs h',
    send_cycles cfg es h b = Ret (qs, h') /\
    length qs = length es /\
    h' !! b = Some src /\
    Forall (fun q => exists nb, h' !! q = Some nb /\ tx nb = None) qs /\
    h `prefix_of` h'.
Proof.
  intros Hb Hes Hpos Hcl. revert h Hb.
  induction Hes as [|e es He Hes IH]; intros h Hb.
  - exists [], h. simpl. repeat split; auto.
  - destruct (send_failed cfg e h b src Hb He Hpos Hcl) as (nb & Hsend & Htx).
    assert (Hb' : (h ++ [nb]) !! b = Some src).
    { apply lookup_app_l_Some. exact Hb. }
    destruct (IH (h ++ [nb]) Hb') as (qs & h' & Hrun & Hlen & Hsrc & Hqs & Hpre).
    exists (length h :: qs), h'. simpl. rewrite Hsend. simpl. rewrite Hrun. simpl.
    repeat split.
    + rewrite Hlen. reflexivity.
    + exact Hsrc.
    + constructor; [|exact Hqs]. exists nb. split; [|exact Htx].
      eapply prefix_lookup_Some; [|exact Hpre].
      rewrite lookup_app_r by lia. rewrite Nat.sub_diag. reflexivity.
    + etransitivity; [|exact Hpre]. apply prefix_app_r. reflexivity.
Qed.

Lemma send_failure_leaves_source_witness :
  exists qs h',
    send_cycles (cfg_of 1 3)
                [env_refused 17 8 501; env_nogen 23 9; env_rpcerr 4 10 502]
                [account 7 100 5] 0%nat = Ret (qs, h') /\
    length qs = 3%nat /\
    h' !! 0%nat = Some (account 7 100 5) /\
    Forall (fun q => exists nb, h' !! q = Some nb /\ tx nb = None) qs /\
    [account 7 100 5] `prefix_of` h'.
Proof.
  apply (send_failure_leaves_source (cfg_of 1 3)
           [env_refused 17 8 501; env_nogen 23 9; env_rpcerr 4 10 502]
           [account 7 100 5] 0%nat (account 7 100 5)).
  - reflexivity.
  - constructor; [right; left; reflexivity|].
    constructor; [left; reflexivity|].
    constructor; [right; right; reflexivity|].
    constructor.
  - intros _. simpl. lia.
  - vm_compute. lia.
Defined.

(** ** The amount of a mode-1 send *)

(** C4, as amended. In mode 1 the amount chosen for a send from an entry
    with funds is at least 0 and strictly below the entry's amount, and
    every such number, 0 included, can be drawn. *)
Theorem mode1_amount_range r src :
  0 < amount src ->
  (exists a, send_amount 1 r src = Ret a /\ 0 <= a < amount src) /\
  (forall v, 0 <= v < amount src -> exists r', send_amount 1 r' src = Ret v).
Proof.
  intros Hpos. unfold send_amount. simpl. split.
  - apply Intn_range. exact Hpos.
  - intros v Hv. exists v. apply Intn_onto. exact Hv.
Qed.

Lemma mode1_amount_range_witness :
  (exists a, send_amount 1 42 (account 7 100 0) = Ret a /\
             0 <= a < amount (account 7 100 0)) /\
  (forall v, 0 <= v < amount (account 7 100 0) ->
             exists r', send_amount 1 r' (account 7 100 0) = Ret v).
Proof.
  apply (mode1_amount_range 42 (account 7 100 0)). simpl. lia.
Defined.

(** C4 as stated fails: from an entry holding 1 the amount drawn is 0, which
    is not strictly positive. *)
Lemma mode1_amount_zero :
  send_amount 1 0 (account 7 1 0) = Ret 0 /\
  ~ (forall a, send_amount 1 0 (account 7 1 0) = Ret a ->
               0 < a < amount (account 7 1 0)).
Proof.
  split; [reflexivity|].
  intros H. specialize (H 0 eq_refl). lia.
Qed.

(** ** A successful send *)

Lemma send_inv cfg e h b r :
  send cfg e h b = Ret r ->
  exists src amt,
    h !! b = Some src /\
    send_amount (mode cfg) (rand_amount e) src = Ret amt /\
    r = (if accepted e
         then alloc (<[b := debit src amt]> h) (newBalance_of src e amt (gen_tx e))
         else alloc h (newBalance_of src e amt None)).
Proof.
  unfold send. destruct (h !! b) as [src|] eqn:Hb; [|discriminate].
  destruct (send_amount (mode cfg) (rand_amount e) src) as [amt|] eqn:Ha;
    [|discriminate].
  simpl. destruct (getRandClient cfg (rand_client e)); [|discriminate].
  simpl. unfold accepted. intros Hr. exists src, amt.
  split; [reflexivity|]. split; [exact Ha|].
  destruct (gen_tx e); [destruct (send_rejected e)|]; simpl; congruence.
Qed.

(** The amounts [send] draws keep the subtraction inside the [int] range,
    apart from 1 taken from the least [int]. *)
Lemma send_amount_bounds md r src amt :
  send_amount md r src = Ret amt ->
  in_int (amount src) ->
  amount src - amt <= int_max /\
  (int_min < amount src -> int_min <= amount src - amt).
Proof.
  unfold send_amount, in_int, int_min, int_max. intros Ha Hin.
  destruct (md =? 1).
  - unfold Intn in Ha. destruct (Z.leb_spec (amount src) 0) as [|Hpos];
      [discriminate|].
    injection Ha as <-.
    pose proof (Z.mod_pos_bound r (amount src) Hpos). lia.
  - destruct (md =? 3); injection Ha as <-; lia.
Qed.

(** C8, as amended. In every mode, a call of [send] whose submission
    succeeds returns; the source entry then holds [amount - chosen] and
    [nonce + 1] in Go's fixed-width arithmetic, its other fields untouched:
    the amount is exactly [amount - chosen] unless 1 is taken from the least
    [int], and the nonce is exactly [nonce + 1] unless it was the greatest
    [uint64], where it wraps to 0. The beneficiary returned holds the chosen
    amount, nonce 0 and the hash of the submitted transaction. *)
Theorem send_success_updates cfg e h b src hash :
  h !! b = Some src ->
  submission_succeeds e hash ->
  (mode cfg = 1 -> 0 < amount src) ->
  size (clientList cfg) <> 0%nat ->
  in_int (amount src) ->
  in_uint64 (nonce src) ->
  exists amt q h' src' nb,
    send_amount (mode cfg) (rand_amount e) src = Ret amt /\
    send cfg e h b = Ret (q, h') /\
    h' !! b = Some src' /\
    h' !! q = Some nb /\
    amount src' = wrap_int (amount src - amt) /\
    (int_min < amount src -> amount src' = amount src - amt) /\
    nonce src' = wrap_uint64 (nonce src + 1) /\
    (nonce src < uint64_max -> nonce src' = nonce src + 1) /\
    (nonce src = uint64_max -> nonce src' = 0) /\
    (address src', privateKey src', shard src', tx src', packed src') =
      (address src, privateKey src, shard src, tx src, packed src) /\
    amount nb = amt /\ nonce nb = 0 /\ tx nb = Some hash.
Proof.
  intros Hb Hok Hpos Hcl Hamt Hnonce.
  destruct (send_amount_returns (mode cfg) (rand_amount e) src Hpos) as (amt & Ha).
  destruct (submission_succeeds_accepted e hash Hok) as (Hacc & Hgen).
  pose proof (send_returns cfg e h b src amt Hb Ha Hcl) as Hsend.
  rewrite Hacc, Hgen in Hsend.
  unfold alloc in Hsend. rewrite length_insert in Hsend.
  destruct (send_amount_bounds _ _ _ _ Ha Hamt) as (Hhi & Hlo).
  pose proof (lookup_lt_Some _ _ _ Hb) as Hlt.
  exists amt, (length h), (<[b := debit src amt]> h ++ [newBalance_of src e amt (Some hash)]),
         (debit src amt), (newBalance_of src e amt (Some hash)).
  split; [exact Ha|]. split; [exact Hsend|].
  split.
  { rewrite lookup_app_l by (rewrite length_insert; exact Hlt).
    apply list_lookup_insert_eq. exact Hlt. }
  split.
  { rewrite lookup_app_r by (rewrite length_insert; lia).
    rewrite length_insert, Nat.sub_diag. reflexivity. }
  split; [reflexivity|].
  split.
  { intros Hmin. simpl. apply wrap_int_id. unfold in_int. split; [auto|exact Hhi]. }
  split; [reflexivity|].
  split.
  { intros Hmax. simpl. apply wrap_uint64_id.
    unfold in_uint64, uint64_max in *. lia. }
  split.
  { intros Hmax. simpl. rewrite Hmax. reflexivity. }
  split; [reflexivity|].
  destruct (newBalance_of_fields src e amt (Some hash)) as (H1 & H2 & H3 & _).
  auto.
Qed.

Lemma send_success_updates_witness :
  exists amt q h' src' nb,
    send_amount 1 37 (account 7 100 5) = Ret amt /\
    send (cfg_of 1 3) (env_ok 37 8 500) [account 7 100 5] 0%nat = Ret (q, h') /\
    h' !! 0%nat = Some src' /\
    h' !! q = Some nb /\
    amount src' = wrap_int (100 - amt) /\
    (int_min < 100 -> amount src' = 100 - amt) /\
    nonce src' = wrap_uint64 (5 + 1) /\
    (5 < uint64_max -> nonce src' = 5 + 1) /\
    (5 = uint64_max -> nonce src' = 0) /\
    (address src', privateKey src', shard src', tx src', packed src') =
      (mkAddress 7 1, 7, 1, None, false) /\
    amount nb = amt /\ nonce nb = 0 /\ tx nb = Some 500.
Proof.
  apply (send_success_updates (cfg_of 1 3) (env_ok 37 8 500)
           [account 7 100 5] 0%nat (account 7 100 5) 500).
  - reflexivity.
  - unfold submission_succeeds. simpl. auto.
  - intros _. simpl. lia.
  - vm_compute. lia.
  - unfold in_int, int_min, int_max. simpl. lia.
  - unfold in_uint64, uint64_max. simpl. lia.
Defined.

(** C8 as stated fails at the greatest [uint64]: after an accepted send the
    nonce is 0, not one more than before. *)
Lemma send_success_nonce_wraps :
  exists q h' src',
    send (cfg_of 2 3) (env_ok 0 8 500)
         [account 7 5 18446744073709551615] 0%nat = Ret (q, h') /\
    h' !! 0%nat = Some src' /\
    nonce src' = 0 /\
    nonce src' <> nonce (account 7 5 18446744073709551615) + 1.
Proof.
  eexists _, _, _. split; [vm_compute; reflexivity|].
  split; [reflexivity|]. split; [reflexivity|]. simpl. lia.
Qed.

(** ** Nonces *)








Lemma filter_ext_in {A} (P Q : A -> Prop)
  `{forall x, Decision (P x)} `{forall x, Decision (Q x)} (l : list A) :
  (forall x, x ∈ l -> P x <-> Q x) -> filter P l = filter Q l.
Proof.
  induction l as [|x l IH]; intros Hext; [reflexivity|].
  assert (Hl : filter P l = filter Q l).
  { apply IH. intros y Hy. apply Hext. right. exact Hy. }
  destruct (decide (P x)) as [Hp|Hp].
  - rewrite !filter_cons_True; [congruence| |exact Hp].
    apply Hext; [left|exact Hp].
  - rewrite !filter_cons_False; [exact Hl| |exact Hp].
    intros Hq. apply Hp. apply Hext; [left|exact Hq].
Qed.




(** The log of that run: the nonce 11 is used twice, for the refused
    submission and for the one after it; every submission is from the one
    entry of address (7, 1). *)
Example submissions_mixed :
  submissions (cfg_of 2 3) steps_mixed [account 7 5 10]
    = [mkSubmission 0 (mkAddress 7 1) 10 true;
       mkSubmission 0 (mkAddress 7 1) 11 false;
       mkSubmission 0 (mkAddress 7 1) 11 true] /\
  one_entry_per_address (submissions (cfg_of 2 3) steps_mixed [account 7 5 10]).
Proof.
  split; [vm_compute; reflexivity|].
  apply (bool_decide_unpack _). vm_compute. exact I.
Qed.


(** ** The rate limiter *)

(** The count reaches the ceiling before a second has passed since the
    window start: the worker sleeps for the rest of the second and resets
    the window. *)
Lemma throttle_reached_early k cnt start now lag :
  0 <= cnt -> cnt + 1 = k -> k <= int_max ->
  start <= now -> now - start < Second ->
  throttle k cnt start now lag =
    mkTick 0 (start + Second + Z.of_N lag) (start + Second + Z.of_N lag)
           (Some (Second - (now - start))) true.
Proof.
  intros Hc Hk Hmax Hle Hlt. unfold throttle.
  rewrite (wrap_int_id (cnt + 1)) by range_lia.
  rewrite (proj2 (Z.eqb_eq _ _) Hk).
  assert (Hsub : Sub now start = now - start).
  { unfold Sub. range_lia. }
  rewrite Hsub. rewrite (proj2 (Z.ltb_lt _ _) Hlt).
  rewrite (wrap_int_id (Second - (now - start)))
    by range_lia.
  simpl default. f_equal; lia.
Qed.

(** The count reaches the ceiling after a second or more: no sleep, the
    window is reset. *)
Lemma throttle_reached_late k cnt start now lag :
  0 <= cnt -> cnt + 1 = k -> k <= int_max ->
  Second <= now - start ->
  throttle k cnt start now lag =
    mkTick 0 (now + Z.of_N lag) (now + Z.of_N lag) None true.
Proof.
  intros Hc Hk Hmax Hge. unfold throttle.
  rewrite (wrap_int_id (cnt + 1)) by range_lia.
  rewrite (proj2 (Z.eqb_eq _ _) Hk).
  assert (Hsub : Second <= Sub now start).
  { unfold Sub. range_lia. }
  rewrite (proj2 (Z.ltb_ge _ _) Hsub). simpl default. f_equal; lia.
Qed.

(** The count stays below the ceiling: nothing but the count changes. *)
Lemma throttle_below k cnt start now lag :
  0 <= cnt -> cnt + 1 < k -> k <= int_max ->
  throttle k cnt start now lag = mkTick (cnt + 1) start now None false.
Proof.
  intros Hc Hk Hmax. unfold throttle.
  rewrite (wrap_int_id (cnt + 1)) by range_lia.
  rewrite (proj2 (Z.eqb_neq _ _)) by lia. reflexivity.
Qed.

Lemma pace_init_inv k now : 0 < k -> pace_inv k (pace_init now).
Proof.
  intros Hk. unfold pace_inv, pace_init. simpl.
  repeat split; try lia. constructor.
Qed.

Lemma pace_step_inv k s d :
  0 < k <= int_max -> pace_inv k s -> pace_inv k (pace_step k s d).
Proof.
  intros Hk (Hc & Hst & Hsent & Hlog). unfold pace_step.
  destruct (Z.eq_dec (p_count s + 1) k) as [Hreach|Hbelow].
  - destruct (Z_lt_le_dec (p_now s + Z.of_N (fst d) - p_start s) Second)
      as [Hearly|Hlate].
    + rewrite throttle_reached_early by lia. simpl.
      unfold pace_inv. simpl. repeat split; try lia.
      apply Forall_app. split; [exact Hlog|].
      constructor; [|constructor].
      unfold window_ok. simpl. repeat split; try lia.
    + rewrite throttle_reached_late by lia. simpl.
      unfold pace_inv. simpl. repeat split; try lia.
      apply Forall_app. split; [exact Hlog|].
      constructor; [|constructor].
      unfold window_ok. simpl. repeat split; try lia.
  - rewrite throttle_below by lia. simpl.
    unfold pace_inv. simpl. repeat split; try lia. exact Hlog.
Qed.

Lemma pace_preserves_inv k ds : forall s,
  0 < k <= int_max -> pace_inv k s -> pace_inv k (pace k ds s).
Proof.
  induction ds as [|d ds IH]; intros s Hk Hinv; [exact Hinv|].
  simpl. apply IH; [exact Hk|]. apply pace_step_inv; assumption.
Qed.

(** What [n] sends of a worker alone leave behind: [n] is [k] times the
    number of completed windows plus the running count, and each completed
    window has moved the window start on by a second or more. *)
Lemma pace_counts k now0 ds : forall s n,
  0 < k <= int_max ->
  pace_inv k s ->
  n = k * Z.of_nat (length (p_log s)) + p_count s ->
  now0 + Z.of_nat (length (p_log s)) * Second <= p_start s ->
  let s' := pace k ds s in
  n + Z.of_nat (length ds) = k * Z.of_nat (length (p_log s')) + p_count s' /\
  now0 + Z.of_nat (length (p_log s')) * Second <= p_start s'.
Proof.
  induction ds as [|d ds IH]; intros s n Hk Hinv Hn Hstart.
  - cbn. split; lia.
  - cbn [pace foldl]. fold (pace k ds (pace_step k s d)).
    pose proof (pace_step_inv k s d Hk Hinv) as Hinv1.
    destruct Hinv as (Hc & Hst & _ & _).
    assert (Hstep :
              n + 1 = k * Z.of_nat (length (p_log (pace_step k s d)))
                      + p_count (pace_step k s d) /\
              now0 + Z.of_nat (length (p_log (pace_step k s d))) * Second
                <= p_start (pace_step k s d)).
    { unfold pace_step.
      destruct (Z.eq_dec (p_count s + 1) k) as [Hreach|Hbelow].
      - destruct (Z_lt_le_dec (p_now s + Z.of_N (fst d) - p_start s) Second)
          as [Hearly|Hlate].
        + rewrite throttle_reached_early by lia. cbn.
          rewrite length_app. cbn [length]. split; lia.
        + rewrite throttle_reached_late by lia. cbn.
          rewrite length_app. cbn [length]. split; lia.
      - rewrite throttle_below by lia. cbn. split; lia. }
    destruct Hstep as (Hn1 & Hstart1).
    destruct (IH (pace_step k s d) (n + 1) Hk Hinv1 Hn1 Hstart1) as (Hn' & Hs').
    cbn [length]. split; [lia|exact Hs'].
Qed.

(** X21. A worker that paces alone, with a ceiling of [k] sends per second,
    after any [n] sends: the running count is [n mod k] and [n / k] windows
    have been completed, one at every [k]-th send; each of them counts [k]
    sends, lasted a second or longer, and was closed by a sleep for the rest
    of the second when the count reached [k] earlier than that; the [n]
    sends have taken [n / k] seconds or more. And when the next send brings
    the count to [k] before a second has passed since the window start, the
    worker asks to sleep for exactly the rest of the second (a positive
    time, at most the second), and is back with the count at 0 and the
    window starting at the clock. *)
Theorem lone_worker_is_paced k now0 ds :
  0 < k <= int_max ->
  let s := pace k ds (pace_init now0) in
  let n := Z.of_nat (length ds) in
  p_count s = n mod k /\
  Z.of_nat (length (p_log s)) = n / k /\
  Forall (window_ok k) (p_log s) /\
  now0 + n / k * Second <= p_now s /\
  (forall dt lag,
     let now := p_now s + Z.of_N dt in
     let t := throttle k (p_count s) (p_start s) now lag in
     p_count s + 1 = k ->
     now - p_start s < Second ->
     tk_sleep t = Some (Second - (now - p_start s)) /\
     0 < Second - (now - p_start s) <= Second /\
     tk_now t = now + (Second - (now - p_start s)) + Z.of_N lag /\
     tk_count t = 0 /\
     tk_start t = tk_now t).
Proof.
  intros Hk s n.
  assert (Hinit : pace_inv k (pace_init now0)) by (apply pace_init_inv; lia).
  assert (Hinv : pace_inv k s) by (apply pace_preserves_inv; assumption).
  destruct (pace_counts k now0 ds (pace_init now0) 0 Hk Hinit) as (Hn & Hstart).
  { cbn. lia. }
  { cbn. lia. }
  fold s in Hn, Hstart. fold n in Hn. rewrite Z.add_0_l in Hn.
  destruct Hinv as (Hc & Hst & _ & Hlog).
  assert (Hq : Z.of_nat (length (p_log s)) = n / k).
  { apply (Z.div_unique_pos n k _ (p_count s)); [lia|exact Hn]. }
  assert (Hr : p_count s = n mod k).
  { apply (Z.mod_unique_pos n k (Z.of_nat (length (p_log s)))); [lia|exact Hn]. }
  split; [exact Hr|]. split; [exact Hq|]. split; [exact Hlog|].
  split; [rewrite <- Hq; lia|].
  intros dt lag now t Hreach Hearly. subst t.
  rewrite throttle_reached_early by lia. simpl. repeat split; lia.
Qed.

Lemma lone_worker_is_paced_witness :
  let s := pace 3 [(100 * ms, 0); (200 * ms, 5); (100 * ms, 7); (50 * ms, 0);
                   (20 * ms, 0)]%N
                (pace_init 0) in
  let n := Z.of_nat (length [(100 * ms, 0); (200 * ms, 5); (100 * ms, 7);
                             (50 * ms, 0); (20 * ms, 0)]%N) in
  p_count s = n mod 3 /\
  Z.of_nat (length (p_log s)) = n / 3 /\
  Forall (window_ok 3) (p_log s) /\
  0 + n / 3 * Second <= p_now s /\
  (forall dt lag,
     let now := p_now s + Z.of_N dt in
     let t := throttle 3 (p_count s) (p_start s) now lag in
     p_count s + 1 = 3 ->
     now - p_start s < Second ->
     tk_sleep t = Some (Second - (now - p_start s)) /\
     0 < Second - (now - p_start s) <= Second /\
     tk_now t = now + (Second - (now - p_start s)) + Z.of_N lag /\
     tk_count t = 0 /\
     tk_start t = tk_now t).
Proof.
  apply (lone_worker_is_paced 3 0
           [(100 * ms, 0); (200 * ms, 5); (100 * ms, 7); (50 * ms, 0);
            (20 * ms, 0)]%N).
  unfold int_max. lia.
Defined.

(** The state of that worker after its five sends: one window completed
    (three sends, closed at 1.000000007 s after a sleep of 0.6 s), two sends
    counted in the second one, so the next send reaches the ceiling. *)
Example lone_worker_after_five :
  pace 3 [(100 * ms, 0); (200 * ms, 5); (100 * ms, 7); (50 * ms, 0);
          (20 * ms, 0)]%N (pace_init 0)
  = mkPace 1070000007 1000000007 2 2
           [mkWindowRec 0 400000000 (Some 600000000) 1000000007 3].
Proof. vm_compute. reflexivity. Qed.

(** C3 fails on the code where several threads run in mode 3: [tpsCount] is
    one package-level variable. With a ceiling of 2, thread 0 brings the
    count to 2 at 0.2 s and sleeps for the rest of the second; meanwhile
    thread 1 sends at 0.3 s, 0.4 s and 0.5 s, the count going to 3, 4 and 5,
    none of which equals the ceiling, so it is never suspended. The window
    thread 0 closes at 1 s holds five sends, three of them of thread 1. *)
Theorem shared_count_overruns_ceiling :
  let c := shared_run 2 schedule_shared shared_start in
  sh_sends c = [(0%nat, 100000000); (0%nat, 200000000);
                (1%nat, 300000000); (1%nat, 400000000); (1%nat, 500000000)] /\
  sh_resets c = [(0%nat, 1000000000)] /\
  sh_asleep c = [None; None] /\
  sh_tpsCount c = 0 /\
  sh_tpsStartTime c = 1000000000 /\
  2 < Z.of_nat (length (sends_before 1000000000 (sh_sends c))) /\
  2 < Z.of_nat (length (sends_by 1 (sends_before 1000000000 (sh_sends c)))).
Proof. vm_compute. repeat split; reflexivity. Qed.

(** C6 fails on the code: [tpsStartTime] is one package-level variable.
    Worker 1 sends at 0.1 s and at 1.5 s. Alone it is not suspended at its
    second send, its window being 1.5 s old; next to worker 0, whose reset
    at 1.0 s moved the common window start, it is suspended for 0.5 s. *)
Theorem window_start_is_shared :
  sends_of 1 (c_log (crowd 2 schedule_alone crowd_start))
    = [(100000000, None); (1500000000, None)] /\
  sends_of 1 (c_log (crowd 2 schedule_together crowd_start))
    = [(100000000, None); (1500000000, Some 500000000)].
Proof. split; vm_compute; reflexivity. Qed.

(** ** The poll of the monitor *)

Lemma getTx_returns cfg ledger a hash :
  addr_shard a ∈ clientList cfg ->
  getTx cfg ledger a hash = Ret (fst (ledger a hash)).
Proof.
  intros Hin. unfold getTx, getClient.
  rewrite decide_True by exact Hin. simpl.
  destruct (ledger a hash) as [result [err|]]; reflexivity.
Qed.

Lemma status_is_nonempty result s :
  status_is result s = true -> (0 < size result)%nat.
Proof.
  unfold status_is. intros Hs. apply bool_decide_eq_true in Hs.
  destruct (decide (size result = 0%nat)) as [Hz|Hnz]; [|lia].
  apply map_size_empty_iff in Hz. subst result.
  rewrite lookup_empty in Hs. discriminate.
Qed.

Lemma status_is_exclusive result :
  status_is result "block" = true -> status_is result "pool" = false.
Proof.
  unfold status_is. intros Hs. apply bool_decide_eq_true in Hs.
  apply bool_decide_eq_false. rewrite Hs. intros Heq. discriminate.
Qed.

Lemma status_is_empty s : status_is ∅ s = false.
Proof.
  unfold status_is. apply bool_decide_eq_false. rewrite lookup_empty.
  discriminate.
Qed.

(** The loop of [getIncludedAndPendingBalance] is two filters. *)
Lemma classify_loop_spec cfg ledger h balances : forall include pending,
  Forall (queryable cfg h) balances ->
  classify_loop cfg ledger h balances include pending =
    Ret (include ++ filter (fun b => reported ledger h "block" b = true) balances,
         pending ++ filter (fun b => reported ledger h "pool" b = true) balances).
Proof.
  induction balances as [|b rest IH]; intros include pending Hq.
  - simpl. rewrite !app_nil_r. reflexivity.
  - apply Forall_cons in Hq as ((v & Hv & Hcl) & Hrest).
    simpl classify_loop. rewrite Hv.
    assert (Hrep : forall s, reported ledger h s b =
                     match tx v with
                     | Some hash => status_is (fst (ledger (address v) hash)) s
                     | None => false
                     end).
    { intros s. unfold reported, answer_of. rewrite Hv.
      destruct (tx v); reflexivity. }
    destruct (tx v) as [hash|] eqn:Htx.
    + rewrite getTx_returns by (apply (Hcl hash); reflexivity). simpl.
      set (result := fst (ledger (address v) hash)) in *.
      destruct (status_is result "block") eqn:Hblock.
      * rewrite decide_True by (eapply status_is_nonempty; exact Hblock).
        rewrite IH by exact Hrest.
        rewrite filter_cons_True by (rewrite Hrep; exact Hblock).
        rewrite filter_cons_False
          by (rewrite Hrep, (status_is_exclusive _ Hblock); discriminate).
        rewrite <- app_assoc. reflexivity.
      * rewrite (filter_cons_False _ b rest)
          by (rewrite Hrep, Hblock; discriminate).
        destruct (status_is result "pool") eqn:Hpool.
        -- rewrite decide_True by (eapply status_is_nonempty; exact Hpool).
           rewrite IH by exact Hrest.
           rewrite filter_cons_True by (rewrite Hrep; exact Hpool).
           rewrite <- app_assoc. reflexivity.
        -- rewrite (filter_cons_False _ b rest)
             by (rewrite Hrep, Hpool; discriminate).
           destruct (decide (0 < size result)%nat); apply IH; exact Hrest.
    + rewrite !filter_cons_False by (rewrite Hrep; discriminate).
      apply IH. exact Hrest.
Qed.

Lemma reported_without_errors ledger h s b :
  reported (without_errors ledger) h s b = reported ledger h s b.
Proof.
  unfold reported, answer_of, without_errors.
  destruct (h !! b) as [v|]; [|reflexivity].
  destruct (tx v); reflexivity.
Qed.

(** The poll as a whole. *)
Lemma monitor_checkPack_spec cfg ledger now h m :
  Forall (queryable cfg h) (toPackedBalanceList m) ->
  monitor_checkPack cfg ledger now h m =
    Ret (mkMonitor
           (m_balanceList m)
           (filter (fun b => reported ledger h "pool" b = true)
                   (toPackedBalanceList m))
           (<[now := filter (fun b => reported ledger h "block" b = true)
                            (toPackedBalanceList m)]>
              (toConfirmBalanceList m))).
Proof.
  intros Hq. unfold monitor_checkPack, getIncludedAndPendingBalance.
  rewrite classify_loop_spec by exact Hq. reflexivity.
Qed.

Lemma reported_eq ledger h s b v hash :
  h !! b = Some v -> tx v = Some hash ->
  reported ledger h s b = status_is (fst (ledger (address v) hash)) s.
Proof.
  intros Hv Htx. unfold reported, answer_of. rewrite Hv, Htx. reflexivity.
Qed.

(** C7. In one poll of the monitor every queued entry is classified by the
    status the ledger returns for its transaction: "block" puts it into the
    bucket of the current timestamp and takes it from the queue; "pool"
    keeps it in the queue and out of the bucket; any other result, the empty
    one included, leaves it in neither. An entry without transaction is not
    asked about and is left in neither as well. *)
Theorem poll_classifies cfg ledger now h m :
  Forall (queryable cfg h) (toPackedBalanceList m) ->
  exists m',
    monitor_checkPack cfg ledger now h m = Ret m' /\
    forall b v,
      b ∈ toPackedBalanceList m -> h !! b = Some v ->
      let bucket := default [] (toConfirmBalanceList m' !! now) in
      match tx v with
      | Some hash =>
          let result := fst (ledger (address v) hash) in
          (status_is result "block" = true ->
             b ∈ bucket /\ (b ∉ toPackedBalanceList m')) /\
          (status_is result "pool" = true ->
             b ∈ toPackedBalanceList m' /\ (b ∉ bucket)) /\
          (status_is result "block" = false ->
           status_is result "pool" = false ->
             (b ∉ bucket) /\ (b ∉ toPackedBalanceList m')) /\
          (result = ∅ -> (b ∉ bucket) /\ (b ∉ toPackedBalanceList m'))
      | None => (b ∉ bucket) /\ (b ∉ toPackedBalanceList m')
      end.
Proof.
  intros Hq. eexists. split; [apply monitor_checkPack_spec; exact Hq|].
  intros b v Hin Hv bucket.
  subst bucket. simpl. rewrite lookup_insert_eq. simpl.
  destruct (tx v) as [hash|] eqn:Htx; rewrite !list_elem_of_filter.
  - rewrite !(reported_eq ledger h _ b v hash Hv Htx).
    set (result := fst (ledger (address v) hash)).
    split; [|split; [|split]].
    + intros Hb. rewrite Hb, (status_is_exclusive _ Hb). split; [auto|].
      intros [? _]. discriminate.
    + intros Hp. rewrite Hp. split; [auto|].
      intros [Hb _]. rewrite (status_is_exclusive _ Hb) in Hp. discriminate.
    + intros Hb Hp. rewrite Hb, Hp. split; intros [? _]; discriminate.
    + intros He. rewrite He, !status_is_empty. split; intros [? _]; discriminate.
  - unfold reported, answer_of. rewrite Hv, Htx.
    split; intros [? _]; discriminate.
Qed.

Lemma heap_mixed_queryable :
  Forall (queryable (cfg_of 1 3) heap_mixed) (toPackedBalanceList monitor_mixed).
Proof.
  unfold monitor_mixed, heap_mixed. simpl.
  repeat (constructor;
          [eexists; split; [reflexivity|]; intros ? _; simpl;
           apply elem_of_singleton; reflexivity|]).
  constructor.
Defined.

Lemma poll_classifies_witness :
  exists m',
    monitor_checkPack (cfg_of 1 3) ledger_mixed (30 * Second) heap_mixed
                      monitor_mixed = Ret m' /\
    forall b v,
      b ∈ toPackedBalanceList monitor_mixed -> heap_mixed !! b = Some v ->
      let bucket := default [] (toConfirmBalanceList m' !! (30 * Second)) in
      match tx v with
      | Some hash =>
          let result := fst (ledger_mixed (address v) hash) in
          (status_is result "block" = true ->
             b ∈ bucket /\ (b ∉ toPackedBalanceList m')) /\
          (status_is result "pool" = true ->
             b ∈ toPackedBalanceList m' /\ (b ∉ bucket)) /\
          (status_is result "block" = false ->
           status_is result "pool" = false ->
             (b ∉ bucket) /\ (b ∉ toPackedBalanceList m')) /\
          (result = ∅ -> (b ∉ bucket) /\ (b ∉ toPackedBalanceList m'))
      | None => (b ∉ bucket) /\ (b ∉ toPackedBalanceList m')
      end.
Proof.
  apply (poll_classifies (cfg_of 1 3) ledger_mixed (30 * Second) heap_mixed
                         monitor_mixed).
  exact heap_mixed_queryable.
Defined.

(** The poll on the mixed store: entry 0 goes to the bucket, entries 1 and
    4 stay queued, entries 2, 3 and 5 are gone. *)
Example poll_mixed :
  monitor_checkPack (cfg_of 1 3) ledger_mixed (30 * Second) heap_mixed
                    monitor_mixed
  = Ret (mkMonitor [] [1; 4]%nat {[ (30 * Second) := [0%nat] ]}).
Proof.
  rewrite monitor_checkPack_spec by exact heap_mixed_queryable.
  reflexivity.
Qed.

(** C5, as amended. When the status query for a queued entry returns an
    error, the error is only printed: the poll is the one of the ledger
    with the errors removed, and the entry is classified from the result
    that came with the error. It stays in the queue exactly when that result
    has status "pool", goes to the bucket of the current timestamp exactly
    when it has status "block", and with an empty result it is in
    neither. *)
Theorem query_error_only_printed cfg ledger now h m :
  Forall (queryable cfg h) (toPackedBalanceList m) ->
  exists m',
    monitor_checkPack cfg ledger now h m = Ret m' /\
    monitor_checkPack cfg (without_errors ledger) now h m = Ret m' /\
    forall b v hash err,
      b ∈ toPackedBalanceList m -> h !! b = Some v -> tx v = Some hash ->
      snd (ledger (address v) hash) = Some err ->
      let result := fst (ledger (address v) hash) in
      let bucket := default [] (toConfirmBalanceList m' !! now) in
      (b ∈ toPackedBalanceList m' <-> status_is result "pool" = true) /\
      (b ∈ bucket <-> status_is result "block" = true) /\
      (result = ∅ -> (b ∉ toPackedBalanceList m') /\ (b ∉ bucket)).
Proof.
  intros Hq. eexists. split; [apply monitor_checkPack_spec; exact Hq|].
  split.
  { assert (Hf : forall s (l : list nat),
              filter (fun b => reported (without_errors ledger) h s b = true) l
              = filter (fun b => reported ledger h s b = true) l).
    { intros s l. apply list_filter_iff. intros b.
      rewrite reported_without_errors. tauto. }
    rewrite monitor_checkPack_spec by exact Hq. rewrite !Hf. reflexivity. }
  intros b v hash err Hin Hv Htx _ result bucket.
  subst bucket. simpl. rewrite lookup_insert_eq. simpl.
  rewrite !list_elem_of_filter.
  rewrite !(reported_eq ledger h _ b v hash Hv Htx). fold result.
  split; [tauto|]. split; [tauto|].
  intros He. rewrite He, !status_is_empty. split; intros [? _]; discriminate.
Qed.

Lemma query_error_only_printed_witness :
  exists m',
    monitor_checkPack (cfg_of 1 3) ledger_mixed (30 * Second) heap_mixed
                      monitor_mixed = Ret m' /\
    monitor_checkPack (cfg_of 1 3) (without_errors ledger_mixed) (30 * Second)
                      heap_mixed monitor_mixed = Ret m' /\
    forall b v hash err,
      b ∈ toPackedBalanceList monitor_mixed ->
      heap_mixed !! b = Some v -> tx v = Some hash ->
      snd (ledger_mixed (address v) hash) = Some err ->
      let result := fst (ledger_mixed (address v) hash) in
      let bucket := default [] (toConfirmBalanceList m' !! (30 * Second)) in
      (b ∈ toPackedBalanceList m' <-> status_is result "pool" = true) /\
      (b ∈ bucket <-> status_is result "block" = true) /\
      (result = ∅ -> (b ∉ toPackedBalanceList m') /\ (b ∉ bucket)).
Proof.
  apply (query_error_only_printed (cfg_of 1 3) ledger_mixed (30 * Second)
                                  heap_mixed monitor_mixed).
  exact heap_mixed_queryable.
Defined.

(** C5 as stated fails: the query for the one queued entry returns an error
    and no result, and after the poll the entry is neither in the queue nor
    in the bucket. *)
Lemma query_error_drops_entry :
  snd (ledger_down (mkAddress 20 1) 503) = Some "connection refused"%string /\
  monitor_checkPack (cfg_of 1 3) ledger_down (30 * Second)
                    [waiting 20 10 503] (mkMonitor [] [0%nat] ∅)
  = Ret (mkMonitor [] [] {[ (30 * Second) := [] ]}) /\
  ~ (forall m',
       monitor_checkPack (cfg_of 1 3) ledger_down (30 * Second)
                         [waiting 20 10 503] (mkMonitor [] [0%nat] ∅) = Ret m' ->
       0%nat ∈ toPackedBalanceList m').
Proof.
  assert (Hrun : monitor_checkPack (cfg_of 1 3) ledger_down (30 * Second)
                   [waiting 20 10 503] (mkMonitor [] [0%nat] ∅)
                 = Ret (mkMonitor [] [] {[ (30 * Second) := [] ]})).
  { assert (Hq : Forall (queryable (cfg_of 1 3) [waiting 20 10 503]) [0%nat]).
    { constructor; [|constructor]. eexists. split; [reflexivity|].
      intros ? _. simpl. apply elem_of_singleton. reflexivity. }
    rewrite monitor_checkPack_spec by exact Hq. reflexivity. }
  split; [reflexivity|]. split; [exact Hrun|].
  intros H. specialize (H _ Hrun). simpl in H. inversion H.
Qed.

(** ** The worker's pool in mode 1 *)

(** A mode-1 send from a funded entry: funds stay funds, everywhere. *)
Lemma send_keeps_funds cfg e h b q h1 :
  mode cfg = 1 ->
  amounts_in_int h ->
  send cfg e h b = Ret (q, h1) ->
  amounts_in_int h1 /\
  (forall p, has_funds h p -> has_funds h1 p) /\
  (exists src amt, h !! b = Some src /\ 0 <= amt < amount src /\
                   send_amount 1 (rand_amount e) src = Ret amt).
Proof.
  intros Hmode Hint Hsend.
  destruct (send_inv _ _ _ _ _ Hsend) as (src & amt & Hb & Ha & Hr).
  rewrite Hmode in Ha.
  assert (Hamt : 0 <= amt < amount src).
  { unfold send_amount in Ha. simpl in Ha. unfold Intn in Ha.
    destruct (Z.leb_spec (amount src) 0) as [|Hpos]; [discriminate|].
    injection Ha as <-. apply Z.mod_pos_bound. exact Hpos. }
  assert (Hsrc : in_int (amount src)).
  { unfold amounts_in_int in Hint. rewrite Forall_lookup in Hint.
    exact (Hint b src Hb). }
  pose proof (lookup_lt_Some _ _ _ Hb) as Hltb.
  assert (Hdebit : amount (debit src amt) = amount src - amt).
  { simpl. apply wrap_int_id. range_lia. }
  assert (Hnb : forall txo, in_int (amount (newBalance_of src e amt txo))).
  { intros txo. destruct (newBalance_of_fields src e amt txo) as (-> & _).
    range_lia. }
  split; [|split].
  - unfold amounts_in_int.
    destruct (accepted e); unfold alloc in Hr; injection Hr as _ ->;
      apply Forall_app; (split; [|constructor; [apply Hnb|constructor]]).
    + apply Forall_insert; [exact Hint|]. rewrite Hdebit.
      range_lia.
    + exact Hint.
  - intros p Hp. unfold has_funds in *.
    destruct (h !! p) as [v|] eqn:Hv; [|contradiction].
    pose proof (lookup_lt_Some _ _ _ Hv) as Hlt.
    destruct (accepted e); unfold alloc in Hr; injection Hr as _ ->.
    + rewrite lookup_app_l by (rewrite length_insert; exact Hlt).
      destruct (decide (p = b)) as [->|Hne].
      * rewrite list_lookup_insert_eq by exact Hlt. rewrite Hdebit. lia.
      * rewrite list_lookup_insert_ne by auto. rewrite Hv. exact Hp.
    + rewrite lookup_app_l by exact Hlt. rewrite Hv. exact Hp.
  - exists src, amt. auto.
Qed.

(** A mode-1 send from a funded entry returns. *)
Lemma send_funded_returns cfg e h b :
  size (clientList cfg) <> 0%nat ->
  has_funds h b ->
  exists q h1, send cfg e h b = Ret (q, h1).
Proof.
  intros Hcl Hb. unfold has_funds in Hb.
  destruct (h !! b) as [src|] eqn:Hsrc; [|contradiction].
  destruct (send_amount_returns (mode cfg) (rand_amount e) src (fun _ => Hb))
    as (amt & Ha).
  rewrite (send_returns cfg e h b src amt Hsrc Ha Hcl).
  destruct (accepted e); unfold alloc; eauto.
Qed.

Lemma loop_range_funded cfg E copyBalances : forall i s,
  mode cfg = 1 ->
  size (clientList cfg) <> 0%nat ->
  amounts_in_int (w_heap s) ->
  Forall (has_funds (w_heap s)) copyBalances ->
  exists s',
    loop_range cfg E i copyBalances s = Ret s' /\
    w_balanceList s' = w_balanceList s /\
    amounts_in_int (w_heap s') /\
    (forall p, has_funds (w_heap s) p -> has_funds (w_heap s') p).
Proof.
  induction copyBalances as [|b rest IH]; intros i s Hmode Hcl Hint Hall.
  - exists s. simpl. auto.
  - apply Forall_cons in Hall as (Hb & Hrest).
    destruct (send_funded_returns cfg (it_send (E i)) (w_heap s) b Hcl Hb)
      as (q & h1 & Hsend).
    destruct (send_keeps_funds cfg _ _ _ _ _ Hmode Hint Hsend)
      as (Hint1 & Hkeep & _).
    simpl loop_range. unfold loop_body. rewrite Hsend. simpl bind.
    match goal with
    | |- exists s', loop_range _ _ _ _ ?s1 = _ /\ _ =>
        destruct (IH (S i) s1 Hmode Hcl) as (s' & Hrun & Hlist & Hint' & Hkeep')
    end.
    + exact Hint1.
    + simpl. eapply Forall_impl; [exact Hrest|]. exact Hkeep.
    + exists s'. split; [exact Hrun|]. split; [exact Hlist|].
      split; [exact Hint'|]. intros p Hp. apply Hkeep'. simpl. apply Hkeep.
      exact Hp.
Qed.

Lemma filter_all {A} (P : A -> Prop) `{forall x, Decision (P x)} (l : list A) :
  Forall P l -> filter P l = l.
Proof.
  induction 1 as [|x l Hx Hl IH]; [reflexivity|].
  rewrite filter_cons_True by exact Hx. rewrite IH. reflexivity.
Qed.

Lemma pass_funded cfg E s :
  mode cfg = 1 ->
  size (clientList cfg) <> 0%nat ->
  amounts_in_int (w_heap s) ->
  Forall (has_funds (w_heap s)) (w_balanceList s) ->
  exists s',
    pass cfg E s = Ret s' /\
    w_balanceList s' = w_balanceList s /\
    amounts_in_int (w_heap s') /\
    Forall (has_funds (w_heap s')) (w_balanceList s').
Proof.
  intros Hmode Hcl Hint Hall.
  destruct (loop_range_funded cfg E (w_balanceList s) 0 s Hmode Hcl Hint Hall)
    as (s1 & Hrun & Hlist & Hint1 & Hkeep).
  assert (Hall1 : Forall (has_funds (w_heap s1)) (w_balanceList s1)).
  { rewrite Hlist. eapply Forall_impl; [exact Hall|]. exact Hkeep. }
  unfold pass. rewrite Hrun. simpl bind.
  rewrite (filter_all _ _ Hall1).
  eexists. split; [reflexivity|]. simpl. auto.
Qed.

Lemma passes_funded cfg E n : forall j s,
  mode cfg = 1 ->
  size (clientList cfg) <> 0%nat ->
  amounts_in_int (w_heap s) ->
  Forall (has_funds (w_heap s)) (w_balanceList s) ->
  exists s',
    passes cfg E j n s = Ret s' /\
    w_balanceList s' = w_balanceList s /\
    amounts_in_int (w_heap s') /\
    Forall (has_funds (w_heap s')) (w_balanceList s').
Proof.
  induction n as [|n IH]; intros j s Hmode Hcl Hint Hall.
  - exists s. simpl. auto.
  - destruct (pass_funded cfg (E j) s Hmode Hcl Hint Hall)
      as (s1 & Hrun & Hlist & Hint1 & Hall1).
    destruct (IH (S j) s1 Hmode Hcl Hint1 Hall1)
      as (s' & Hrun' & Hlist' & Hint' & Hall').
    exists s'. simpl. rewrite Hrun. simpl. split; [exact Hrun'|].
    split; [congruence|]. auto.
Qed.

(** The pool [initAccount] returns holds funded entries only. *)
Lemma initAccount_result_funded h balanceList :
  Forall (has_funds h) (initAccount_result h balanceList).
Proof.
  unfold initAccount_result. apply Forall_forall. intros b Hb.
  apply list_elem_of_omap in Hb as (ob & _ & Hob).
  destruct ob as [b'|]; [|discriminate].
  destruct (decide (has_funds h b')) as [Hf|]; [|discriminate].
  injection Hob as <-. exact Hf.
Qed.

(** Each part of [newBalancesList] is cut out of the list. *)
Lemma newBalancesList_copy_parts (P : nat -> Prop) balanceList splitNum parts i part :
  newBalancesList_copy balanceList splitNum = Ret parts ->
  parts !! i = Some part ->
  Forall P balanceList -> Forall P part.
Proof.
  unfold newBalancesList_copy. destruct (splitNum <=? 0); [discriminate|].
  intros Hparts Hi Hall. injection Hparts as <-.
  rewrite list_lookup_fmap in Hi.
  destruct (seq 0 (Z.to_nat splitNum) !! i) as [j|]; [|discriminate].
  simpl in Hi. injection Hi as <-.
  apply Forall_take, Forall_drop. exact Hall.
Qed.

(** C10. In mode 1 a worker starts from a part of the pool [initAccount]
    returns and makes any number of passes: no call panics, the pool is
    never shortened, and every entry of the pool holds at least 1. In the
    state reached, a send from any entry of the pool finds a positive
    amount, draws less than it, returns, and leaves the entry with at least
    1. *)
Theorem mode1_pool_stays_funded cfg h balanceList threads parts i pool ch now E n :
  mode cfg = 1 ->
  size (clientList cfg) <> 0%nat ->
  amounts_in_int h ->
  newBalancesList_copy (initAccount_result h balanceList) threads = Ret parts ->
  parts !! i = Some pool ->
  exists s,
    loopSendMode1_2 cfg E n h ch now pool = Ret s /\
    w_balanceList s = pool /\
    Forall (fun b => exists v, w_heap s !! b = Some v /\ 1 <= amount v) pool /\
    forall e b, b ∈ pool ->
      exists src amt q h1 src',
        w_heap s !! b = Some src /\ 0 < amount src /\
        send_amount 1 (rand_amount e) src = Ret amt /\ 0 <= amt < amount src /\
        send cfg e (w_heap s) b = Ret (q, h1) /\
        h1 !! b = Some src' /\ 1 <= amount src'.
Proof.
  intros Hmode Hcl Hint Hparts Hi.
  assert (Hpool : Forall (has_funds h) pool).
  { eapply newBalancesList_copy_parts; [exact Hparts|exact Hi|].
    apply initAccount_result_funded. }
  destruct (passes_funded cfg E n 0 (worker_init h ch now pool) Hmode Hcl Hint Hpool)
    as (s & Hrun & Hlist & Hint' & Hall).
  simpl in Hlist. rewrite Hlist in Hall.
  exists s. split; [exact Hrun|]. split; [exact Hlist|]. split.
  - eapply Forall_impl; [exact Hall|]. intros b Hb. unfold has_funds in Hb.
    destruct (w_heap s !! b) as [v|]; [|contradiction].
    exists v. split; [reflexivity|lia].
  - intros e b Hb. rewrite Forall_forall in Hall. specialize (Hall b Hb).
    destruct (send_funded_returns cfg e (w_heap s) b Hcl Hall) as (q & h1 & Hsend).
    destruct (send_keeps_funds cfg e _ _ _ _ Hmode Hint' Hsend)
      as (_ & Hkeep & src & amt & Hsrc & Hamt & Ha).
    specialize (Hkeep b Hall). unfold has_funds in Hkeep.
    destruct (h1 !! b) as [src'|] eqn:Hsrc'; [|contradiction].
    exists src, amt, q, h1, src'.
    repeat split; try lia; try assumption.
Qed.

Lemma mode1_pool_stays_funded_witness :
  exists s,
    loopSendMode1_2 (cfg_of 1 3) (fun _ => env_always 40 500) 2
                    [account 7 100 0; account 8 1 3; account 9 0 0] [] 0
                    [0; 1]%nat = Ret s /\
    w_balanceList s = [0; 1]%nat /\
    Forall (fun b => exists v, w_heap s !! b = Some v /\ 1 <= amount v)
           [0; 1]%nat /\
    forall e b, b ∈ [0; 1]%nat ->
      exists src amt q h1 src',
        w_heap s !! b = Some src /\ 0 < amount src /\
        send_amount 1 (rand_amount e) src = Ret amt /\ 0 <= amt < amount src /\
        send (cfg_of 1 3) e (w_heap s) b = Ret (q, h1) /\
        h1 !! b = Some src' /\ 1 <= amount src'.
Proof.
  apply (mode1_pool_stays_funded (cfg_of 1 3)
           [account 7 100 0; account 8 1 3; account 9 0 0]
           [Some 0; None; Some 1; Some 2]%nat 1 [[0; 1]%nat] 0 [0; 1]%nat
           [] 0 (fun _ => env_always 40 500) 2).
  - reflexivity.
  - vm_compute. lia.
  - repeat constructor; unfold in_int, int_min, int_max; simpl; lia.
  - vm_compute. reflexivity.
  - reflexivity.
Defined.

(** ** The monitor's release and the worker's pool *)

Lemma loop_range_balanceList cfg E copyBalances : forall i s s',
  loop_range cfg E i copyBalances s = Ret s' ->
  w_balanceList s' = w_balanceList s.
Proof.
  induction copyBalances as [|b rest IH]; intros i s s' Hrun.
  - simpl in Hrun. congruence.
  - simpl in Hrun. unfold loop_body in Hrun.
    destruct (send cfg (it_send (E i)) (w_heap s) b) as [r|]; [|discriminate].
    simpl in Hrun. apply IH in Hrun. exact Hrun.
Qed.

(** A pass only ever drops entries from the worker's [balanceList]. *)
Lemma pass_balanceList cfg E s s' b :
  pass cfg E s = Ret s' ->
  b ∈ w_balanceList s' -> b ∈ w_balanceList s.
Proof.
  unfold pass. intros Hrun Hb.
  destruct (loop_range cfg E 0 (w_balanceList s) s) as [s1|] eqn:Hloop;
    [|discriminate].
  simpl in Hrun. injection Hrun as <-. simpl in Hb.
  apply list_elem_of_filter in Hb as (_ & Hb).
  rewrite (loop_range_balanceList _ _ _ _ _ _ Hloop) in Hb. exact Hb.
Qed.

(** No step of the thread, the monitor's sweep included, adds an entry to
    the [balanceList] the worker iterates. *)
Lemma sys_step_worker_pool cfg s ev s' b :
  sys_step cfg s ev = Ret s' ->
  b ∈ w_balanceList (sys_worker s') -> b ∈ w_balanceList (sys_worker s).
Proof.
  destruct ev as [E| |ledger now|nowf]; simpl; intros Hstep Hb.
  - destruct (pass cfg E (sys_worker s)) as [w|] eqn:Hpass; [|discriminate].
    simpl in Hstep. injection Hstep as <-. simpl in Hb.
    eapply pass_balanceList; eassumption.
  - destruct (w_txCh (sys_worker s)); injection Hstep as <-; exact Hb.
  - destruct (monitor_checkPack cfg ledger now (w_heap (sys_worker s))
                                (sys_monitor s)); [|discriminate].
    simpl in Hstep. injection Hstep as <-. exact Hb.
  - injection Hstep as <-. exact Hb.
Qed.

Lemma sys_run_worker_pool cfg evs : forall s s' b,
  sys_run cfg evs s = Ret s' ->
  b ∈ w_balanceList (sys_worker s') -> b ∈ w_balanceList (sys_worker s).
Proof.
  induction evs as [|ev rest IH]; intros s s' b Hrun Hb.
  - simpl in Hrun. injection Hrun as <-. exact Hb.
  - simpl in Hrun. destruct (sys_step cfg s ev) as [s1|] eqn:Hstep;
      [|discriminate].
    simpl in Hrun. eapply sys_step_worker_pool; [exact Hstep|].
    eapply IH; eassumption.
Qed.

(** The sweep over a list of buckets: the expired ones are appended, in the
    order visited, and removed. *)
Lemma confirm_fold nowf kvs : forall m,
  let m' := foldl (confirm_bucket nowf) m kvs in
  m_balanceList m' =
    m_balanceList m ++ concat (snd <$> filter (fun kv => expired nowf (fst kv)) kvs) /\
  toPackedBalanceList m' = toPackedBalanceList m /\
  forall k, toConfirmBalanceList m' !! k =
            if decide (k ∈ fst <$> kvs /\ expired nowf k) then None
            else toConfirmBalanceList m !! k.
Proof.
  induction kvs as [|[key value] kvs IH]; intros m; cbv zeta.
  - cbn [foldl]. rewrite filter_nil, fmap_nil. cbn [concat].
    rewrite app_nil_r. split; [reflexivity|]. split; [reflexivity|].
    intros k. destruct (decide (k ∈ [] /\ expired nowf k)) as [[Hin _]|_];
      [inversion Hin|reflexivity].
  - cbn [foldl]. rewrite fmap_cons. cbn [fst]. specialize (IH (confirm_bucket nowf m (key, value))).
    cbv zeta in IH. destruct IH as (Hbl & Htp & Htc).
    rewrite Hbl, Htp. clear Hbl Htp.
    assert (Hstep : confirm_bucket nowf m (key, value) =
                    if decide (expired nowf key)
                    then mkMonitor (m_balanceList m ++ value)
                                   (toPackedBalanceList m)
                                   (delete key (toConfirmBalanceList m))
                    else m).
    { unfold confirm_bucket, expired. simpl.
      destruct (Z.ltb_spec confirmTime (Sub (nowf key) key)) as [Hexp|Hyoung].
      - rewrite decide_True by exact Hexp. reflexivity.
      - rewrite decide_False by lia. reflexivity. }
    destruct (decide (expired nowf key)) as [Hexp|Hyoung].
    + rewrite filter_cons_True by exact Hexp.
      split; [rewrite Hstep; simpl; rewrite <- app_assoc; reflexivity|].
      split; [rewrite Hstep; reflexivity|].
      intros k. rewrite Htc, Hstep. simpl.
      destruct (decide (k = key)) as [->|Hne].
      * rewrite lookup_delete_eq.
        rewrite (decide_True (P := key ∈ key :: (fst <$> kvs) /\ _))
          by (split; [left|exact Hexp]).
        destruct (decide _); reflexivity.
      * rewrite lookup_delete_ne by auto.
        destruct (decide (k ∈ fst <$> kvs /\ expired nowf k)) as [[Hin He]|Hn].
        -- rewrite decide_True by (split; [right; exact Hin|exact He]).
           reflexivity.
        -- rewrite decide_False; [reflexivity|].
           intros [Hin He]. apply Hn. split; [|exact He].
           apply elem_of_cons in Hin as [?|?]; [contradiction|assumption].
    + rewrite filter_cons_False by exact Hyoung.
      split; [rewrite Hstep; reflexivity|].
      split; [rewrite Hstep; reflexivity|].
      intros k. rewrite Htc, Hstep.
      destruct (decide (k ∈ fst <$> kvs /\ expired nowf k)) as [[Hin He]|Hn].
      * rewrite decide_True by (split; [right; exact Hin|exact He]).
        reflexivity.
      * rewrite decide_False; [reflexivity|].
        intros [Hin He]. apply elem_of_cons in Hin as [->|Hin].
        -- contradiction.
        -- apply Hn. split; assumption.
Qed.

(** The sweep of the monitor: every expired bucket is removed and its
    entries are appended, once, to the monitor's own [balanceList]; the
    other buckets and the queue stay. *)
Lemma monitor_confirm_spec nowf m :
  let m' := monitor_confirm nowf m in
  m_balanceList m' =
    m_balanceList m ++
    concat (snd <$> filter (fun kv => expired nowf (fst kv))
                           (map_to_list (toConfirmBalanceList m))) /\
  toPackedBalanceList m' = toPackedBalanceList m /\
  forall k, toConfirmBalanceList m' !! k =
            if decide (expired nowf k) then None
            else toConfirmBalanceList m !! k.
Proof.
  unfold monitor_confirm.
  destruct (confirm_fold nowf (map_to_list (toConfirmBalanceList m)) m)
    as (Hbl & Htp & Htc).
  cbv zeta. split; [exact Hbl|]. split; [exact Htp|].
  intros k. rewrite Htc.
  destruct (decide (expired nowf k)) as [He|Hne].
  - destruct (toConfirmBalanceList m !! k) as [v|] eqn:Hk.
    + rewrite decide_True; [reflexivity|]. split; [|exact He].
      apply list_elem_of_fmap. exists (k, v). split; [reflexivity|].
      apply elem_of_map_to_list. exact Hk.
    + destruct (decide _); reflexivity.
  - rewrite decide_False; [reflexivity|]. intros [_ ?]. contradiction.
Qed.

(** C1 fails on the code. In scenario B the beneficiary (entry 1, holding
    the 40 drawn from the account) is classified as included at 30 s and
    swept at 180 s: its bucket is removed and it is appended once, to the
    monitor's own [balanceList]. The [balanceList] of the worker still holds
    the account alone, and the next pass sends from the account only: entry
    1 keeps its 40 and its nonce 0. *)
Theorem released_entry_misses_worker_pool :
  exists s,
    sys_run (cfg_of 1 3) scenario_B (StartSend [account 7 100 0] 0 [0%nat])
      = Ret s /\
    m_balanceList (sys_monitor s) = [0; 1]%nat /\
    toConfirmBalanceList (sys_monitor s) = ∅ /\
    toPackedBalanceList (sys_monitor s) = [] /\
    w_balanceList (sys_worker s) = [0%nat] /\
    (1%nat ∉ w_balanceList (sys_worker s)) /\
    w_heap (sys_worker s) !! 0%nat = Some (account 7 35 2) /\
    w_heap (sys_worker s) !! 1%nat = Some (waiting 8 40 500).
Proof.
  eexists. split; [vm_compute; reflexivity|].
  repeat split; try reflexivity.
  intros Hin. apply list_elem_of_singleton in Hin. discriminate.
Qed.

(** ** Further properties of [send] and of a pass *)

(** X1. A call of [send] that returns has allocated exactly one record, the
    beneficiary, at a pointer that was not in use; it has changed no entry
    but the source, and of the source neither address, key, shard, [tx] nor
    [packed]. The beneficiary starts with nonce 0, and carries a
    transaction hash exactly when the submission was accepted. *)
Theorem send_touches_only_source cfg e h b q h1 :
  send cfg e h b = Ret (q, h1) ->
  q = length h /\
  length h1 = S (length h) /\
  (forall p, p <> b -> (p < length h)%nat -> h1 !! p = h !! p) /\
  (exists src src',
     h !! b = Some src /\ h1 !! b = Some src' /\
     address src' = address src /\ privateKey src' = privateKey src /\
     shard src' = shard src /\ tx src' = tx src /\ packed src' = packed src) /\
  (exists nb,
     h1 !! q = Some nb /\ nonce nb = 0 /\ packed nb = false /\
     (tx nb = None <-> accepted e = false)).
Proof.
  intros Hsend.
  destruct (send_inv _ _ _ _ _ Hsend) as (src & amt & Hb & _ & Hr).
  pose proof (lookup_lt_Some _ _ _ Hb) as Hltb.
  destruct (accepted e) eqn:Hacc; unfold alloc in Hr; injection Hr as -> ->.
  - rewrite length_insert. split; [reflexivity|].
    split; [rewrite length_app, length_insert; simpl; lia|].
    split.
    { intros p Hne Hlt.
      rewrite lookup_app_l by (rewrite length_insert; exact Hlt).
      apply list_lookup_insert_ne. auto. }
    split.
    { exists src, (debit src amt). split; [exact Hb|]. split.
      - rewrite lookup_app_l by (rewrite length_insert; exact Hltb).
        apply list_lookup_insert_eq. exact Hltb.
      - simpl. auto. }
    exists (newBalance_of src e amt (gen_tx e)). split.
    { rewrite lookup_app_r by (rewrite length_insert; lia).
      rewrite length_insert, Nat.sub_diag. reflexivity. }
    unfold accepted in Hacc. destruct (gen_tx e) as [hash|]; [|discriminate].
    simpl. repeat split; discriminate.
  - split; [reflexivity|].
    split; [rewrite length_app; simpl; lia|].
    split.
    { intros p Hne Hlt. apply lookup_app_l. exact Hlt. }
    split.
    { exists src, src. split; [exact Hb|]. split.
      - rewrite lookup_app_l by exact Hltb. exact Hb.
      - auto. }
    exists (newBalance_of src e amt None). split.
    { rewrite lookup_app_r by lia. rewrite Nat.sub_diag. reflexivity. }
    simpl. repeat split; auto.
Qed.

Lemma send_touches_only_source_witness :
  3%nat = length heap_mixed_accounts /\
  length (snd (alloc (<[1%nat := debit (account 8 9 4) 6]> heap_mixed_accounts)
                     (newBalance_of (account 8 9 4) (env_ok 6 30 700) 6 (Some 700))))
    = S (length heap_mixed_accounts) /\
  (forall p, p <> 1%nat -> (p < length heap_mixed_accounts)%nat ->
     snd (alloc (<[1%nat := debit (account 8 9 4) 6]> heap_mixed_accounts)
                (newBalance_of (account 8 9 4) (env_ok 6 30 700) 6 (Some 700))) !! p
     = heap_mixed_accounts !! p) /\
  (exists src src',
     heap_mixed_accounts !! 1%nat = Some src /\
     snd (alloc (<[1%nat := debit (account 8 9 4) 6]> heap_mixed_accounts)
                (newBalance_of (account 8 9 4) (env_ok 6 30 700) 6 (Some 700)))
       !! 1%nat = Some src' /\
     address src' = address src /\ privateKey src' = privateKey src /\
     shard src' = shard src /\ tx src' = tx src /\ packed src' = packed src) /\
  (exists nb,
     snd (alloc (<[1%nat := debit (account 8 9 4) 6]> heap_mixed_accounts)
                (newBalance_of (account 8 9 4) (env_ok 6 30 700) 6 (Some 700)))
       !! 3%nat = Some nb /\
     nonce nb = 0 /\ packed nb = false /\
     (tx nb = None <-> accepted (env_ok 6 30 700) = false)).
Proof.
  apply (send_touches_only_source (cfg_of 1 3) (env_ok 6 30 700)
           heap_mixed_accounts 1%nat 3%nat).
  vm_compute. reflexivity.
Defined.

Lemma loop_range_heap_length cfg E copyBalances : forall i s s',
  loop_range cfg E i copyBalances s = Ret s' ->
  length (w_heap s') = (length (w_heap s) + length copyBalances)%nat.
Proof.
  induction copyBalances as [|b rest IH]; intros i s s' Hrun.
  - simpl in Hrun. injection Hrun as <-. simpl. lia.
  - simpl in Hrun. unfold loop_body in Hrun.
    destruct (send cfg (it_send (E i)) (w_heap s) b) as [[q h1]|] eqn:Hsend;
      [|discriminate].
    simpl in Hrun. apply IH in Hrun. simpl in Hrun. rewrite Hrun.
    destruct (send_inv _ _ _ _ _ Hsend) as (src & amt & _ & _ & Hr).
    destruct (accepted (it_send (E i))); unfold alloc in Hr;
      injection Hr as _ ->; rewrite length_app, ?length_insert; simpl; lia.
Qed.

(** The inner loop over distinct entries of the store, in every mode: it
    calls [send] once on each entry. The entry at place [j] is debited by
    the amount drawn for it when its submission is accepted and is as before
    otherwise; the [j]-th new record is its beneficiary; no other record of
    the store changes. *)
Lemma loop_range_sends cfg E copyBalances : forall i s s',
  loop_range cfg E i copyBalances s = Ret s' ->
  NoDup copyBalances ->
  Forall (fun b => is_Some (w_heap s !! b)) copyBalances ->
  (forall j b v, copyBalances !! j = Some b -> w_heap s !! b = Some v ->
     exists amt,
       send_amount (mode cfg) (rand_amount (it_send (E (i + j)%nat))) v = Ret amt /\
       w_heap s' !! b
         = Some (if accepted (it_send (E (i + j)%nat)) then debit v amt else v) /\
       w_heap s' !! (length (w_heap s) + j)%nat
         = Some (newBalance_of v (it_send (E (i + j)%nat)) amt
                   (if accepted (it_send (E (i + j)%nat))
                    then gen_tx (it_send (E (i + j)%nat)) else None))) /\
  (forall p v, p ∉ copyBalances -> w_heap s !! p = Some v ->
     w_heap s' !! p = Some v).
Proof.
  induction copyBalances as [|b rest IH]; intros i s s' Hrun Hnd Hall.
  - cbn in Hrun. injection Hrun as <-. split.
    + intros j b v Hj. discriminate.
    + intros p v _ Hp. exact Hp.
  - apply NoDup_cons in Hnd as (Hnotin & Hnd).
    apply Forall_cons in Hall as ([src Hb] & Hall).
    pose proof (lookup_lt_Some _ _ _ Hb) as Hltb.
    cbn [loop_range] in Hrun. unfold loop_body in Hrun.
    destruct (send cfg (it_send (E i)) (w_heap s) b) as [[q h1]|] eqn:Hsend;
      [|discriminate].
    cbn [bind fst snd] in Hrun.
    destruct (send_inv _ _ _ _ _ Hsend) as (src' & amt & Hb' & Hamt & Hr).
    assert (src' = src) as -> by congruence.
    set (e := it_send (E i)) in *.
    set (nb := newBalance_of src e amt (if accepted e then gen_tx e else None)).
    assert (Hh1 : h1 = (if accepted e then <[b := debit src amt]> (w_heap s)
                        else w_heap s) ++ [nb]).
    { subst nb. destruct (accepted e); unfold alloc in Hr; congruence. }
    assert (Hlen1 : length h1 = S (length (w_heap s))).
    { rewrite Hh1, length_app. cbn [length].
      destruct (accepted e); rewrite ?length_insert; lia. }
    assert (Hold : forall p v, p <> b -> w_heap s !! p = Some v ->
                               h1 !! p = Some v).
    { intros p v Hne Hp. pose proof (lookup_lt_Some _ _ _ Hp) as Hlt.
      rewrite Hh1. destruct (accepted e).
      - rewrite lookup_app_l by (rewrite length_insert; exact Hlt).
        rewrite list_lookup_insert_ne by auto. exact Hp.
      - rewrite lookup_app_l by exact Hlt. exact Hp. }
    assert (Hsrc1 : h1 !! b = Some (if accepted e then debit src amt else src)).
    { rewrite Hh1. destruct (accepted e).
      - rewrite lookup_app_l by (rewrite length_insert; exact Hltb).
        apply list_lookup_insert_eq. exact Hltb.
      - rewrite lookup_app_l by exact Hltb. exact Hb. }
    assert (Hnew1 : h1 !! length (w_heap s) = Some nb).
    { rewrite Hh1. destruct (accepted e).
      - rewrite lookup_app_r by (rewrite length_insert; lia).
        rewrite length_insert, Nat.sub_diag. reflexivity.
      - rewrite lookup_app_r by lia. rewrite Nat.sub_diag. reflexivity. }
    match type of Hrun with
    | loop_range _ _ _ _ ?s1 = _ =>
        destruct (IH (S i) s1 s' Hrun Hnd) as (Hper & Hframe)
    end.
    { cbn [w_heap]. eapply Forall_impl; [exact Hall|]. intros p Hp.
      apply lookup_lt_is_Some. apply lookup_lt_is_Some in Hp. lia. }
    cbn [w_heap] in Hper, Hframe.
    assert (Hrest_lt : forall p, p ∈ rest -> (p < length (w_heap s))%nat).
    { intros p Hp. rewrite Forall_forall in Hall.
      apply lookup_lt_is_Some. exact (Hall p Hp). }
    split.
    + intros j p v Hj Hp. destruct j as [|j].
      * cbn in Hj. injection Hj as <-. assert (v = src) as -> by congruence.
        rewrite !Nat.add_0_r. fold e. exists amt. split; [exact Hamt|]. split.
        -- apply Hframe; [exact Hnotin|exact Hsrc1].
        -- apply Hframe; [|exact Hnew1].
           intros Hin. apply Hrest_lt in Hin. lia.
      * cbn in Hj.
        assert (Hne : p <> b).
        { intros ->. apply Hnotin. eapply list_elem_of_lookup_2. exact Hj. }
        destruct (Hper j p v Hj (Hold p v Hne Hp)) as (amt' & Ha & Hs & Hn).
        replace (i + S j)%nat with (S i + j)%nat by lia.
        exists amt'. split; [exact Ha|]. split; [exact Hs|].
        replace (length (w_heap s) + S j)%nat with (length h1 + j)%nat by lia.
        exact Hn.
    + intros p v Hnin Hp. apply Hframe.
      * intros Hin. apply Hnin. right. exact Hin.
      * apply Hold; [|exact Hp]. intros ->. apply Hnin. left.
Qed.

(** X2. In every mode, a pass of the worker that returns leaves as the list
    exactly the entries of the old list that still hold funds (the list
    never grows and never keeps an entry whose amount is 0 or less), and the
    store has one new record per entry. When the entries of the list are
    distinct records of the store, the pass has called [send] once on each:
    the entry at place [j] is debited by the amount drawn for it, its nonce
    incremented, when its submission is accepted, and is as before
    otherwise; the [j]-th new record is its beneficiary; and no other record
    of the store changes. *)
Theorem pass_keeps_funded_entries cfg E s s' :
  pass cfg E s = Ret s' ->
  w_balanceList s' = filter (has_funds (w_heap s')) (w_balanceList s) /\
  Forall (has_funds (w_heap s')) (w_balanceList s') /\
  length (w_heap s') = (length (w_heap s) + length (w_balanceList s))%nat /\
  (NoDup (w_balanceList s) ->
   Forall (fun b => is_Some (w_heap s !! b)) (w_balanceList s) ->
   (forall j b v, w_balanceList s !! j = Some b -> w_heap s !! b = Some v ->
      exists amt,
        send_amount (mode cfg) (rand_amount (it_send (E j))) v = Ret amt /\
        w_heap s' !! b
          = Some (if accepted (it_send (E j)) then debit v amt else v) /\
        w_heap s' !! (length (w_heap s) + j)%nat
          = Some (newBalance_of v (it_send (E j)) amt
                    (if accepted (it_send (E j))
                     then gen_tx (it_send (E j)) else None))) /\
   (forall p v, p ∉ w_balanceList s -> w_heap s !! p = Some v ->
      w_heap s' !! p = Some v)).
Proof.
  unfold pass. intros Hrun.
  destruct (loop_range cfg E 0 (w_balanceList s) s) as [s1|] eqn:Hloop;
    [|discriminate].
  simpl in Hrun. injection Hrun as <-. simpl.
  rewrite (loop_range_balanceList _ _ _ _ _ _ Hloop).
  split; [reflexivity|]. split.
  { apply Forall_forall. intros b Hb.
    apply list_elem_of_filter in Hb as (Hb & _). exact Hb. }
  split; [eapply loop_range_heap_length; exact Hloop|].
  intros Hnd Hall.
  exact (loop_range_sends cfg E (w_balanceList s) 0 s s1 Hloop Hnd Hall).
Qed.

Lemma pass_keeps_funded_entries_witness :
  w_balanceList pass2_result
    = filter (has_funds (w_heap pass2_result)) (w_balanceList worker3) /\
  Forall (has_funds (w_heap pass2_result)) (w_balanceList pass2_result) /\
  length (w_heap pass2_result)
    = (length (w_heap worker3) + length (w_balanceList worker3))%nat /\
  (NoDup (w_balanceList worker3) ->
   Forall (fun b => is_Some (w_heap worker3 !! b)) (w_balanceList worker3) ->
   (forall j b v, w_balanceList worker3 !! j = Some b ->
                  w_heap worker3 !! b = Some v ->
      exists amt,
        send_amount (mode (cfg_of 2 3))
                    (rand_amount (it_send (env_always 0 600 j))) v = Ret amt /\
        w_heap pass2_result !! b
          = Some (if accepted (it_send (env_always 0 600 j))
                  then debit v amt else v) /\
        w_heap pass2_result !! (length (w_heap worker3) + j)%nat
          = Some (newBalance_of v (it_send (env_always 0 600 j)) amt
                    (if accepted (it_send (env_always 0 600 j))
                     then gen_tx (it_send (env_always 0 600 j)) else None))) /\
   (forall p v, p ∉ w_balanceList worker3 -> w_heap worker3 !! p = Some v ->
      w_heap pass2_result !! p = Some v)).
Proof.
  apply (pass_keeps_funded_entries (cfg_of 2 3) (env_always 0 600)
           worker3 pass2_result).
  vm_compute. reflexivity.
Defined.

(** The list of that worker holds distinct records of its store. *)
Example worker3_distinct :
  NoDup (w_balanceList worker3) /\
  Forall (fun b => is_Some (w_heap worker3 !! b)) (w_balanceList worker3).
Proof.
  split.
  - apply (bool_decide_unpack _). vm_compute. exact I.
  - repeat (constructor; [eexists; reflexivity|]). constructor.
Qed.

(** ** A pass in mode 2 *)

Lemma send_amount_plain md r src :
  md <> 1 -> md <> 3 -> send_amount md r src = Ret 1.
Proof.
  intros H1 H3. unfold send_amount.
  rewrite (proj2 (Z.eqb_neq _ _) H1), (proj2 (Z.eqb_neq _ _) H3). reflexivity.
Qed.

(** The inner loop in a mode other than 1 and 3, every submission accepted:
    each entry of the snapshot is debited once, nothing else changes, and
    nothing is handed to the monitor. *)
Lemma loop_range_plain cfg E copyBalances : forall i s,
  mode cfg <> 1 -> mode cfg <> 3 ->
  size (clientList cfg) <> 0%nat ->
  all_accepted E ->
  NoDup copyBalances ->
  Forall (fun b => is_Some (w_heap s !! b)) copyBalances ->
  exists s',
    loop_range cfg E i copyBalances s = Ret s' /\
    w_txCh s' = w_txCh s /\
    forall p v, w_heap s !! p = Some v ->
      w_heap s' !! p = Some (if decide (p ∈ copyBalances) then debit v 1 else v).
Proof.
  induction copyBalances as [|b rest IH]; intros i s H1 H3 Hcl Hacc Hnd Hall.
  - exists s. cbn [loop_range]. split; [reflexivity|]. split; [reflexivity|].
    intros p v Hp. destruct (decide (p ∈ [])) as [Hin|_]; [inversion Hin|].
    exact Hp.
  - apply NoDup_cons in Hnd as (Hnotin & Hnd).
    apply Forall_cons in Hall as ([src Hb] & Hall).
    pose proof (lookup_lt_Some _ _ _ Hb) as Hltb.
    pose proof (send_returns cfg (it_send (E i)) (w_heap s) b src 1 Hb
                  (send_amount_plain _ _ _ H1 H3) Hcl) as Hsend.
    rewrite (Hacc i) in Hsend. unfold alloc in Hsend.
    simpl loop_range. unfold loop_body. rewrite Hsend. simpl bind.
    rewrite (proj2 (Z.eqb_neq _ _) H1).
    match goal with
    | |- exists s', loop_range _ _ _ _ ?s1 = _ /\ _ =>
        destruct (IH (S i) s1 H1 H3 Hcl Hacc Hnd) as (s' & Hrun & Hch & Hheap)
    end.
    { simpl. eapply Forall_impl; [exact Hall|]. intros p [v Hp].
      pose proof (lookup_lt_Some _ _ _ Hp) as Hlt.
      apply lookup_lt_is_Some. rewrite length_app, length_insert. lia. }
    exists s'. split; [exact Hrun|]. split; [exact Hch|].
    intros p v Hp. pose proof (lookup_lt_Some _ _ _ Hp) as Hlt.
    simpl in Hheap.
    destruct (decide (p = b)) as [->|Hne].
    + assert (v = src) as -> by congruence.
      rewrite (Hheap b (debit src 1)).
      * rewrite decide_False by exact Hnotin.
        rewrite decide_True by (left). reflexivity.
      * rewrite lookup_app_l by (rewrite length_insert; exact Hltb).
        apply list_lookup_insert_eq. exact Hltb.
    + rewrite (Hheap p v).
      * destruct (decide (p ∈ rest)) as [Hin|Hnin].
        -- rewrite decide_True by (right; exact Hin). reflexivity.
        -- rewrite decide_False; [reflexivity|].
           intros Hin. apply elem_of_cons in Hin as [?|?]; contradiction.
      * rewrite lookup_app_l by (rewrite length_insert; exact Hlt).
        rewrite list_lookup_insert_ne by auto. exact Hp.
Qed.

(** X3. A pass in mode 2 (any mode but 1 and 3) over a list of distinct
    entries of the store, every submission accepted: the pass returns; every
    entry of the list has given exactly 1 and its nonce has been
    incremented, both in machine arithmetic: the amount is one lower unless
    it was the least [int], the nonce is one higher unless it was the
    greatest [uint64], after which it is 0; no other record changes and
    nothing is handed to the monitor; the list keeps, in order, the entries
    whose amount is positive afterwards, which for amounts above the least
    [int] are those that held more than 1. *)
Theorem mode2_pass_takes_one cfg E s :
  mode cfg <> 1 -> mode cfg <> 3 ->
  size (clientList cfg) <> 0%nat ->
  all_accepted E ->
  NoDup (w_balanceList s) ->
  Forall (fun b => is_Some (w_heap s !! b)) (w_balanceList s) ->
  exists s',
    pass cfg E s = Ret s' /\
    w_txCh s' = w_txCh s /\
    (forall b v, b ∈ w_balanceList s -> w_heap s !! b = Some v ->
       exists v', w_heap s' !! b = Some v' /\
                  v' = debit v 1 /\
                  (int_min < amount v <= int_max -> amount v' = amount v - 1) /\
                  (0 <= nonce v < uint64_max -> nonce v' = nonce v + 1) /\
                  (nonce v = uint64_max -> nonce v' = 0)) /\
    (forall p v, p ∉ w_balanceList s -> w_heap s !! p = Some v ->
       w_heap s' !! p = Some v) /\
    w_balanceList s' =
      filter (funded_after_one (w_heap s)) (w_balanceList s) /\
    (Forall (fun b => exists v, w_heap s !! b = Some v /\
                                int_min < amount v <= int_max)
            (w_balanceList s) ->
     w_balanceList s' =
       filter (holds_more_than_one (w_heap s)) (w_balanceList s)).
Proof.
  intros H1 H3 Hcl Hacc Hnd Hsome.
  destruct (loop_range_plain cfg E (w_balanceList s) 0 s H1 H3 Hcl Hacc Hnd Hsome)
    as (s1 & Hrun & Hch & Hheap).
  pose proof (loop_range_balanceList _ _ _ _ _ _ Hrun) as Hlist.
  unfold pass. rewrite Hrun. simpl bind. eexists. split; [reflexivity|].
  simpl. split; [exact Hch|].
  assert (Hdebit : forall b v, b ∈ w_balanceList s -> w_heap s !! b = Some v ->
            w_heap s1 !! b = Some (debit v 1)).
  { intros b v Hin Hv. rewrite (Hheap b v Hv), decide_True by exact Hin.
    reflexivity. }
  assert (Hkept : filter (has_funds (w_heap s1)) (w_balanceList s1) =
                  filter (funded_after_one (w_heap s)) (w_balanceList s)).
  { rewrite Hlist. apply filter_ext_in. intros b Hin.
    rewrite Forall_forall in Hsome. destruct (Hsome b Hin) as (v & Hv).
    unfold has_funds, funded_after_one. rewrite (Hdebit b v Hin Hv), Hv.
    reflexivity. }
  split.
  { intros b v Hin Hv. exists (debit v 1). split; [exact (Hdebit b v Hin Hv)|].
    split; [reflexivity|]. cbn [debit amount nonce]. split; [|split].
    - intros Ha. apply wrap_int_id. range_lia.
    - intros Hn. apply wrap_uint64_id. range_lia.
    - intros ->. vm_compute. reflexivity. }
  split.
  { intros p v Hnin Hv. rewrite (Hheap p v Hv), decide_False by exact Hnin.
    reflexivity. }
  split; [exact Hkept|].
  intros Hrange. rewrite Hkept. apply filter_ext_in. intros b Hin.
  rewrite Forall_forall in Hrange. destruct (Hrange b Hin) as (v & Hv & Ha).
  unfold funded_after_one, holds_more_than_one. rewrite Hv.
  rewrite (wrap_int_id (amount v - 1)) by range_lia. lia.
Qed.

Lemma mode2_pass_takes_one_witness :
  exists s',
    pass (cfg_of 2 3) (env_always 0 600) worker3 = Ret s' /\
    w_txCh s' = w_txCh worker3 /\
    (forall b v, b ∈ w_balanceList worker3 -> w_heap worker3 !! b = Some v ->
       exists v', w_heap s' !! b = Some v' /\
                  v' = debit v 1 /\
                  (int_min < amount v <= int_max -> amount v' = amount v - 1) /\
                  (0 <= nonce v < uint64_max -> nonce v' = nonce v + 1) /\
                  (nonce v = uint64_max -> nonce v' = 0)) /\
    (forall p v, p ∉ w_balanceList worker3 -> w_heap worker3 !! p = Some v ->
       w_heap s' !! p = Some v) /\
    w_balanceList s' =
      filter (funded_after_one (w_heap worker3)) (w_balanceList worker3) /\
    (Forall (fun b => exists v, w_heap worker3 !! b = Some v /\
                                int_min < amount v <= int_max)
            (w_balanceList worker3) ->
     w_balanceList s' =
       filter (holds_more_than_one (w_heap worker3)) (w_balanceList worker3)).
Proof.
  apply (mode2_pass_takes_one (cfg_of 2 3) (env_always 0 600) worker3).
  - simpl. lia.
  - simpl. lia.
  - vm_compute. lia.
  - intros i. reflexivity.
  - apply (bool_decide_unpack _). vm_compute. exact I.
  - repeat (constructor; [eexists; reflexivity|]). constructor.
Defined.

(** An accepted send of 1 from an entry whose nonce is the greatest
    [uint64]: the pass leaves the nonce at 0. *)
Example mode2_pass_wraps_nonce :
  pass (cfg_of 2 3) (env_always 0 600)
       (worker_init [account_last_nonce] [] 0 [0%nat])
  = Ret (mkWorker [account 7 4 0; waiting 8 1 600] [] 0 0 [0%nat] 1).
Proof. vm_compute. reflexivity. Qed.

(** ** The rate limiter without a positive ceiling *)

Lemma throttle_above k cnt start now lag :
  0 <= cnt -> k < cnt + 1 <= int_max ->
  throttle k cnt start now lag = mkTick (cnt + 1) start now None false.
Proof.
  intros Hc Hk. unfold throttle.
  rewrite (wrap_int_id (cnt + 1)) by range_lia.
  rewrite (proj2 (Z.eqb_neq _ _)) by lia. reflexivity.
Qed.

Lemma pace_unlimited_from k ds : forall s,
  k <= 0 -> 0 <= p_count s ->
  p_count s + Z.of_nat (length ds) <= int_max ->
  pace k ds s =
    mkPace (p_now s + elapsed_of ds) (p_start s)
           (p_count s + Z.of_nat (length ds))
           (p_sent s + Z.of_nat (length ds)) (p_log s).
Proof.
  induction ds as [|d ds IH]; intros s Hk Hc Hlen.
  - simpl. destruct s. simpl. f_equal; lia.
  - cbn [pace foldl]. fold (pace k ds (pace_step k s d)).
    assert (Hstep : pace_step k s d =
                    mkPace (p_now s + Z.of_N (fst d)) (p_start s)
                           (p_count s + 1) (p_sent s + 1) (p_log s)).
    { unfold pace_step. rewrite throttle_above; [reflexivity|exact Hc|].
      cbn [length] in Hlen. lia. }
    rewrite Hstep. rewrite IH; cbn [p_now p_start p_count p_sent p_log];
      [|exact Hk|lia|cbn [length] in Hlen; lia].
    cbn [elapsed_of foldr length]. fold (elapsed_of ds). f_equal; lia.
Qed.

(** X4. With a ceiling [tps] of 0 or less the limiter never engages: over
    any run of fewer than 2^63 sends the count only grows, no sleep is
    requested, no window is closed, the window start stays where the loop
    set it, and the clock advances by the time of the sends alone. *)
Theorem nonpositive_tps_never_throttles k now0 ds :
  k <= 0 ->
  Z.of_nat (length ds) <= int_max ->
  let s := pace k ds (pace_init now0) in
  p_log s = [] /\
  p_count s = Z.of_nat (length ds) /\
  p_start s = now0 /\
  p_now s = now0 + elapsed_of ds.
Proof.
  intros Hk Hlen s. subst s.
  rewrite pace_unlimited_from; simpl; try lia. auto.
Qed.

Lemma nonpositive_tps_never_throttles_witness :
  let s := pace 0 [(100 * ms, 0); (200 * ms, 5); (100 * ms, 7); (50 * ms, 0)]%N
                (pace_init 0) in
  p_log s = [] /\
  p_count s = Z.of_nat (length [(100 * ms, 0); (200 * ms, 5); (100 * ms, 7); (50 * ms, 0)]%N) /\
  p_start s = 0 /\
  p_now s = 0 + elapsed_of [(100 * ms, 0); (200 * ms, 5); (100 * ms, 7); (50 * ms, 0)]%N.
Proof.
  apply (nonpositive_tps_never_throttles 0 0
           [(100 * ms, 0); (200 * ms, 5); (100 * ms, 7); (50 * ms, 0)]%N).
  - lia.
  - unfold int_max. simpl. lia.
Defined.

(** ** Further properties of the monitor *)

Lemma expired_iff nowf key : expired nowf key <-> confirmTime < nowf key - key.
Proof.
  unfold expired, Sub, confirmTime, Minute, Second, int_min, int_max. lia.
Qed.

(** X5. One sweep of the monitor, over any set of buckets: the queue is left
    alone; the buckets older than two minutes when visited are removed, all
    others are kept as they are; the monitor's own list keeps what it held
    and gains exactly the entries of the removed buckets. *)
Theorem sweep_releases_expired nowf m :
  let m' := monitor_confirm nowf m in
  toPackedBalanceList m' = toPackedBalanceList m /\
  (forall key,
     toConfirmBalanceList m' !! key =
       if decide (confirmTime < nowf key - key) then None
       else toConfirmBalanceList m !! key) /\
  m_balanceList m `prefix_of` m_balanceList m' /\
  (forall b,
     b ∈ m_balanceList m' <->
     b ∈ m_balanceList m \/
     exists key value,
       toConfirmBalanceList m !! key = Some value /\
       confirmTime < nowf key - key /\ b ∈ value).
Proof.
  destruct (monitor_confirm_spec nowf m) as (Hbl & Htp & Htc). cbv zeta.
  split; [exact Htp|]. split.
  { intros key. rewrite Htc.
    destruct (decide (expired nowf key)) as [He|He];
      destruct (decide (confirmTime < nowf key - key)) as [Hd|Hd];
      try reflexivity; exfalso; rewrite expired_iff in He; contradiction. }
  split; [rewrite Hbl; apply prefix_app_r; reflexivity|].
  intros b. rewrite Hbl, elem_of_app. split.
  - intros [Hin|Hin]; [left; exact Hin|right].
    apply list_elem_of_In, in_concat in Hin as (value & Hv & Hb).
    apply list_elem_of_In, list_elem_of_fmap in Hv as ([key value'] & -> & Hkv).
    apply list_elem_of_filter in Hkv as (Hexp & Hkv).
    apply elem_of_map_to_list in Hkv. simpl in *.
    exists key, value'. split; [exact Hkv|]. split.
    + apply expired_iff. exact Hexp.
    + apply list_elem_of_In. exact Hb.
  - intros [Hin|(key & value & Hkv & Hexp & Hb)]; [left; exact Hin|right].
    apply list_elem_of_In, in_concat. exists value. split.
    + apply list_elem_of_In, list_elem_of_fmap. exists (key, value).
      split; [reflexivity|]. apply list_elem_of_filter. split.
      * apply expired_iff. exact Hexp.
      * apply elem_of_map_to_list. exact Hkv.
    + apply list_elem_of_In. exact Hb.
Qed.

(** X6. The cool-down. The entries a poll at time [now] finds included form
    the bucket of that time. A following sweep that visits this bucket two
    minutes or less after [now] leaves it in place; a sweep that visits it
    later removes it and has all of its entries in the monitor's list. *)
Theorem release_waits_for_cooldown cfg ledger now nowf h m :
  Forall (queryable cfg h) (toPackedBalanceList m) ->
  exists m1,
    monitor_checkPack cfg ledger now h m = Ret m1 /\
    let included :=
      filter (fun b => reported ledger h "block" b = true)
             (toPackedBalanceList m) in
    let m2 := monitor_confirm nowf m1 in
    toConfirmBalanceList m1 !! now = Some included /\
    (nowf now - now <= confirmTime ->
       toConfirmBalanceList m2 !! now = Some included) /\
    (confirmTime < nowf now - now ->
       toConfirmBalanceList m2 !! now = None /\
       forall b, b ∈ included -> b ∈ m_balanceList m2).
Proof.
  intros Hq. eexists. split; [apply monitor_checkPack_spec; exact Hq|].
  cbv zeta.
  match goal with
  | |- context [monitor_confirm nowf ?m1] =>
      destruct (monitor_confirm_spec nowf m1) as (Hbl & _ & Htc)
  end.
  cbn [toConfirmBalanceList m_balanceList] in *.
  split; [apply lookup_insert_eq|]. split.
  - intros Hyoung. rewrite Htc.
    rewrite decide_False by (rewrite expired_iff; lia).
    apply lookup_insert_eq.
  - intros Hold. rewrite Htc.
    rewrite decide_True by (rewrite expired_iff; lia).
    split; [reflexivity|]. intros b Hb. rewrite Hbl. apply elem_of_app. right.
    apply list_elem_of_In, in_concat. eexists. split; [|apply list_elem_of_In; exact Hb].
    apply list_elem_of_In, list_elem_of_fmap. eexists (now, _).
    split; [reflexivity|]. apply list_elem_of_filter. split.
    + simpl. rewrite expired_iff. lia.
    + apply elem_of_map_to_list. apply lookup_insert_eq.
Qed.

Lemma release_waits_for_cooldown_witness :
  exists m1,
    monitor_checkPack (cfg_of 1 3) ledger_mixed (30 * Second) heap_mixed
                      monitor_mixed = Ret m1 /\
    let included :=
      filter (fun b => reported ledger_mixed heap_mixed "block" b = true)
             (toPackedBalanceList monitor_mixed) in
    let m2 := monitor_confirm (fun _ => 180 * Second) m1 in
    toConfirmBalanceList m1 !! (30 * Second) = Some included /\
    (180 * Second - 30 * Second <= confirmTime ->
       toConfirmBalanceList m2 !! (30 * Second) = Some included) /\
    (confirmTime < 180 * Second - 30 * Second ->
       toConfirmBalanceList m2 !! (30 * Second) = None /\
       forall b, b ∈ included -> b ∈ m_balanceList m2).
Proof.
  apply (release_waits_for_cooldown (cfg_of 1 3) ledger_mixed (30 * Second)
           (fun _ => 180 * Second) heap_mixed monitor_mixed).
  exact heap_mixed_queryable.
Defined.

(** X7. What a poll returns, when every queued entry can be asked about: the
    included and the pending entries are two sublists of the queue, in the
    queue's order, with no entry in both; so neither is longer than the
    queue, and a queue of distinct entries gives distinct entries. *)
Theorem poll_splits_queue cfg ledger h balances :
  Forall (queryable cfg h) balances ->
  exists include pending,
    getIncludedAndPendingBalance cfg ledger h balances = Ret (include, pending) /\
    include `sublist_of` balances /\
    pending `sublist_of` balances /\
    (forall b, b ∈ include -> b ∉ pending) /\
    (length include + length pending <= length balances)%nat /\
    (NoDup balances -> NoDup include /\ NoDup pending).
Proof.
  intros Hq. unfold getIncludedAndPendingBalance.
  rewrite classify_loop_spec by exact Hq. simpl.
  set (P := fun b => reported ledger h "block" b = true).
  set (Q := fun b => reported ledger h "pool" b = true).
  assert (Hdisj : forall b, P b -> ~ Q b).
  { intros b Hp Hq'. unfold P, Q, reported in *.
    destruct (answer_of ledger h b) as [result|]; [|discriminate].
    rewrite (status_is_exclusive _ Hp) in Hq'. discriminate. }
  exists (filter P balances), (filter Q balances).
  split; [reflexivity|].
  split; [apply sublist_filter|]. split; [apply sublist_filter|].
  split.
  { intros b Hb Hb'. apply list_elem_of_filter in Hb as (Hp & _).
    apply list_elem_of_filter in Hb' as (Hq' & _). exact (Hdisj b Hp Hq'). }
  split.
  { clear Hq. induction balances as [|b rest IH]; [simpl; lia|].
    destruct (decide (P b)) as [Hp|Hp].
    - rewrite (filter_cons_True P) by exact Hp.
      rewrite (filter_cons_False Q) by (apply Hdisj; exact Hp).
      simpl. lia.
    - rewrite (filter_cons_False P) by exact Hp.
      destruct (decide (Q b)) as [Hq'|Hq'].
      + rewrite (filter_cons_True Q) by exact Hq'. simpl. lia.
      + rewrite (filter_cons_False Q) by exact Hq'. simpl. lia. }
  intros Hnd. split; apply NoDup_filter; exact Hnd.
Qed.

Lemma poll_splits_queue_witness :
  exists include pending,
    getIncludedAndPendingBalance (cfg_of 1 3) ledger_mixed heap_mixed
      (toPackedBalanceList monitor_mixed) = Ret (include, pending) /\
    include `sublist_of` toPackedBalanceList monitor_mixed /\
    pending `sublist_of` toPackedBalanceList monitor_mixed /\
    (forall b, b ∈ include -> b ∉ pending) /\
    (length include + length pending
     <= length (toPackedBalanceList monitor_mixed))%nat /\
    (NoDup (toPackedBalanceList monitor_mixed) -> NoDup include /\ NoDup pending).
Proof.
  apply (poll_splits_queue (cfg_of 1 3) ledger_mixed heap_mixed
           (toPackedBalanceList monitor_mixed)).
  exact heap_mixed_queryable.
Defined.

Lemma classify_loop_panics cfg ledger h balances b v hash :
  b ∈ balances -> h !! b = Some v -> tx v = Some hash ->
  addr_shard (address v) ∉ clientList cfg ->
  forall include pending,
    classify_loop cfg ledger h balances include pending = Panic.
Proof.
  intros Hin Hv Htx Hcl.
  induction balances as [|x rest IH]; intros include pending;
    [inversion Hin|].
  cbn [classify_loop].
  destruct (decide (x = b)) as [->|Hne].
  - rewrite Hv, Htx. unfold getTx, getClient.
    rewrite decide_False by exact Hcl. reflexivity.
  - assert (Hrest : b ∈ rest).
    { apply elem_of_cons in Hin as [?|?]; [congruence|assumption]. }
    specialize (IH Hrest).
    destruct (h !! x) as [vx|]; [|reflexivity].
    destruct (tx vx) as [hx|]; [|apply IH].
    destruct (getTx cfg ledger (address vx) hx) as [result|]; [|reflexivity].
    simpl. destruct (decide (0 < size result)%nat); [|apply IH].
    destruct (status_is result "block"); [apply IH|].
    destruct (status_is result "pool"); apply IH.
Qed.

(** X8. A single queued entry that carries a transaction and whose address
    lies on a shard without client makes the whole poll panic, wherever in
    the queue it stands and whatever the ledger answers for the others. *)
Theorem poll_panics_without_client cfg ledger h balances b v hash :
  b ∈ balances -> h !! b = Some v -> tx v = Some hash ->
  addr_shard (address v) ∉ clientList cfg ->
  getIncludedAndPendingBalance cfg ledger h balances = Panic.
Proof.
  intros Hin Hv Htx Hcl. unfold getIncludedAndPendingBalance.
  eapply classify_loop_panics; eassumption.
Qed.

Lemma poll_panics_without_client_witness :
  getIncludedAndPendingBalance (cfg_of 1 3) ledger_mixed heap_stray
                               [0; 1; 2]%nat = Panic.
Proof.
  apply (poll_panics_without_client (cfg_of 1 3) ledger_mixed heap_stray
           [0; 1; 2]%nat 1%nat
           (mkBalance (mkAddress 21 2) 21 10 2 0 (Some 501) false) 501).
  - right. left.
  - reflexivity.
  - reflexivity.
  - simpl. intros Hin. apply elem_of_singleton in Hin. discriminate.
Defined.

(** ** [newBalancesList] *)

Lemma concat_parts_prefix {A} (l : list A) (unit n m : nat) :
  (m <= n - 1)%nat -> (unit * (n - 1) <= length l)%nat ->
  concat (map (fun i =>
                 take ((if decide (i = (n - 1)%nat) then length l
                        else (unit * (i + 1))%nat) - (unit * i)%nat)
                      (drop (unit * i)%nat l))
              (seq 0 m))
  = take (unit * m)%nat l.
Proof.
  intros Hm Hlen. induction m as [|m IH].
  - simpl. rewrite Nat.mul_0_r. reflexivity.
  - rewrite seq_S, map_app, concat_app, IH by lia. simpl.
    rewrite decide_False by lia. rewrite app_nil_r.
    replace (unit * (m + 1) - unit * m)%nat with unit by lia.
    replace (unit * S m)%nat with (unit * m + unit)%nat by lia.
    rewrite <- (take_drop (unit * m) l) at 3.
    rewrite take_app_add'; [reflexivity|].
    assert ((unit * m <= unit * (n - 1))%nat) by (apply Nat.mul_le_mono_l; lia).
    rewrite length_take. lia.
Qed.

(** The parts [newBalancesList] cuts a list into. *)
Lemma newBalancesList_parts balanceList splitNum :
  0 < splitNum ->
  exists parts blanks,
    newBalancesList balanceList splitNum true = Ret parts /\
    newBalancesList balanceList splitNum false = Ret blanks /\
    concat parts = balanceList /\
    length parts = Z.to_nat splitNum /\
    (forall i part, parts !! i = Some part -> (i < Z.to_nat splitNum - 1)%nat ->
       length part = (length balanceList / Z.to_nat splitNum)%nat) /\
    length <$> blanks = length <$> parts /\
    Forall (Forall (fun b => b = None)) blanks.
Proof.
  intros Hpos. unfold newBalancesList.
  rewrite (proj2 (Z.leb_gt _ _) Hpos).
  set (n := Z.to_nat splitNum). set (unit := (length balanceList / n)%nat).
  assert (Hn : (0 < n)%nat) by (unfold n; lia).
  assert (Hunit : (unit * n <= length balanceList)%nat).
  { unfold unit. rewrite Nat.mul_comm. apply Nat.Div0.mul_div_le. }
  assert (Hlast : (unit * (n - 1) <= length balanceList)%nat) by nia.
  eexists _, _. split; [reflexivity|]. split; [reflexivity|].
  split.
  { assert (Hseq : seq 0 n = seq 0 (n - 1) ++ [(n - 1)%nat]).
    { replace n with (S (n - 1)) at 1 by lia. apply seq_S. }
    rewrite Hseq, map_app, concat_app. simpl.
    rewrite decide_True by reflexivity.
    rewrite (concat_parts_prefix balanceList unit n (n - 1)) by lia.
    rewrite app_nil_r.
    rewrite (take_ge (drop (unit * (n - 1)) balanceList))
      by (rewrite length_drop; lia).
    apply take_drop. }
  split; [rewrite length_map, length_seq; reflexivity|].
  split.
  { intros i part Hi Hlt. rewrite list_lookup_fmap in Hi.
    destruct (seq 0 n !! i) as [j|] eqn:Hj; [|discriminate].
    apply lookup_seq in Hj as (-> & Hjn). simpl in Hi. injection Hi as <-.
    rewrite decide_False by lia. rewrite length_take, length_drop.
    assert ((unit * (i + 1) <= unit * (n - 1))%nat) by (apply Nat.mul_le_mono_l; lia).
    lia. }
  split.
  { rewrite <- !list_fmap_compose. apply list_fmap_ext. intros k i Hi. simpl.
    apply lookup_seq in Hi as (-> & Hk). simpl.
    rewrite length_replicate, length_take, length_drop.
    assert ((unit * (k + 1) <= unit * n)%nat) by (apply Nat.mul_le_mono_l; lia).
    destruct (decide (k = (n - 1)%nat)); lia. }
  apply Forall_fmap, Forall_forall. intros i _. simpl.
  apply Forall_forall. intros b Hb. apply elem_of_replicate in Hb as [-> _].
  reflexivity.
Qed.

(** X9. For a positive [splitNum], [newBalancesList] with [copyValue] cuts
    the list into exactly [splitNum] consecutive parts: put one after the
    other they give the list back, so no entry is lost or doubled; all parts
    but the last hold [len/splitNum] entries, the last holds the rest. With
    [copyValue] false the parts have the same lengths and hold nil only. *)
Theorem newBalancesList_partitions balanceList splitNum :
  0 < splitNum ->
  exists parts blanks,
    newBalancesList balanceList splitNum true = Ret parts /\
    newBalancesList balanceList splitNum false = Ret blanks /\
    concat parts = balanceList /\
    length parts = Z.to_nat splitNum /\
    (forall i part, parts !! i = Some part -> (i < Z.to_nat splitNum - 1)%nat ->
       length part = (length balanceList / Z.to_nat splitNum)%nat) /\
    (forall part, parts !! (Z.to_nat splitNum - 1)%nat = Some part ->
       length part =
         (length balanceList
          - length balanceList / Z.to_nat splitNum * (Z.to_nat splitNum - 1))%nat) /\
    length <$> blanks = length <$> parts /\
    Forall (Forall (fun b => b = None)) blanks.
Proof.
  intros Hpos.
  destruct (newBalancesList_parts balanceList splitNum Hpos)
    as (parts & blanks & Hparts & Hblanks & Hcat & Hlen & Hunit & Hlens & Hnil).
  exists parts, blanks. repeat (split; [assumption|]).
  split; [|split; assumption].
  intros part Hlast.
  unfold newBalancesList in Hparts. rewrite (proj2 (Z.leb_gt _ _) Hpos) in Hparts.
  injection Hparts as <-. rewrite list_lookup_fmap in Hlast.
  destruct (seq 0 (Z.to_nat splitNum) !! (Z.to_nat splitNum - 1)%nat) as [j|] eqn:Hj;
    [|discriminate].
  apply lookup_seq in Hj as (-> & _). simpl in Hlast. injection Hlast as <-.
  rewrite decide_True by reflexivity.
  rewrite length_take, length_drop, Nat.mul_comm. lia.
Qed.

Lemma newBalancesList_partitions_witness :
  exists parts blanks,
    newBalancesList [Some 0; Some 1; None; Some 3; Some 4; Some 5; Some 6]%nat 3 true
      = Ret parts /\
    newBalancesList [Some 0; Some 1; None; Some 3; Some 4; Some 5; Some 6]%nat 3 false
      = Ret blanks /\
    concat parts = [Some 0; Some 1; None; Some 3; Some 4; Some 5; Some 6]%nat /\
    length parts = Z.to_nat 3 /\
    (forall i part, parts !! i = Some part -> (i < Z.to_nat 3 - 1)%nat ->
       length part
       = (length [Some 0; Some 1; None; Some 3; Some 4; Some 5; Some 6]%nat
          / Z.to_nat 3)%nat) /\
    (forall part, parts !! (Z.to_nat 3 - 1)%nat = Some part ->
       length part =
         (length [Some 0; Some 1; None; Some 3; Some 4; Some 5; Some 6]%nat
          - length [Some 0; Some 1; None; Some 3; Some 4; Some 5; Some 6]%nat
            / Z.to_nat 3 * (Z.to_nat 3 - 1))%nat) /\
    length <$> blanks = length <$> parts /\
    Forall (Forall (fun b => b = None)) blanks.
Proof.
  apply (newBalancesList_partitions
           [Some 0; Some 1; None; Some 3; Some 4; Some 5; Some 6]%nat 3).
  lia.
Defined.

(** The parts of [newBalancesList_copy] are those of [newBalancesList] on a
    list without nil. *)
Lemma newBalancesList_copy_agrees (balanceList : list nat) splitNum :
  newBalancesList (map Some balanceList) splitNum true =
    match newBalancesList_copy balanceList splitNum with
    | Ret parts => Ret (map (map Some) parts)
    | Panic => Panic
    end.
Proof.
  unfold newBalancesList, newBalancesList_copy.
  destruct (splitNum <=? 0); [reflexivity|]. f_equal.
  rewrite map_map. apply map_ext. intros i.
  rewrite length_map, <- firstn_map, <- skipn_map. reflexivity.
Qed.

(** ** Mode 3: [SendMode3] *)

Lemma send_amount_mode3 r src : send_amount 3 r src = Ret (amount src).
Proof. reflexivity. Qed.

(** The loop of [SendMode3] over entries that are distinct and in the store,
    every submission accepted: slot [i + k] of [next] receives the
    beneficiary of the [k]-th entry, which is the [k]-th new record of the
    store; every entry sent from is debited its whole amount. *)
Lemma mode3_range_accepted cfg hexnil E bs : forall i s,
  mode cfg = 3 ->
  size (clientList cfg) <> 0%nat ->
  all_accepted E ->
  NoDup bs ->
  Forall (fun b => is_Some (r_heap s !! b)) bs ->
  (i + length bs <= length (r_next s))%nat ->
  exists s',
    mode3_range cfg hexnil E i (map Some bs) s = Ret s' /\
    r_next s' =
      take i (r_next s) ++ map Some (seq (length (r_heap s)) (length bs))
           ++ drop (i + length bs) (r_next s) /\
    length (r_heap s') = (length (r_heap s) + length bs)%nat /\
    (forall p v, r_heap s !! p = Some v ->
       r_heap s' !! p =
         Some (if decide (p ∈ bs) then debit v (amount v) else v)) /\
    (forall k b v, bs !! k = Some b -> r_heap s !! b = Some v ->
       r_heap s' !! (length (r_heap s) + k)%nat =
         Some (newBalance_of v (it_send (E (i + k)%nat)) (amount v)
                             (gen_tx (it_send (E (i + k)%nat))))).
Proof.
  induction bs as [|b rest IH]; intros i s Hmode Hcl Hacc Hnd Hall Hlen.
  - exists s. cbn [mode3_range map length seq]. split; [reflexivity|].
    split.
    { rewrite Nat.add_0_r. simpl. rewrite take_drop. reflexivity. }
    split; [lia|]. split.
    + intros p v Hp. destruct (decide (p ∈ [])) as [Hin|_]; [inversion Hin|].
      exact Hp.
    + intros k b v Hk. rewrite lookup_nil in Hk. discriminate.
  - apply NoDup_cons in Hnd as (Hnotin & Hnd).
    apply Forall_cons in Hall as ([src Hb] & Hall).
    pose proof (lookup_lt_Some _ _ _ Hb) as Hltb.
    cbn [length] in Hlen.
    assert (Ha : send_amount (mode cfg) (rand_amount (it_send (E i))) src
                 = Ret (amount src)) by (rewrite Hmode; reflexivity).
    pose proof (send_returns cfg (it_send (E i)) (r_heap s) b src (amount src)
                  Hb Ha Hcl) as Hsend.
    pose proof (Hacc i) as Hacci. rewrite Hacci in Hsend. unfold alloc in Hsend.
    rewrite length_insert in Hsend.
    set (nb := newBalance_of src (it_send (E i)) (amount src)
                             (gen_tx (it_send (E i)))) in *.
    set (h1 := <[b := debit src (amount src)]> (r_heap s) ++ [nb]) in *.
    assert (Hq : h1 !! length (r_heap s) = Some nb).
    { unfold h1. rewrite lookup_app_r by (rewrite length_insert; lia).
      rewrite length_insert, Nat.sub_diag. reflexivity. }
    assert (Htx : is_Some (tx nb)).
    { unfold nb. destruct (newBalance_of_fields src (it_send (E i)) (amount src)
                             (gen_tx (it_send (E i)))) as (_ & _ & -> & _).
      unfold accepted in Hacci. destruct (gen_tx (it_send (E i))); [eauto|discriminate]. }
    cbn [map mode3_range]. unfold mode3_body. rewrite Hsend. cbn [bind fst snd].
    rewrite Hq. unfold debug_print.
    destruct Htx as [hash Htx]. rewrite Htx.
    assert (Hprint : (if debug cfg then Ret tt else Ret tt) = Ret tt)
      by (destruct (debug cfg); reflexivity).
    rewrite Hprint. cbn [bind].
    rewrite decide_True by lia. cbv zeta. cbn [bind].
    match goal with
    | |- exists s', mode3_range _ _ _ _ _ ?s1 = _ /\ _ =>
        destruct (IH (S i) s1 Hmode Hcl Hacc Hnd)
          as (s' & Hrun & Hnext & Hhlen & Hheap & Hnew)
    end.
    { cbn [r_heap]. eapply Forall_impl; [exact Hall|]. intros p [v Hp].
      pose proof (lookup_lt_Some _ _ _ Hp) as Hlt.
      apply lookup_lt_is_Some. unfold h1. rewrite length_app, length_insert. lia. }
    { cbn [r_next]. rewrite length_insert. lia. }
    cbn [r_heap r_next] in *.
    assert (Hh1len : length h1 = S (length (r_heap s))).
    { unfold h1. rewrite length_app, length_insert. simpl. lia. }
    assert (Hrestlt : forall p, p ∈ rest -> (p < length (r_heap s))%nat).
    { intros p Hp. rewrite Forall_forall in Hall. destruct (Hall p Hp) as [v Hv].
      eapply lookup_lt_Some. exact Hv. }
    exists s'. split; [exact Hrun|]. split.
    { rewrite Hnext, Hh1len.
      rewrite (take_S_r _ i (Some (length (r_heap s))))
        by (apply list_lookup_insert_eq; lia).
      rewrite take_insert_ge by lia.
      rewrite drop_insert_lt by lia.
      cbn [length seq map]. rewrite <- !app_assoc. simpl.
      replace (i + S (length rest))%nat with (S (i + length rest)) by lia.
      reflexivity. }
    split; [rewrite Hhlen, Hh1len; cbn [length]; lia|].
    split.
    { intros p v Hp. pose proof (lookup_lt_Some _ _ _ Hp) as Hlt.
      destruct (decide (p = b)) as [->|Hne].
      - assert (v = src) as -> by congruence.
        rewrite (Hheap b (debit src (amount src))).
        + rewrite decide_False by exact Hnotin.
          rewrite decide_True by left. reflexivity.
        + unfold h1. rewrite lookup_app_l by (rewrite length_insert; exact Hltb).
          apply list_lookup_insert_eq. exact Hltb.
      - rewrite (Hheap p v).
        + destruct (decide (p ∈ rest)) as [Hin|Hnin].
          * rewrite decide_True by (right; exact Hin). reflexivity.
          * rewrite decide_False; [reflexivity|].
            intros Hin. apply elem_of_cons in Hin as [?|?]; contradiction.
        + unfold h1. rewrite lookup_app_l by (rewrite length_insert; exact Hlt).
          rewrite list_lookup_insert_ne by auto. exact Hp. }
    intros k b' v Hk Hv. destruct k as [|k].
    + simpl in Hk. injection Hk as <-. assert (v = src) as -> by congruence.
      rewrite !Nat.add_0_r. rewrite (Hheap _ nb Hq).
      rewrite decide_False; [reflexivity|].
      intros Hin. apply Hrestlt in Hin. lia.
    + simpl in Hk.
      assert (Hb' : b' ∈ rest) by (eapply list_elem_of_lookup_2; exact Hk).
      assert (Hne : b' <> b) by (intros ->; contradiction).
      pose proof (lookup_lt_Some _ _ _ Hv) as Hlt.
      assert (Hv1 : h1 !! b' = Some v).
      { unfold h1. rewrite lookup_app_l by (rewrite length_insert; exact Hlt).
        rewrite list_lookup_insert_ne by auto. exact Hv. }
      pose proof (Hnew k b' v Hk Hv1) as Hres. rewrite Hh1len in Hres.
      replace (length (r_heap s) + S k)%nat with (S (length (r_heap s)) + k)%nat by lia.
      replace (i + S k)%nat with (S i + k)%nat by lia.
      exact Hres.
Qed.

Lemma Go_copy_same_length {A} (dst src : list A) :
  length dst = length src -> Go_copy dst src = src.
Proof.
  intros Hlen. unfold Go_copy. rewrite Hlen, take_ge, drop_ge by lia.
  apply app_nil_r.
Qed.

(** A call of [SendMode3] whose submissions are all accepted. *)
Lemma SendMode3_accepted cfg hexnil E current bs s :
  mode cfg = 3 ->
  size (clientList cfg) <> 0%nat ->
  all_accepted E ->
  NoDup bs ->
  Forall (fun b => is_Some (r_heap s !! b)) bs ->
  r_next s = map Some bs ->
  length current = length bs ->
  exists s',
    let qs := seq (length (r_heap s)) (length bs) in
    SendMode3 cfg hexnil E current s = Ret (map Some bs, s') /\
    r_next s' = map Some qs /\
    amounts_of (r_heap s') qs = amounts_of (r_heap s) bs /\
    NoDup qs /\
    Forall (fun q => exists nb, r_heap s' !! q = Some nb /\
                                nonce nb = 0 /\ is_Some (tx nb)) qs /\
    (forall b v, b ∈ bs -> r_heap s !! b = Some v ->
       exists v', r_heap s' !! b = Some v' /\ amount v' = 0 /\
                  nonce v' = wrap_uint64 (nonce v + 1)) /\
    (forall p v, p ∉ bs -> r_heap s !! p = Some v -> r_heap s' !! p = Some v).
Proof.
  intros Hmode Hcl Hacc Hnd Hall Hnext Hlen.
  assert (Hcopy : Go_copy current (r_next s) = map Some bs).
  { rewrite Hnext. apply Go_copy_same_length. rewrite length_map. exact Hlen. }
  destruct (mode3_range_accepted cfg hexnil E bs 0 s Hmode Hcl Hacc Hnd Hall)
    as (s' & Hrun & Hnext' & Hhlen & Hheap & Hnew).
  { rewrite Hnext, length_map. lia. }
  exists s'. cbv zeta. unfold SendMode3. rewrite Hcopy, Hrun. cbn [bind].
  split; [reflexivity|]. split.
  { rewrite Hnext'. rewrite Hnext. cbn [take]. rewrite drop_ge by (rewrite length_map; lia).
    rewrite app_nil_r. reflexivity. }
  assert (Hfresh : forall k b, bs !! k = Some b ->
            exists v, r_heap s !! b = Some v /\
              r_heap s' !! (length (r_heap s) + k)%nat =
                Some (newBalance_of v (it_send (E k)) (amount v)
                                    (gen_tx (it_send (E k))))).
  { intros k b Hk. rewrite Forall_forall in Hall.
    destruct (Hall b (list_elem_of_lookup_2 _ _ _ Hk)) as [v Hv].
    exists v. split; [exact Hv|]. exact (Hnew k b v Hk Hv). }
  split.
  { unfold amounts_of. apply list_eq. intros k. rewrite !list_lookup_fmap.
    destruct (bs !! k) as [b|] eqn:Hk.
    - pose proof (lookup_lt_Some _ _ _ Hk) as Hklt.
      rewrite lookup_seq_lt by exact Hklt. simpl.
      destruct (Hfresh k b Hk) as (v & Hv & Hq). rewrite Hq, Hv.
      reflexivity.
    - apply lookup_ge_None in Hk. rewrite lookup_seq_ge by exact Hk. reflexivity. }
  split; [apply NoDup_seq|]. split.
  { apply Forall_forall. intros q Hq. apply elem_of_seq in Hq.
    assert (Hk : (q - length (r_heap s) < length bs)%nat) by lia.
    destruct (lookup_lt_is_Some_2 bs _ Hk) as [b Hb].
    destruct (Hfresh _ b Hb) as (v & Hv & Hrec).
    replace (length (r_heap s) + (q - length (r_heap s)))%nat with q in Hrec by lia.
    eexists. split; [exact Hrec|].
    destruct (newBalance_of_fields v (it_send (E (q - length (r_heap s))%nat))
                (amount v) (gen_tx (it_send (E (q - length (r_heap s))%nat))))
      as (_ & -> & -> & _).
    split; [reflexivity|].
    pose proof (Hacc (q - length (r_heap s))%nat) as Ha. unfold accepted in Ha.
    destruct (gen_tx (it_send (E (q - length (r_heap s))%nat))); [eauto|discriminate]. }
  split.
  { intros b v Hb Hv. rewrite (Hheap b v Hv), decide_True by exact Hb.
    eexists. split; [reflexivity|]. simpl. rewrite Z.sub_diag. split; reflexivity. }
  intros p v Hp Hv. rewrite (Hheap p v Hv), decide_False by exact Hp. reflexivity.
Qed.

(** X10. A call of [SendMode3] in mode 3 on slices of equal length, [next]
    holding distinct entries of the store, every submission accepted: the
    call returns; [current] is now the old [next]; [next] holds, slot by
    slot, the new beneficiaries, which are distinct new records with nonce 0
    and a transaction hash, and which hold exactly the amounts the old
    entries held; the old entries are left with amount 0 and the next nonce;
    the store has one new record per entry and no other record is
    changed. *)
Theorem mode3_round_moves_all cfg hexnil E current bs s :
  mode cfg = 3 ->
  size (clientList cfg) <> 0%nat ->
  all_accepted E ->
  NoDup bs ->
  Forall (fun b => is_Some (r_heap s !! b)) bs ->
  r_next s = map Some bs ->
  length current = length bs ->
  exists s',
    let qs := seq (length (r_heap s)) (length bs) in
    SendMode3 cfg hexnil E current s = Ret (map Some bs, s') /\
    r_next s' = map Some qs /\
    length (r_heap s') = (length (r_heap s) + length bs)%nat /\
    amounts_of (r_heap s') qs = amounts_of (r_heap s) bs /\
    NoDup qs /\
    Forall (fun q => exists nb, r_heap s' !! q = Some nb /\
                                nonce nb = 0 /\ is_Some (tx nb)) qs /\
    (forall b v, b ∈ bs -> r_heap s !! b = Some v ->
       exists v', r_heap s' !! b = Some v' /\ amount v' = 0 /\
                  nonce v' = wrap_uint64 (nonce v + 1)) /\
    (forall p v, p ∉ bs -> r_heap s !! p = Some v -> r_heap s' !! p = Some v).
Proof.
  intros Hmode Hcl Hacc Hnd Hall Hnext Hlen.
  destruct (SendMode3_accepted cfg hexnil E current bs s Hmode Hcl Hacc Hnd
              Hall Hnext Hlen)
    as (s' & Hrun & Hnext' & Hamounts & Hqs & Hnew & Hold & Hframe).
  exists s'. cbv zeta in *.
  split; [exact Hrun|]. split; [exact Hnext'|]. split; [|auto 10].
  unfold SendMode3 in Hrun.
  rewrite (Go_copy_same_length current (r_next s)) in Hrun
    by (rewrite Hnext, length_map; exact Hlen).
  destruct (mode3_range_accepted cfg hexnil E bs 0 s Hmode Hcl Hacc Hnd Hall)
    as (s2 & Hr2 & _ & Hl2 & _).
  { rewrite Hnext, length_map. lia. }
  rewrite Hnext, Hr2 in Hrun. cbn [bind] in Hrun.
  injection Hrun as <-. exact Hl2.
Qed.

Lemma mode3_round_moves_all_witness :
  exists s',
    let qs := seq (length (r_heap rotation2)) (length [0; 2]%nat) in
    SendMode3 (cfg_of 3 2) Panic (env_always 0 700) [None; None] rotation2
      = Ret (map Some [0; 2]%nat, s') /\
    r_next s' = map Some qs /\
    length (r_heap s') = (length (r_heap rotation2) + length [0; 2]%nat)%nat /\
    amounts_of (r_heap s') qs = amounts_of (r_heap rotation2) [0; 2]%nat /\
    NoDup qs /\
    Forall (fun q => exists nb, r_heap s' !! q = Some nb /\
                                nonce nb = 0 /\ is_Some (tx nb)) qs /\
    (forall b v, b ∈ [0; 2]%nat -> r_heap rotation2 !! b = Some v ->
       exists v', r_heap s' !! b = Some v' /\ amount v' = 0 /\
                  nonce v' = wrap_uint64 (nonce v + 1)) /\
    (forall p v, p ∉ [0; 2]%nat -> r_heap rotation2 !! p = Some v ->
       r_heap s' !! p = Some v).
Proof.
  apply (mode3_round_moves_all (cfg_of 3 2) Panic (env_always 0 700)
           [None; None] [0; 2]%nat rotation2).
  - reflexivity.
  - vm_compute. lia.
  - intros i. reflexivity.
  - apply (bool_decide_unpack _). vm_compute. exact I.
  - repeat (constructor; [eexists; reflexivity|]). constructor.
  - reflexivity.
  - reflexivity.
Defined.

(** ** Mode 3: the rotation of [loopSendMode3] *)

Lemma elem_of_concat {A} (x : A) (ls : list (list A)) :
  x ∈ concat ls <-> exists l, l ∈ ls /\ x ∈ l.
Proof.
  rewrite list_elem_of_In, in_concat. split; intros (l & Hl & Hx); exists l.
  - rewrite !list_elem_of_In. auto.
  - rewrite <- !list_elem_of_In. auto.
Qed.

Lemma elem_of_concat_insert {A} (x : A) ls j qs :
  x ∈ concat (<[j := qs]> ls) -> x ∈ qs \/ x ∈ concat ls.
Proof.
  revert j. induction ls as [|l ls IH]; intros j Hx; [right; exact Hx|].
  destruct j as [|j]; simpl in Hx; apply elem_of_app in Hx as [Hx|Hx].
  - left. exact Hx.
  - right. simpl. apply elem_of_app. right. exact Hx.
  - right. simpl. apply elem_of_app. left. exact Hx.
  - destruct (IH j Hx) as [Hq|Hc]; [left; exact Hq|].
    right. simpl. apply elem_of_app. right. exact Hc.
Qed.

Lemma NoDup_concat_insert {A} (ls : list (list A)) j qs :
  NoDup (concat ls) -> NoDup qs ->
  (forall q, q ∈ qs -> q ∉ concat ls) ->
  NoDup (concat (<[j := qs]> ls)).
Proof.
  revert j. induction ls as [|l ls IH]; intros j Hnd Hqs Hfresh; [exact Hnd|].
  simpl in Hnd. apply NoDup_app in Hnd as (Hl & Hdisj & Hrest).
  destruct j as [|j]; simpl; apply NoDup_app.
  - split; [exact Hqs|]. split; [|exact Hrest].
    intros q Hq Hin. apply (Hfresh q Hq). simpl. apply elem_of_app. right.
    exact Hin.
  - split; [exact Hl|]. split.
    + intros x Hx Hin. apply elem_of_concat_insert in Hin as [Hin|Hin].
      * apply (Hfresh x Hin). simpl. apply elem_of_app. left. exact Hx.
      * exact (Hdisj x Hx Hin).
    + apply IH; [exact Hrest|exact Hqs|].
      intros q Hq Hin. apply (Hfresh q Hq). simpl. apply elem_of_app. right.
      exact Hin.
Qed.

Lemma NoDup_concat_parts {A} (ls : list (list A)) j k lj lk x :
  NoDup (concat ls) -> ls !! j = Some lj -> ls !! k = Some lk -> j <> k ->
  x ∈ lj -> x ∈ lk -> False.
Proof.
  revert j k. induction ls as [|l ls IH]; intros j k Hnd Hj Hk Hne Hxj Hxk;
    [rewrite lookup_nil in Hj; discriminate|].
  simpl in Hnd. apply NoDup_app in Hnd as (Hl & Hdisj & Hrest).
  destruct j as [|j], k as [|k]; simpl in Hj, Hk.
  - contradiction.
  - injection Hj as <-. apply (Hdisj x Hxj). apply elem_of_concat.
    exists lk. split; [eapply list_elem_of_lookup_2; exact Hk|exact Hxk].
  - injection Hk as <-. apply (Hdisj x Hxk). apply elem_of_concat.
    exists lj. split; [eapply list_elem_of_lookup_2; exact Hj|exact Hxj].
  - eapply (IH j k); eauto.
Qed.

Lemma NoDup_concat_part {A} (ls : list (list A)) j lj :
  NoDup (concat ls) -> ls !! j = Some lj -> NoDup lj.
Proof.
  revert j. induction ls as [|l ls IH]; intros j Hnd Hj;
    [rewrite lookup_nil in Hj; discriminate|].
  simpl in Hnd. apply NoDup_app in Hnd as (Hl & _ & Hrest).
  destruct j as [|j]; simpl in Hj; [congruence|eauto].
Qed.

(** A call of [SendMode3] on one part keeps the rotation's invariant, the
    part being replaced by its beneficiaries. *)
Lemma mode3_call_inv cfg hexnil E A ls j lj st :
  mode cfg = 3 ->
  size (clientList cfg) <> 0%nat ->
  all_accepted E ->
  rotation_inv A ls st ->
  ls !! j = Some lj ->
  exists st',
    mode3_call cfg hexnil E j st = Ret st' /\
    rotation_inv A (<[j := seq (length (l3_heap st)) (length lj)]> ls) st' /\
    length (l3_heap st') = (length (l3_heap st) + length lj)%nat.
Proof.
  intros Hmode Hcl Hacc (Hnext & Hbal & Hnd & Hvalid & Hamt) Hj.
  pose proof (lookup_lt_Some _ _ _ Hj) as Hjlt.
  assert (Hnj : l3_nextBalances st !! j = Some (map Some lj)).
  { rewrite Hnext. change (map (map Some) ls) with (fmap (M := list) (map Some) ls).
    rewrite list_lookup_fmap, Hj. reflexivity. }
  destruct (Forall2_lookup_r _ _ _ _ _ Hbal Hj) as (current & Hcj & Hclen).
  assert (Hlj : forall b, b ∈ lj -> b ∈ concat ls).
  { intros b Hb. apply elem_of_concat. exists lj.
    split; [eapply list_elem_of_lookup_2; exact Hj|exact Hb]. }
  set (s := mkRotation (l3_heap st) (map Some lj) (l3_now st)
                       (l3_tpsStartTime st) (l3_tpsCount st)).
  destruct (SendMode3_accepted cfg hexnil E current lj s Hmode Hcl Hacc)
    as (s' & Hrun & Hnext' & Hamounts & Hqs & Hnew & Hold & Hframe).
  { eapply NoDup_concat_part; eassumption. }
  { apply Forall_forall. intros b Hb. rewrite Forall_forall in Hvalid.
    apply Hvalid, Hlj, Hb. }
  { reflexivity. }
  { exact Hclen. }
  cbv zeta in Hrun, Hnext', Hamounts, Hqs, Hnew. cbn [r_heap s] in *.
  set (qs := seq (length (l3_heap st)) (length lj)) in *.
  assert (Hlen' : length (r_heap s') = (length (l3_heap st) + length lj)%nat).
  { unfold SendMode3 in Hrun.
    destruct (mode3_range cfg hexnil E 0 (Go_copy current (r_next s)) s)
      as [s1|] eqn:Hr; [|discriminate].
    simpl in Hrun. injection Hrun as _ <-.
    rewrite (Go_copy_same_length current (r_next s)) in Hr
      by (simpl; rewrite length_map; exact Hclen).
    destruct (mode3_range_accepted cfg hexnil E lj 0 s Hmode Hcl Hacc)
      as (s2 & Hr2 & _ & Hl2 & _).
    - eapply NoDup_concat_part; eassumption.
    - apply Forall_forall. intros b Hb. rewrite Forall_forall in Hvalid.
      apply Hvalid, Hlj, Hb.
    - simpl. rewrite length_map. lia.
    - simpl in Hr. rewrite Hr in Hr2. injection Hr2 as <-. exact Hl2. }
  assert (Hkeep : forall p, is_Some (l3_heap st !! p) -> is_Some (r_heap s' !! p)).
  { intros p Hp. apply lookup_lt_is_Some. apply lookup_lt_is_Some in Hp. lia. }
  assert (Hfreshq : forall q, q ∈ qs -> q ∉ concat ls).
  { intros q Hq Hin. apply elem_of_seq in Hq. rewrite Forall_forall in Hvalid.
    apply Hvalid, lookup_lt_is_Some in Hin. lia. }
  unfold mode3_call. rewrite Hcj, Hnj. fold s. rewrite Hrun. cbn [bind fst snd].
  eexists. split; [reflexivity|]. split; [|exact Hlen'].
  unfold rotation_inv. cbn [l3_nextBalances l3_balances l3_heap].
  split.
  { rewrite Hnext', Hnext.
    change (map (map Some) ls) with (fmap (M := list) (map Some) ls).
    change (map (map Some) (<[j:=qs]> ls))
      with (fmap (M := list) (map Some) (<[j:=qs]> ls)).
    rewrite list_fmap_insert. reflexivity. }
  split.
  { apply Forall2_insert; [exact Hbal|].
    rewrite length_map. unfold qs. rewrite length_seq. reflexivity. }
  split; [apply NoDup_concat_insert; assumption|].
  split.
  { apply Forall_forall. intros x Hx.
    apply elem_of_concat_insert in Hx as [Hx|Hx].
    - rewrite Forall_forall in Hnew. destruct (Hnew x Hx) as (nb & Hnb & _).
      eauto.
    - apply Hkeep. rewrite Forall_forall in Hvalid. apply Hvalid, Hx. }
  rewrite <- Hamt.
  change (map (amounts_of (r_heap s')) (<[j:=qs]> ls))
    with (fmap (M := list) (amounts_of (r_heap s')) (<[j:=qs]> ls)).
  change (map (amounts_of (l3_heap st)) ls)
    with (fmap (M := list) (amounts_of (l3_heap st)) ls).
  apply list_eq. intros k. rewrite !list_lookup_fmap.
  destruct (decide (k = j)) as [->|Hne].
  - rewrite list_lookup_insert_eq by exact Hjlt. rewrite Hj. simpl.
    rewrite Hamounts. reflexivity.
  - rewrite list_lookup_insert_ne by auto.
    destruct (ls !! k) as [lk|] eqn:Hk; [|reflexivity]. simpl. f_equal.
    unfold amounts_of. apply list_fmap_ext. intros i b Hb.
    assert (Hnotin : b ∉ lj).
    { intros Hin. eapply (NoDup_concat_parts ls j k); eauto.
      eapply list_elem_of_lookup_2; exact Hb. }
    rewrite Forall_forall in Hvalid.
    destruct (Hvalid b) as [v Hv].
    { apply elem_of_concat. exists lk.
      split; [eapply list_elem_of_lookup_2; exact Hk
             |eapply list_elem_of_lookup_2; exact Hb]. }
    rewrite (Hframe b v Hnotin Hv), Hv. reflexivity.
Qed.

Lemma amounts_of_concat h (ls : list (list nat)) :
  amounts_of h (concat ls) = concat (map (amounts_of h) ls).
Proof.
  unfold amounts_of. induction ls as [|l ls IH]; [reflexivity|].
  simpl. rewrite fmap_app, IH. reflexivity.
Qed.

Lemma mode3_cycle_inv cfg hexnil E A ls st :
  mode cfg = 3 ->
  size (clientList cfg) <> 0%nat ->
  (forall j, all_accepted (E j)) ->
  rotation_inv A ls st ->
  length ls = 3%nat ->
  exists st' ls',
    mode3_cycle cfg hexnil E st = Ret st' /\
    rotation_inv A ls' st' /\
    length ls' = 3%nat /\
    length (concat ls') = length (concat ls) /\
    length (l3_heap st') = (length (l3_heap st) + length (concat ls))%nat.
Proof.
  intros Hmode Hcl Hacc Hinv Hlen.
  destruct ls as [|l0 [|l1 [|l2 [|]]]]; try discriminate. clear Hlen.
  destruct (mode3_call_inv cfg hexnil (E 0%nat) A _ 0 l0 st Hmode Hcl (Hacc _)
              Hinv eq_refl) as (st0 & Hrun0 & Hinv0 & Hlen0).
  cbn [list_insert insert] in Hinv0.
  destruct (mode3_call_inv cfg hexnil (E 1%nat) A _ 1 l1 st0 Hmode Hcl (Hacc _)
              Hinv0 eq_refl) as (st1 & Hrun1 & Hinv1 & Hlen1).
  cbn [list_insert insert] in Hinv1.
  destruct (mode3_call_inv cfg hexnil (E 2%nat) A _ 2 l2 st1 Hmode Hcl (Hacc _)
              Hinv1 eq_refl) as (st2 & Hrun2 & Hinv2 & Hlen2).
  cbn [list_insert insert] in Hinv2.
  eexists st2, _. unfold mode3_cycle. rewrite Hrun0. cbn [bind].
  rewrite Hrun1. cbn [bind]. split; [exact Hrun2|].
  split; [exact Hinv2|]. split; [reflexivity|].
  simpl. rewrite ?length_app, ?length_seq. simpl. lia.
Qed.

Lemma mode3_cycles_inv cfg hexnil E A n : forall c ls st,
  mode cfg = 3 ->
  size (clientList cfg) <> 0%nat ->
  (forall c j, all_accepted (E c j)) ->
  rotation_inv A ls st ->
  length ls = 3%nat ->
  exists st' ls',
    mode3_cycles cfg hexnil E c n st = Ret st' /\
    rotation_inv A ls' st' /\
    length ls' = 3%nat /\
    length (l3_heap st') = (length (l3_heap st) + n * length (concat ls))%nat.
Proof.
  induction n as [|n IH]; intros c ls st Hmode Hcl Hacc Hinv Hlen.
  - exists st, ls. simpl. split; [reflexivity|]. split; [exact Hinv|].
    split; [exact Hlen|lia].
  - destruct (mode3_cycle_inv cfg hexnil (E c) A ls st Hmode Hcl (Hacc c)
                Hinv Hlen) as (st1 & ls1 & Hrun1 & Hinv1 & Hlen1 & Hcat & Hheap1).
    destruct (IH (S c) ls1 st1 Hmode Hcl Hacc Hinv1 Hlen1)
      as (st' & ls' & Hrun & Hinv' & Hlen' & Hheap').
    exists st', ls'. simpl. rewrite Hrun1. cbn [bind].
    split; [exact Hrun|]. split; [exact Hinv'|]. split; [exact Hlen'|].
    rewrite Hheap', Hheap1, Hcat. lia.
Qed.

Lemma map_Some_inj {A} (l k : list A) : map Some l = map Some k -> l = k.
Proof.
  revert k. induction l as [|x l IH]; intros [|y k] H; try discriminate;
    [reflexivity|].
  simpl in H. injection H as -> H. f_equal. apply IH. exact H.
Qed.

Lemma lengths_Forall2 {A B} (xs : list (list A)) (ys : list (list B)) :
  length <$> xs = length <$> ys ->
  Forall2 (fun c l => length c = length l) xs ys.
Proof.
  revert ys. induction xs as [|x xs IH]; intros [|y ys] H; try discriminate;
    [constructor|].
  rewrite !fmap_cons in H. injection H as Hxy H. constructor; auto.
Qed.

(** The state [loopSendMode3] starts from satisfies the invariant. *)
Lemma loopSendMode3_init_inv h now cnt (bs : list nat) :
  NoDup bs ->
  Forall (fun b => is_Some (h !! b)) bs ->
  exists st ls,
    loopSendMode3_init h now cnt (map Some bs) = Ret st /\
    l3_heap st = h /\
    rotation_inv (map (amounts_of h) ls) ls st /\
    length ls = 3%nat /\
    concat ls = bs.
Proof.
  intros Hnd Hvalid.
  destruct (newBalancesList_parts (map Some bs) 3 ltac:(lia))
    as (parts & blanks & Hparts & Hblanks & Hcat & Hlen & _ & Hlens & _).
  pose proof (newBalancesList_copy_agrees bs 3) as Hagree.
  rewrite Hparts in Hagree.
  destruct (newBalancesList_copy bs 3) as [ls|] eqn:Hls; [|discriminate].
  injection Hagree as ->.
  assert (Hconcat : concat ls = bs).
  { apply map_Some_inj. rewrite concat_map. exact Hcat. }
  exists (mkMode3 h now now cnt blanks (map (map Some) ls)), ls.
  unfold loopSendMode3_init. rewrite Hblanks, Hparts. cbn [bind].
  split; [reflexivity|]. split; [reflexivity|]. split.
  - unfold rotation_inv. cbn [l3_nextBalances l3_balances l3_heap].
    split; [reflexivity|]. split.
    + apply lengths_Forall2. rewrite Hlens.
      change (map (map Some) ls) with (fmap (M := list) (map Some) ls).
      rewrite <- list_fmap_compose. apply list_fmap_ext. intros i l _. simpl.
      apply length_map.
    + rewrite Hconcat. auto.
  - rewrite length_map in Hlen. split; [exact Hlen|exact Hconcat].
Qed.

(** X11. The conservation law of mode 3. [loopSendMode3] started on distinct
    entries of the store, every submission accepted, runs any number of
    turns without panic; afterwards [nextBalances] still has three parts of
    distinct entries, these hold exactly the amounts the initial entries
    held, in the same order, and every turn has added one record per entry
    to the store. *)
Theorem mode3_loop_conserves cfg hexnil E n h now cnt (bs : list nat) :
  mode cfg = 3 ->
  size (clientList cfg) <> 0%nat ->
  (forall c j, all_accepted (E c j)) ->
  NoDup bs ->
  Forall (fun b => is_Some (h !! b)) bs ->
  exists st ls,
    loopSendMode3 cfg hexnil E n h now cnt (map Some bs) = Ret st /\
    l3_nextBalances st = map (map Some) ls /\
    length ls = 3%nat /\
    NoDup (concat ls) /\
    amounts_of (l3_heap st) (concat ls) = amounts_of h bs /\
    length (l3_heap st) = (length h + n * length bs)%nat.
Proof.
  intros Hmode Hcl Hacc Hnd Hvalid.
  destruct (loopSendMode3_init_inv h now cnt bs Hnd Hvalid)
    as (st0 & ls0 & Hinit & Hh0 & Hinv0 & Hlen0 & Hcat0).
  destruct (mode3_cycles_inv cfg hexnil E _ n 0 ls0 st0 Hmode Hcl Hacc Hinv0 Hlen0)
    as (st & ls & Hrun & (Hnext & _ & Hnd' & _ & Hamt) & Hlen & Hheap).
  exists st, ls. unfold loopSendMode3. rewrite Hinit. cbn [bind].
  split; [exact Hrun|]. split; [exact Hnext|]. split; [exact Hlen|].
  split; [exact Hnd'|]. split.
  - rewrite amounts_of_concat, Hamt, <- amounts_of_concat, Hcat0. reflexivity.
  - rewrite Hheap, Hh0, Hcat0. reflexivity.
Qed.

Lemma mode3_loop_conserves_witness :
  exists st ls,
    loopSendMode3 (cfg_of 3 2) Panic (fun _ _ => env_always 0 700) 2
                  heap_mixed_accounts 0 0 (map Some [0; 1; 2]%nat) = Ret st /\
    l3_nextBalances st = map (map Some) ls /\
    length ls = 3%nat /\
    NoDup (concat ls) /\
    amounts_of (l3_heap st) (concat ls)
      = amounts_of heap_mixed_accounts [0; 1; 2]%nat /\
    length (l3_heap st)
      = (length heap_mixed_accounts + 2 * length [0; 1; 2]%nat)%nat.
Proof.
  apply (mode3_loop_conserves (cfg_of 3 2) Panic (fun _ _ => env_always 0 700)
           2 heap_mixed_accounts 0 0 [0; 1; 2]%nat).
  - reflexivity.
  - vm_compute. lia.
  - intros c j i. reflexivity.
  - apply (bool_decide_unpack _). vm_compute. exact I.
  - repeat (constructor; [eexists; reflexivity|]). constructor.
Defined.

(** ** Mode 3 with submissions that fail *)

(** The loop of [SendMode3] with the debug line off, whatever becomes of the
    submissions. *)
Lemma mode3_range_mixed cfg hexnil E bs : forall i s,
  mode cfg = 3 ->
  debug cfg = false ->
  size (clientList cfg) <> 0%nat ->
  NoDup bs ->
  Forall (fun b => is_Some (r_heap s !! b)) bs ->
  (i + length bs <= length (r_next s))%nat ->
  exists s',
    mode3_range cfg hexnil E i (map Some bs) s = Ret s' /\
    r_next s' =
      take i (r_next s) ++ map Some (seq (length (r_heap s)) (length bs))
           ++ drop (i + length bs) (r_next s) /\
    (forall p v, p ∉ bs -> r_heap s !! p = Some v -> r_heap s' !! p = Some v) /\
    (forall k b v, bs !! k = Some b -> r_heap s !! b = Some v ->
       let e := it_send (E (i + k)%nat) in
       r_heap s' !! b = Some (if accepted e then debit v (amount v) else v) /\
       r_heap s' !! (length (r_heap s) + k)%nat =
         Some (newBalance_of v e (amount v)
                             (if accepted e then gen_tx e else None))).
Proof.
  induction bs as [|b rest IH]; intros i s Hmode Hdebug Hcl Hnd Hall Hlen.
  - exists s. cbn [mode3_range map length seq]. split; [reflexivity|].
    split.
    { rewrite Nat.add_0_r. simpl. rewrite take_drop. reflexivity. }
    split; [auto|].
    intros k b v Hk. rewrite lookup_nil in Hk. discriminate.
  - apply NoDup_cons in Hnd as (Hnotin & Hnd).
    apply Forall_cons in Hall as ([src Hb] & Hall).
    pose proof (lookup_lt_Some _ _ _ Hb) as Hltb.
    cbn [length] in Hlen.
    set (e := it_send (E i)).
    assert (Ha : send_amount (mode cfg) (rand_amount e) src = Ret (amount src))
      by (rewrite Hmode; reflexivity).
    pose proof (send_returns cfg e (r_heap s) b src (amount src) Hb Ha Hcl)
      as Hsend.
    set (nb := newBalance_of src e (amount src)
                             (if accepted e then gen_tx e else None)).
    set (h0 := if accepted e then <[b := debit src (amount src)]> (r_heap s)
               else r_heap s).
    assert (Hh0len : length h0 = length (r_heap s)).
    { unfold h0. destruct (accepted e); [apply length_insert|reflexivity]. }
    assert (Hsend' : send cfg e (r_heap s) b = Ret (length (r_heap s), h0 ++ [nb])).
    { rewrite Hsend. unfold h0, nb, alloc.
      destruct (accepted e); [rewrite length_insert|]; reflexivity. }
    set (h1 := h0 ++ [nb]) in *.
    assert (Hq : h1 !! length (r_heap s) = Some nb).
    { unfold h1. rewrite lookup_app_r by lia.
      rewrite Hh0len, Nat.sub_diag. reflexivity. }
    assert (Hh1len : length h1 = S (length (r_heap s))).
    { unfold h1. rewrite length_app, Hh0len. simpl. lia. }
    assert (Hold : forall p v, p <> b -> r_heap s !! p = Some v -> h1 !! p = Some v).
    { intros p v Hne Hp. pose proof (lookup_lt_Some _ _ _ Hp) as Hlt.
      unfold h1. rewrite lookup_app_l by lia. unfold h0.
      destruct (accepted e); [rewrite list_lookup_insert_ne by auto|]; exact Hp. }
    assert (Hsrc : h1 !! b = Some (if accepted e then debit src (amount src) else src)).
    { unfold h1. rewrite lookup_app_l by lia. unfold h0.
      destruct (accepted e); [apply list_lookup_insert_eq; exact Hltb|exact Hb]. }
    cbn [map mode3_range]. unfold mode3_body. fold e. rewrite Hsend'.
    cbn [bind fst snd]. rewrite Hq. unfold debug_print. rewrite Hdebug.
    cbn [bind]. rewrite decide_True by lia. cbv zeta. cbn [bind].
    match goal with
    | |- exists s', mode3_range _ _ _ _ _ ?s1 = _ /\ _ =>
        destruct (IH (S i) s1 Hmode Hdebug Hcl Hnd)
          as (s' & Hrun & Hnext & Hframe & Hnew)
    end.
    { cbn [r_heap]. eapply Forall_impl; [exact Hall|]. intros p [v Hp].
      pose proof (lookup_lt_Some _ _ _ Hp) as Hlt.
      apply lookup_lt_is_Some. lia. }
    { cbn [r_next]. rewrite length_insert. lia. }
    cbn [r_heap r_next] in *.
    assert (Hrestlt : forall p, p ∈ rest -> (p < length (r_heap s))%nat).
    { intros p Hp. rewrite Forall_forall in Hall. destruct (Hall p Hp) as [v Hv].
      eapply lookup_lt_Some. exact Hv. }
    exists s'. split; [exact Hrun|]. split.
    { rewrite Hnext, Hh1len.
      rewrite (take_S_r _ i (Some (length (r_heap s))))
        by (apply list_lookup_insert_eq; lia).
      rewrite take_insert_ge by lia.
      rewrite drop_insert_lt by lia.
      cbn [length seq map]. rewrite <- !app_assoc. simpl.
      replace (i + S (length rest))%nat with (S (i + length rest)) by lia.
      reflexivity. }
    split.
    { intros p v Hp Hv. apply Hframe.
      - intros Hin. apply Hp. right. exact Hin.
      - apply Hold; [|exact Hv]. intros ->. apply Hp. left. }
    intros k b' v Hk Hv. cbv zeta. destruct k as [|k].
    + simpl in Hk. injection Hk as <-. assert (v = src) as -> by congruence.
      rewrite !Nat.add_0_r. fold e. split.
      * apply Hframe; [exact Hnotin|exact Hsrc].
      * apply Hframe; [|exact Hq]. intros Hin. apply Hrestlt in Hin. lia.
    + simpl in Hk.
      assert (Hb' : b' ∈ rest) by (eapply list_elem_of_lookup_2; exact Hk).
      assert (Hne : b' <> b) by (intros ->; contradiction).
      pose proof (Hnew k b' v Hk (Hold b' v Hne Hv)) as Hres. cbv zeta in Hres.
      rewrite Hh1len in Hres.
      replace (length (r_heap s) + S k)%nat with (S (length (r_heap s)) + k)%nat by lia.
      replace (i + S k)%nat with (S i + k)%nat by lia.
      exact Hres.
Qed.

(** X12. [SendMode3] in mode 3 with the debug line off returns whatever
    becomes of the submissions, and overwrites every slot of [next] with the
    record made for the call. For an entry whose submission is accepted the
    amount moves to the new record. For an entry whose submission fails the
    entry keeps its amount and nonce, and its slot in [next] goes to a new
    record that carries the same amount, nonce 0 and no transaction: the
    entry itself is no longer in [next]. *)
Theorem mode3_round_replaces_slots cfg hexnil E current bs s :
  mode cfg = 3 ->
  debug cfg = false ->
  size (clientList cfg) <> 0%nat ->
  NoDup bs ->
  Forall (fun b => is_Some (r_heap s !! b)) bs ->
  r_next s = map Some bs ->
  length current = length bs ->
  exists s',
    SendMode3 cfg hexnil E current s = Ret (map Some bs, s') /\
    r_next s' = map Some (seq (length (r_heap s)) (length bs)) /\
    forall k b v, bs !! k = Some b -> r_heap s !! b = Some v ->
      (Some b ∉ r_next s') /\
      exists v' nb,
        r_heap s' !! b = Some v' /\
        r_heap s' !! (length (r_heap s) + k)%nat = Some nb /\
        amount nb = amount v /\ nonce nb = 0 /\
        (accepted (it_send (E k)) = true ->
           amount v' = 0 /\ is_Some (tx nb)) /\
        (accepted (it_send (E k)) = false ->
           v' = v /\ tx nb = None).
Proof.
  intros Hmode Hdebug Hcl Hnd Hall Hnext Hlen.
  assert (Hcopy : Go_copy current (r_next s) = map Some bs).
  { rewrite Hnext. apply Go_copy_same_length. rewrite length_map. exact Hlen. }
  destruct (mode3_range_mixed cfg hexnil E bs 0 s Hmode Hdebug Hcl Hnd Hall)
    as (s' & Hrun & Hnext' & Hframe & Hnew).
  { rewrite Hnext, length_map. lia. }
  assert (Hn : r_next s' = map Some (seq (length (r_heap s)) (length bs))).
  { rewrite Hnext', Hnext. cbn [take].
    rewrite drop_ge by (rewrite length_map; lia).
    rewrite app_nil_r. reflexivity. }
  exists s'. unfold SendMode3. rewrite Hcopy, Hrun. cbn [bind].
  split; [reflexivity|]. split; [exact Hn|].
  intros k b v Hk Hv. split.
  { rewrite Hn. intros Hin. apply list_elem_of_In, in_map_iff in Hin
      as (q & Hq & Hin).
    injection Hq as ->. apply in_seq in Hin.
    pose proof (lookup_lt_Some _ _ _ Hv). lia. }
  destruct (Hnew k b v Hk Hv) as (Hsrc & Hrec). cbn [Nat.add] in Hsrc, Hrec.
  eexists _, _. split; [exact Hsrc|]. split; [exact Hrec|].
  destruct (newBalance_of_fields v (it_send (E k)) (amount v)
              (if accepted (it_send (E k)) then gen_tx (it_send (E k)) else None))
    as (Ha & Hno & Htx & _).
  split; [exact Ha|]. split; [exact Hno|]. split.
  - intros Hacc. rewrite Hacc in *. split.
    + simpl. rewrite Z.sub_diag. reflexivity.
    + rewrite Htx. unfold accepted in Hacc.
      destruct (gen_tx (it_send (E k))); [eauto|discriminate].
  - intros Hacc. rewrite Hacc in *. split; [reflexivity|exact Htx].
Qed.

Lemma mode3_round_replaces_slots_witness :
  exists s',
    SendMode3 (cfg_of 3 2) Panic env_second_refused [None; None] rotation2
      = Ret (map Some [0; 2]%nat, s') /\
    r_next s' = map Some (seq (length (r_heap rotation2)) (length [0; 2]%nat)) /\
    forall k b v, [0; 2]%nat !! k = Some b -> r_heap rotation2 !! b = Some v ->
      (Some b ∉ r_next s') /\
      exists v' nb,
        r_heap s' !! b = Some v' /\
        r_heap s' !! (length (r_heap rotation2) + k)%nat = Some nb /\
        amount nb = amount v /\ nonce nb = 0 /\
        (accepted (it_send (env_second_refused k)) = true ->
           amount v' = 0 /\ is_Some (tx nb)) /\
        (accepted (it_send (env_second_refused k)) = false ->
           v' = v /\ tx nb = None).
Proof.
  apply (mode3_round_replaces_slots (cfg_of 3 2) Panic env_second_refused
           [None; None] [0; 2]%nat rotation2).
  - reflexivity.
  - reflexivity.
  - vm_compute. lia.
  - apply (bool_decide_unpack _). vm_compute. exact I.
  - repeat (constructor; [eexists; reflexivity|]). constructor.
  - reflexivity.
  - reflexivity.
Defined.

(** ** [getRandClient] never returns nil *)

Lemma getRandClient_scan_spec clients : forall index count,
  0 <= count <= index -> index <= int_max ->
  (Z.to_nat (index - count) < length clients)%nat ->
  getRandClient_scan clients index count = clients !! Z.to_nat (index - count).
Proof.
  induction clients as [|v rest IH]; intros index count Hc Hmax Hlen;
    [simpl in Hlen; lia|].
  cbn [getRandClient_scan]. destruct (Z.eqb_spec count index) as [->|Hne].
  - rewrite Z.sub_diag. reflexivity.
  - rewrite (wrap_int_id (count + 1)) by range_lia.
    rewrite IH; [|lia|exact Hmax|cbn [length] in Hlen; lia].
    replace (Z.to_nat (index - count)) with (S (Z.to_nat (index - (count + 1))))
      by lia.
    reflexivity.
Qed.

(** X13. With at least one client, [getRandClient] returns a client of the
    list, the one at the drawn index in the order of the range: the final
    [return nil] is never reached. Without any client it panics. *)
Theorem getRandClient_never_nil clients r :
  Z.of_nat (length clients) <= int_max ->
  (clients = [] -> getRandClient_from clients r = Panic) /\
  (clients <> [] ->
   exists v,
     getRandClient_from clients r = Ret (Some v) /\
     clients !! Z.to_nat (r mod Z.of_nat (length clients)) = Some v /\
     v ∈ clients).
Proof.
  intros Hmax. split.
  - intros ->. reflexivity.
  - intros Hne. unfold getRandClient_from.
    destruct (decide (length clients = 0%nat)) as [Hz|Hnz].
    { destruct clients; [contradiction|discriminate]. }
    destruct (Intn_range r (Z.of_nat (length clients))) as (index & Hidx & Hrange);
      [lia|].
    rewrite Hidx. cbn [bind].
    assert (Hindex : index = r mod Z.of_nat (length clients)).
    { unfold Intn in Hidx. destruct (Z.of_nat (length clients) <=? 0);
        [discriminate|]. congruence. }
    rewrite getRandClient_scan_spec by lia.
    rewrite Z.sub_0_r, <- Hindex.
    destruct (lookup_lt_is_Some_2 clients (Z.to_nat index)) as [v Hv]; [lia|].
    exists v. rewrite Hv. split; [reflexivity|]. split; [reflexivity|].
    eapply list_elem_of_lookup_2. exact Hv.
Qed.

Lemma getRandClient_never_nil_witness :
  ([1; 2; 5] = [] -> getRandClient_from [1; 2; 5] 7 = Panic) /\
  ([1; 2; 5] <> [] ->
   exists v,
     getRandClient_from [1; 2; 5] 7 = Ret (Some v) /\
     [1; 2; 5] !! Z.to_nat (7 mod Z.of_nat (length [1; 2; 5])) = Some v /\
     v ∈ [1; 2; 5]).
Proof.
  apply (getRandClient_never_nil [1; 2; 5] 7). unfold int_max. simpl. lia.
Defined.

(** ** Bootstrap *)

Lemma account_of_funded cfg chain hex v :
  account_of cfg chain hex = Some v -> 0 < amount v.
Proof.
  unfold account_of. intros H.
  destruct (decide (hex = ""%string)); [discriminate|].
  destruct (LoadECDSAFromString chain hex) as [key|]; [|discriminate].
  destruct (decide _); [|discriminate].
  destruct (seele_getBalance chain _) as [bal|]; [|discriminate].
  destruct (Z.ltb_spec 0 (int_of_big (bal / Z.pos (SeeleToFan chain))))
    as [Hpos|]; [|discriminate].
  destruct (GetAccountNonce chain _); [|discriminate].
  injection H as <-. exact Hpos.
Qed.

(** One turn of the loop of [initBalance] on a line that can be processed:
    a line that stands for a record gets the record, newly allocated, into
    its slot; any other line leaves the slice as it is. *)
Lemma initBalance_at_spec cfg chain keyList i hex s :
  keyList !! i = Some hex ->
  bootable cfg chain hex ->
  (i < length (bt_balanceList s))%nat ->
  exists s',
    initBalance_at cfg chain keyList i s = Ret s' /\
    bt_heap s `prefix_of` bt_heap s' /\
    match account_of cfg chain hex with
    | Some v =>
        bt_heap s' = bt_heap s ++ [v] /\
        bt_balanceList s' = <[i := Some (length (bt_heap s))]> (bt_balanceList s)
    | None => bt_balanceList s' = bt_balanceList s
    end.
Proof.
  intros Hkey Hboot Hi. unfold initBalance_at, account_of. rewrite Hkey.
  destruct (decide (hex = ""%string)) as [Hempty|Hne].
  { exists s. split; [reflexivity|]. split; reflexivity. }
  destruct Hboot as [?|(key & Hparse & Hrpc)]; [contradiction|].
  rewrite Hparse. cbv zeta.
  destruct (decide (addr_shard (GetAddress chain key) ∈ clientList cfg))
    as [Hcl|Hcl].
  2:{ exists s. split; [reflexivity|]. split; reflexivity. }
  destruct (Hrpc Hcl) as (bal & Hbal & Hnonce).
  unfold getBalance, getNonce, getClient.
  rewrite decide_True by exact Hcl. cbn [bind]. rewrite Hbal. cbn [bind snd fst negb].
  cbn [amount alloc fst snd].
  destruct (Z.ltb_spec 0 (int_of_big (bal / Z.pos (SeeleToFan chain))))
    as [Hpos|Hnpos].
  - destruct (Hnonce Hpos) as [n Hn]. rewrite Hn. cbn [bind].
    rewrite decide_True by exact Hi.
    eexists. split; [reflexivity|]. cbn [bt_heap bt_balanceList].
    assert (Hins : <[length (bt_heap s) :=
                      set_nonce (mkBalance (GetAddress chain key) key
                                   (int_of_big (bal / Z.pos (SeeleToFan chain)))
                                   (addr_shard (GetAddress chain key)) 0 None false) n]>
                     (bt_heap s ++
                      [mkBalance (GetAddress chain key) key
                         (int_of_big (bal / Z.pos (SeeleToFan chain)))
                         (addr_shard (GetAddress chain key)) 0 None false])
                   = bt_heap s ++
                     [mkBalance (GetAddress chain key) key
                        (int_of_big (bal / Z.pos (SeeleToFan chain)))
                        (addr_shard (GetAddress chain key)) n None false]).
    { rewrite insert_app_r_alt by lia. rewrite Nat.sub_diag. reflexivity. }
    rewrite Hins. split; [apply prefix_app_r; reflexivity|].
    split; reflexivity.
  - eexists. split; [reflexivity|]. cbn [bt_heap bt_balanceList].
    split; [apply prefix_app_r; reflexivity|reflexivity].
Qed.

(** The loop of [initBalance] over the indices [a, a + m), the slots from
    [a] on being nil before. *)
Lemma initBalance_range_seq cfg chain keyList m : forall a s,
  Forall (bootable cfg chain) keyList ->
  (a + m <= length keyList)%nat ->
  length (bt_balanceList s) = length keyList ->
  (forall i, (a <= i)%nat -> (i < length keyList)%nat ->
     bt_balanceList s !! i = Some None) ->
  exists s',
    initBalance_range cfg chain keyList (seq a m) s = Ret s' /\
    bt_heap s `prefix_of` bt_heap s' /\
    length (bt_balanceList s') = length keyList /\
    (forall i, (i < a)%nat -> bt_balanceList s' !! i = bt_balanceList s !! i) /\
    (forall i, (a + m <= i)%nat -> (i < length keyList)%nat ->
       bt_balanceList s' !! i = Some None) /\
    (forall i hex, (a <= i < a + m)%nat -> keyList !! i = Some hex ->
       match account_of cfg chain hex with
       | Some v =>
           exists b, bt_balanceList s' !! i = Some (Some b) /\
                     bt_heap s' !! b = Some v /\
                     (length (bt_heap s) <= b < length (bt_heap s'))%nat
       | None => bt_balanceList s' !! i = Some None
       end) /\
    (forall i j bi bj, (a <= i)%nat -> (i < j)%nat -> (j < a + m)%nat ->
       bt_balanceList s' !! i = Some (Some bi) ->
       bt_balanceList s' !! j = Some (Some bj) -> (bi < bj)%nat).
Proof.
  induction m as [|m IH]; intros a s Hboot Hlen Hbl Hnil.
  - exists s. cbn [seq initBalance_range]. split; [reflexivity|].
    split; [reflexivity|]. split; [exact Hbl|]. split; [auto|].
    split; [intros i Hi Hilt; apply Hnil; lia|].
    split; intros; lia.
  - destruct (lookup_lt_is_Some_2 keyList a) as [hex Hhex]; [lia|].
    assert (Hb : bootable cfg chain hex).
    { rewrite Forall_forall in Hboot. apply Hboot.
      eapply list_elem_of_lookup_2. exact Hhex. }
    destruct (initBalance_at_spec cfg chain keyList a hex s Hhex Hb)
      as (s1 & Hrun1 & Hpre1 & Hslot1); [lia|].
    assert (Hbl1 : length (bt_balanceList s1) = length keyList).
    { destruct (account_of cfg chain hex); [destruct Hslot1 as (_ & ->)|rewrite Hslot1];
        rewrite ?length_insert; exact Hbl. }
    assert (Hother : forall i, i <> a ->
              bt_balanceList s1 !! i = bt_balanceList s !! i).
    { intros i Hne.
      destruct (account_of cfg chain hex); [destruct Hslot1 as (_ & ->)|rewrite Hslot1];
        [apply list_lookup_insert_ne; auto|reflexivity]. }
    destruct (IH (S a) s1 Hboot) as (s' & Hrun & Hpre & Hbl' & Hlow & Hhigh & Hslots & Hmono);
      [lia|exact Hbl1|intros i Hi Hilt; rewrite Hother by lia; apply Hnil; lia|].
    pose proof (prefix_length _ _ Hpre1) as Hl1.
    pose proof (prefix_length _ _ Hpre) as Hl'.
    assert (Hslot_a :
              match account_of cfg chain hex with
              | Some v =>
                  bt_balanceList s' !! a = Some (Some (length (bt_heap s))) /\
                  bt_heap s' !! length (bt_heap s) = Some v /\
                  (length (bt_heap s) < length (bt_heap s1))%nat
              | None => bt_balanceList s' !! a = Some None
              end).
    { rewrite (Hlow a) by lia.
      destruct (account_of cfg chain hex) as [v|].
      - destruct Hslot1 as (Hh1 & ->). split.
        + apply list_lookup_insert_eq. lia.
        + split.
          * eapply prefix_lookup_Some; [|exact Hpre]. rewrite Hh1.
            rewrite lookup_app_r by lia. rewrite Nat.sub_diag. reflexivity.
          * rewrite Hh1, length_app. simpl. lia.
      - rewrite Hslot1. apply Hnil; lia. }
    exists s'. cbn [seq initBalance_range]. rewrite Hrun1. cbn [bind].
    split; [exact Hrun|]. split; [etransitivity; eassumption|].
    split; [exact Hbl'|]. split.
    { intros i Hi. rewrite Hlow by lia. apply Hother. lia. }
    split.
    { intros i Hi Hilt. apply Hhigh; lia. }
    split.
    { intros i hexi Hi Hki. destruct (decide (i = a)) as [->|Hne].
      - assert (hexi = hex) as -> by congruence.
        destruct (account_of cfg chain hex) as [v|].
        + destruct Hslot_a as (Hs & Hv & Hlt).
          exists (length (bt_heap s)). split; [exact Hs|]. split; [exact Hv|lia].
        + exact Hslot_a.
      - specialize (Hslots i hexi ltac:(lia) Hki).
        destruct (account_of cfg chain hexi) as [v|]; [|exact Hslots].
        destruct Hslots as (b & Hs & Hv & Hrange).
        exists b. split; [exact Hs|]. split; [exact Hv|lia]. }
    intros i j bi bj Hai Hij Hj Hbi Hbj.
    destruct (decide (i = a)) as [->|Hne].
    + destruct (lookup_lt_is_Some_2 keyList j) as [hexj Hhexj]; [lia|].
      specialize (Hslots j hexj ltac:(lia) Hhexj).
      destruct (account_of cfg chain hexj) as [vj|].
      2:{ rewrite Hslots in Hbj. discriminate. }
      destruct Hslots as (b & Hs & _ & Hrange).
      assert (b = bj) as -> by congruence.
      destruct (account_of cfg chain hex) as [v|].
      * destruct Hslot_a as (Hs_a & _ & Hlt).
        assert (bi = length (bt_heap s)) as -> by congruence. lia.
      * rewrite Hslot_a in Hbi. discriminate.
    + eapply (Hmono i j); eauto; lia.
Qed.

Lemma initBalance_range_app cfg chain keyList l1 : forall l2 s,
  initBalance_range cfg chain keyList (l1 ++ l2) s =
    (do s' <- initBalance_range cfg chain keyList l1 s;
     initBalance_range cfg chain keyList l2 s').
Proof.
  induction l1 as [|i l1 IH]; intros l2 s; [reflexivity|].
  cbn [app initBalance_range].
  destruct (initBalance_at cfg chain keyList i s) as [s1|]; [|reflexivity].
  cbn [bind]. apply IH.
Qed.

(** The goroutines of [initAccount] together visit every index once, in
    increasing order. *)
Lemma initAccount_threads_cover cfg chain keyList n s :
  (0 < n)%nat ->
  initAccount_threads cfg chain keyList (length keyList / n) n (seq 0 n) s =
  initBalance_range cfg chain keyList (seq 0 (length keyList)) s.
Proof.
  intros Hn. set (unit := (length keyList / n)%nat).
  assert (Hunit : (unit * n <= length keyList)%nat).
  { unfold unit. rewrite Nat.mul_comm. apply Nat.Div0.mul_div_le. }
  assert (Hgen : forall idxs s0,
            Forall (fun i => (i < n)%nat) idxs ->
            initAccount_threads cfg chain keyList unit n idxs s0 =
            initBalance_range cfg chain keyList
              (concat (map (fun i =>
                 take ((if decide (i = (n - 1)%nat) then length (seq 0 (length keyList))
                        else (unit * (i + 1))%nat) - (unit * i)%nat)
                      (drop (unit * i)%nat (seq 0 (length keyList)))) idxs)) s0).
  { induction idxs as [|i idxs IH]; intros s0 Hall; [reflexivity|].
    apply Forall_cons in Hall as (Hi & Hall).
    cbn [initAccount_threads map concat]. rewrite initBalance_range_app.
    unfold initBalance.
    assert (Hrange :
              seq (i * unit)
                  ((if decide (i = (n - 1)%nat) then length keyList
                    else ((i + 1) * unit)%nat) - i * unit)
              = take ((if decide (i = (n - 1)%nat) then length (seq 0 (length keyList))
                       else (unit * (i + 1))%nat) - (unit * i)%nat)
                     (drop (unit * i)%nat (seq 0 (length keyList)))).
    { rewrite drop_seq, take_seq, length_seq. simpl.
      assert ((unit * (i + 1) <= unit * n)%nat) by (apply Nat.mul_le_mono_l; lia).
      rewrite (Nat.mul_comm i unit), (Nat.mul_comm (i + 1) unit).
      f_equal. destruct (decide (i = (n - 1)%nat)); lia. }
    rewrite Hrange.
    destruct (initBalance_range cfg chain keyList _ s0) as [s1|]; [|reflexivity].
    cbn [bind]. apply IH. exact Hall. }
  rewrite Hgen by (apply Forall_forall; intros i Hi; apply elem_of_seq in Hi; lia).
  f_equal.
  assert (Hlast : (unit * (n - 1) <= length (seq 0 (length keyList)))%nat)
    by (rewrite length_seq; nia).
  assert (Hseq : seq 0 n = seq 0 (n - 1) ++ [(n - 1)%nat]).
  { replace n with (S (n - 1)) at 1 by lia. apply seq_S. }
  rewrite Hseq, map_app, concat_app. simpl.
  rewrite decide_True by reflexivity.
  rewrite (concat_parts_prefix (seq 0 (length keyList)) unit n (n - 1)) by lia.
  rewrite app_nil_r.
  rewrite (take_ge (drop (unit * (n - 1)) (seq 0 (length keyList))))
    by (rewrite length_drop; lia).
  apply take_drop.
Qed.

Lemma initAccount_result_records cfg chain h keyList : forall bl,
  (forall i hex, keyList !! i = Some hex ->
     match account_of cfg chain hex with
     | Some v => exists b, bl !! i = Some (Some b) /\ h !! b = Some v
     | None => bl !! i = Some None
     end) ->
  length bl = length keyList ->
  (fun b => h !! b) <$> initAccount_result h bl
  = Some <$> omap (account_of cfg chain) keyList.
Proof.
  induction keyList as [|hex keyList IH]; intros bl Hslots Hlen.
  - destruct bl; [reflexivity|discriminate].
  - destruct bl as [|ob bl]; [discriminate|].
    assert (Htail : (fun b => h !! b) <$> initAccount_result h bl
                    = Some <$> omap (account_of cfg chain) keyList).
    { apply IH; [|simpl in Hlen; lia].
      intros i hexi Hi. exact (Hslots (S i) hexi Hi). }
    pose proof (Hslots 0%nat hex eq_refl) as Hhead.
    unfold initAccount_result in *. cbn [omap list_omap].
    destruct (account_of cfg chain hex) as [v|] eqn:Hacc.
    + destruct Hhead as (b & Hb & Hv). simpl in Hb. injection Hb as ->.
      rewrite decide_True.
      * rewrite !fmap_cons, Htail, Hv. reflexivity.
      * unfold has_funds. rewrite Hv. eapply account_of_funded. exact Hacc.
    + simpl in Hhead. injection Hhead as ->. exact Htail.
Qed.

Lemma initAccount_result_NoDup h : forall bl,
  (forall i j b, bl !! i = Some (Some b) -> bl !! j = Some (Some b) -> i = j) ->
  NoDup (initAccount_result h bl).
Proof.
  induction bl as [|ob bl IH]; intros Hinj; [constructor|].
  assert (Htail : NoDup (initAccount_result h bl)).
  { apply IH. intros i j b Hi Hj.
    pose proof (Hinj (S i) (S j) b Hi Hj). lia. }
  unfold initAccount_result in *. cbn [omap list_omap].
  destruct ob as [b|]; [|exact Htail].
  destruct (decide (has_funds h b)); [|exact Htail].
  constructor; [|exact Htail].
  intros Hin. apply list_elem_of_omap in Hin as (ob & Hob & Hf).
  destruct ob as [b'|]; [|discriminate].
  destruct (decide (has_funds h b')); [|discriminate].
  injection Hf as ->.
  apply list_elem_of_lookup_1 in Hob as (j & Hj).
  pose proof (Hinj 0%nat (S j) b eq_refl Hj). lia.
Qed.

(** [initAccount] on a key list that can be processed: the pool it returns,
    its records and its distinctness. *)
Lemma initAccount_pool cfg chain keyList threads h :
  0 < threads ->
  Forall (bootable cfg chain) keyList ->
  exists s',
    initAccount cfg chain keyList threads h
      = Ret (initAccount_result (bt_heap s') (bt_balanceList s'), bt_heap s') /\
    h `prefix_of` bt_heap s' /\
    (fun b => bt_heap s' !! b)
      <$> initAccount_result (bt_heap s') (bt_balanceList s')
      = Some <$> omap (account_of cfg chain) keyList /\
    NoDup (initAccount_result (bt_heap s') (bt_balanceList s')).
Proof.
  intros Hthreads Hboot. unfold initAccount.
  rewrite (proj2 (Z.eqb_neq _ _)) by lia.
  rewrite (proj2 (Z.ltb_ge _ _)) by lia.
  rewrite initAccount_threads_cover by lia.
  destruct (initBalance_range_seq cfg chain keyList (length keyList) 0
              (mkBoot h (replicate (length keyList) None)) Hboot)
    as (s' & Hrun & Hpre & Hbl & _ & _ & Hslots & Hmono).
  { lia. }
  { apply length_replicate. }
  { intros i _ Hi. apply lookup_replicate_2. exact Hi. }
  rewrite Hrun. cbn [bind]. exists s'. split; [reflexivity|].
  split; [exact Hpre|]. split.
  { apply initAccount_result_records; [|exact Hbl].
    intros i hex Hi. pose proof (lookup_lt_Some _ _ _ Hi) as Hlt.
    specialize (Hslots i hex ltac:(lia) Hi).
    destruct (account_of cfg chain hex) as [v|]; [|exact Hslots].
    destruct Hslots as (p & Hp & Hv & _). eauto. }
  apply initAccount_result_NoDup. intros i j b Hi Hj.
  pose proof (lookup_lt_Some _ _ _ Hi) as Hilt.
  pose proof (lookup_lt_Some _ _ _ Hj) as Hjlt.
  rewrite Hbl in Hilt, Hjlt.
  destruct (Nat.lt_trichotomy i j) as [Hlt|[Heq|Hgt]]; [|exact Heq|].
  - pose proof (Hmono i j b b ltac:(lia) Hlt ltac:(lia) Hi Hj). lia.
  - pose proof (Hmono j i b b ltac:(lia) Hgt ltac:(lia) Hj Hi). lia.
Qed.

(** X14. For a positive number of threads and a key list every line of which
    can be processed, [initAccount] returns: the pool holds, in the order of
    the key list, one record for every line that is not empty, whose key
    lies on a shard with a client and whose balance is positive as an [int],
    with that balance and the ledger's nonce, and nothing else; the entries
    of the pool are distinct and hold funds; the records that were in the
    store are untouched. The records of the pool do not depend on the number
    of threads. *)
Theorem initAccount_builds_pool cfg chain keyList threads h :
  0 < threads ->
  Forall (bootable cfg chain) keyList ->
  exists pool h',
    initAccount cfg chain keyList threads h = Ret (pool, h') /\
    h `prefix_of` h' /\
    (fun b => h' !! b) <$> pool = Some <$> omap (account_of cfg chain) keyList /\
    NoDup pool /\
    Forall (has_funds h') pool.
Proof.
  intros Hthreads Hboot.
  destruct (initAccount_pool cfg chain keyList threads h Hthreads Hboot)
    as (s' & Hrun & Hpre & Hrec & Hnd).
  exists (initAccount_result (bt_heap s') (bt_balanceList s')), (bt_heap s').
  split; [exact Hrun|]. split; [exact Hpre|]. split; [exact Hrec|].
  split; [exact Hnd|].
  unfold initAccount_result. apply Forall_forall. intros b Hb.
  apply list_elem_of_omap in Hb as (ob & _ & Hob).
  destruct ob as [p|]; [|discriminate].
  destruct (decide (has_funds (bt_heap s') p)) as [Hf|]; [|discriminate].
  injection Hob as <-. exact Hf.
Qed.

Lemma initBalance_range_panics cfg chain keyList i idxs :
  i ∈ idxs ->
  (forall s, initBalance_at cfg chain keyList i s = Panic) ->
  forall s, initBalance_range cfg chain keyList idxs s = Panic.
Proof.
  intros Hin Hpanic. induction idxs as [|j idxs IH]; intros s; [inversion Hin|].
  cbn [initBalance_range].
  destruct (decide (j = i)) as [->|Hne]; [rewrite Hpanic; reflexivity|].
  destruct (initBalance_at cfg chain keyList j s) as [s1|]; [|reflexivity].
  cbn [bind]. apply IH.
  apply elem_of_cons in Hin as [?|?]; [congruence|assumption].
Qed.

(** X15. For a positive number of threads, one line of the key file is
    enough to make [initAccount] panic: a line that is not empty and whose
    key does not parse, or a line whose key lies on a shard with a client
    and for which the balance call fails. *)
Theorem initAccount_panics_on_bad_line cfg chain keyList threads h i hex :
  0 < threads ->
  keyList !! i = Some hex ->
  hex <> ""%string ->
  (LoadECDSAFromString chain hex = None \/
   exists key,
     LoadECDSAFromString chain hex = Some key /\
     addr_shard (GetAddress chain key) ∈ clientList cfg /\
     seele_getBalance chain (GetAddress chain key) = None) ->
  initAccount cfg chain keyList threads h = Panic.
Proof.
  intros Hthreads Hi Hne Hbad. unfold initAccount.
  rewrite (proj2 (Z.eqb_neq _ _)) by lia.
  rewrite (proj2 (Z.ltb_ge _ _)) by lia.
  rewrite initAccount_threads_cover by lia.
  rewrite (initBalance_range_panics cfg chain keyList i); [reflexivity| |].
  - apply elem_of_seq. pose proof (lookup_lt_Some _ _ _ Hi). lia.
  - intros s. unfold initBalance_at. rewrite Hi.
    rewrite decide_False by exact Hne.
    destruct Hbad as [Hparse|(key & Hparse & Hcl & Hbal)]; rewrite Hparse;
      [reflexivity|].
    cbv zeta. rewrite decide_True by exact Hcl.
    unfold getBalance, getClient. rewrite decide_True by exact Hcl.
    cbn [bind]. rewrite Hbal. reflexivity.
Qed.

(** X16. [getBalance], for an address with a client and a balance that is
    not negative and below 2^64 Seele: the call returns the balance in whole
    Seele, the Fan beyond being dropped, when that is below 2^63; from 2^63
    on the [int] it returns is negative (the balance less 2^64). *)
Theorem getBalance_reads_int cfg chain a bal :
  addr_shard a ∈ clientList cfg ->
  seele_getBalance chain a = Some bal ->
  0 <= bal ->
  bal / Z.pos (SeeleToFan chain) <= uint64_max ->
  exists amt,
    getBalance cfg chain a = Ret (amt, true) /\
    (bal / Z.pos (SeeleToFan chain) <= int_max ->
       amt = bal / Z.pos (SeeleToFan chain) /\
       amt * Z.pos (SeeleToFan chain) <= bal
         < (amt + 1) * Z.pos (SeeleToFan chain)) /\
    (int_max < bal / Z.pos (SeeleToFan chain) ->
       amt = bal / Z.pos (SeeleToFan chain) - 2 ^ 64 /\ amt < 0).
Proof.
  intros Hcl Hbal Hpos Hmax. unfold getBalance, getClient.
  rewrite decide_True by exact Hcl. cbn [bind]. rewrite Hbal.
  eexists. split; [reflexivity|].
  set (q := bal / Z.pos (SeeleToFan chain)) in *.
  assert (Hq : 0 <= q) by (apply Z.div_pos; lia).
  assert (Hu : wrap_uint64 (Z.abs q) = q).
  { rewrite Z.abs_eq by exact Hq. apply wrap_uint64_id. split; assumption. }
  unfold int_of_big. rewrite Hu. split.
  - intros Hsmall. rewrite wrap_int_id by (unfold in_int, int_min; lia).
    split; [reflexivity|].
    pose proof (Z.mul_div_le bal (Z.pos (SeeleToFan chain)) ltac:(lia)).
    pose proof (Z.mul_succ_div_gt bal (Z.pos (SeeleToFan chain)) ltac:(lia)).
    fold q in H, H0. lia.
  - intros Hbig. unfold wrap_int, int_max, uint64_max in *.
    assert (Hmod : (q + 2 ^ 63) mod 2 ^ 64 = q + 2 ^ 63 - 2 ^ 64).
    { symmetry. apply (Z.mod_unique _ _ 1); lia. }
    rewrite Hmod. lia.
Qed.

Lemma initAccount_builds_pool_witness :
  exists pool h',
    initAccount (cfg_of 1 3) chain_demo keys_demo 2 [account 7 100 0]
      = Ret (pool, h') /\
    [account 7 100 0] `prefix_of` h' /\
    (fun b => h' !! b) <$> pool
      = Some <$> omap (account_of (cfg_of 1 3) chain_demo) keys_demo /\
    NoDup pool /\
    Forall (has_funds h') pool.
Proof.
  apply (initAccount_builds_pool (cfg_of 1 3) chain_demo keys_demo 2
           [account 7 100 0]).
  - lia.
  - unfold keys_demo.
    repeat (constructor;
            [first [left; reflexivity
                   |right; eexists; split; [reflexivity|]; intros _;
                    eexists; split; [reflexivity|]; intros _;
                    eexists; reflexivity]|]).
    constructor.
Defined.

(** The pool of the example: the lines "a" and "cc", holding 3 and 6. *)
Example initAccount_demo :
  initAccount (cfg_of 1 3) chain_demo keys_demo 2 [account 7 100 0]
  = Ret ([1; 2]%nat,
         [account 7 100 0;
          mkBalance (mkAddress 1 1) 1 3 1 11 None false;
          mkBalance (mkAddress 2 1) 2 6 1 12 None false;
          mkBalance (mkAddress 5 1) 5 0 1 0 None false]).
Proof. vm_compute. reflexivity. Qed.

Lemma initAccount_panics_on_bad_line_witness :
  initAccount (cfg_of 1 3) chain_demo keys_bad 1 [] = Panic.
Proof.
  apply (initAccount_panics_on_bad_line (cfg_of 1 3) chain_demo keys_bad 1 []
           1%nat "zz"%string).
  - lia.
  - reflexivity.
  - discriminate.
  - left. reflexivity.
Defined.

Lemma getBalance_reads_int_witness :
  exists amt,
    getBalance (cfg_of 1 3) chain_demo (mkAddress 2 1) = Ret (amt, true) /\
    (600000007 / Z.pos (SeeleToFan chain_demo) <= int_max ->
       amt = 600000007 / Z.pos (SeeleToFan chain_demo) /\
       amt * Z.pos (SeeleToFan chain_demo) <= 600000007
         < (amt + 1) * Z.pos (SeeleToFan chain_demo)) /\
    (int_max < 600000007 / Z.pos (SeeleToFan chain_demo) ->
       amt = 600000007 / Z.pos (SeeleToFan chain_demo) - 2 ^ 64 /\ amt < 0).
Proof.
  apply (getBalance_reads_int (cfg_of 1 3) chain_demo (mkAddress 2 1) 600000007).
  - simpl. apply elem_of_singleton. reflexivity.
  - reflexivity.
  - lia.
  - vm_compute. discriminate.
Defined.

(** ** The command hands every account to one thread *)

Lemma Run_lists_seq balances : forall m a,
  (a + m <= length balances)%nat ->
  Run_lists balances (seq a m) = Ret (take m (drop a balances)).
Proof.
  induction m as [|m IH]; intros a Hlen; [reflexivity|].
  cbn [seq Run_lists].
  destruct (lookup_lt_is_Some_2 balances a) as [l Hl]; [lia|].
  rewrite Hl, IH by lia. cbn [bind].
  rewrite (drop_S balances l a Hl). reflexivity.
Qed.

(** X17. [Run] with a positive number of threads on a key list every line
    of which can be processed: it gets as far as starting the threads, one
    list per thread; the lists put one after the other are the pool of
    [initAccount], which holds one funded record per usable line of the key
    list, each once; so every record is given to exactly one thread, and no
    list holds a nil entry. When the usable lines of the key list have
    distinct addresses, every address is given to exactly one thread, in
    one record. (A key listed twice gives two records of one address, which
    may go to two threads.) *)
Theorem Run_deals_each_account_once cfg chain keyList threads h :
  0 < threads ->
  Forall (bootable cfg chain) keyList ->
  exists lists h' pool,
    Run cfg chain keyList threads h = Ret (lists, h') /\
    length lists = Z.to_nat threads /\
    concat lists = map Some pool /\
    NoDup pool /\
    Forall (has_funds h') pool /\
    (fun b => h' !! b) <$> pool = Some <$> omap (account_of cfg chain) keyList /\
    (forall i j li lj x,
       lists !! i = Some li -> lists !! j = Some lj ->
       x ∈ li -> x ∈ lj -> i = j) /\
    (NoDup (address <$> omap (account_of cfg chain) keyList) ->
     forall i j li lj bi bj vi vj,
       lists !! i = Some li -> lists !! j = Some lj ->
       Some bi ∈ li -> Some bj ∈ lj ->
       h' !! bi = Some vi -> h' !! bj = Some vj ->
       address vi = address vj ->
       i = j /\ bi = bj).
Proof.
  intros Hthreads Hboot.
  destruct (initAccount_pool cfg chain keyList threads h Hthreads Hboot)
    as (s' & Hrun & _ & Hrec & Hnd).
  set (pool := initAccount_result (bt_heap s') (bt_balanceList s')) in *.
  destruct (newBalancesList_parts (map Some pool) threads Hthreads)
    as (parts & blanks & Hparts & _ & Hcat & Hlen & _).
  assert (Hdisj : forall i j li lj x,
            parts !! i = Some li -> parts !! j = Some lj ->
            x ∈ li -> x ∈ lj -> i = j).
  { intros i j li lj x Hi Hj Hxi Hxj.
    destruct (decide (i = j)) as [Heq|Hne]; [exact Heq|]. exfalso.
    apply (NoDup_concat_parts parts i j li lj x); try assumption.
    rewrite Hcat. apply (NoDup_fmap_2 Some). exact Hnd. }
  exists parts, (bt_heap s'), pool.
  split.
  { unfold Run. rewrite Hrun. cbn [bind fst snd]. rewrite Hparts. cbn [bind].
    rewrite <- Hlen, (Run_lists_seq parts (length parts) 0) by lia.
    cbn [bind]. rewrite drop_0, firstn_all. reflexivity. }
  split; [exact Hlen|]. split; [exact Hcat|]. split; [exact Hnd|].
  split; [apply initAccount_result_funded|]. split; [exact Hrec|].
  split; [exact Hdisj|].
  intros Haddr i j li lj bi bj vi vj Hi Hj Hbi Hbj Hvi Hvj Heq.
  assert (Hpool : forall k l b, parts !! k = Some l -> Some b ∈ l -> b ∈ pool).
  { intros k l b Hk Hb.
    assert (Hc : Some b ∈ concat parts).
    { apply elem_of_concat. exists l. split; [|exact Hb].
      eapply list_elem_of_lookup_2. exact Hk. }
    rewrite Hcat in Hc. change (map Some pool) with (Some <$> pool) in Hc.
    apply list_elem_of_fmap in Hc as (b' & [= ->] & Hc). exact Hc. }
  assert (Hacct : forall b v, b ∈ pool -> bt_heap s' !! b = Some v ->
            exists m, pool !! m = Some b /\
                      omap (account_of cfg chain) keyList !! m = Some v).
  { intros b v Hb Hv. apply list_elem_of_lookup_1 in Hb as (m & Hm).
    exists m. split; [exact Hm|].
    assert (Hl : ((fun b => bt_heap s' !! b) <$> pool) !! m = Some (Some v)).
    { rewrite list_lookup_fmap, Hm. cbn. rewrite Hv. reflexivity. }
    rewrite Hrec, list_lookup_fmap in Hl.
    destruct (omap (account_of cfg chain) keyList !! m) as [w|];
      [|discriminate].
    cbn in Hl. congruence. }
  destruct (Hacct bi vi (Hpool i li bi Hi Hbi) Hvi) as (m & Hm & Ham).
  destruct (Hacct bj vj (Hpool j lj bj Hj Hbj) Hvj) as (n & Hn & Han).
  assert (Hmn : m = n).
  { apply (NoDup_lookup _ m n (address vi) Haddr).
    - rewrite list_lookup_fmap, Ham. reflexivity.
    - rewrite list_lookup_fmap, Han. cbn. congruence. }
  subst n. assert (bi = bj) as -> by congruence.
  split; [|reflexivity]. exact (Hdisj i j li lj (Some bj) Hi Hj Hbi Hbj).
Qed.

Lemma Run_deals_each_account_once_witness :
  exists lists h' pool,
    Run (cfg_of 1 3) chain_demo keys_demo 2 [account 7 100 0]
      = Ret (lists, h') /\
    length lists = Z.to_nat 2 /\
    concat lists = map Some pool /\
    NoDup pool /\
    Forall (has_funds h') pool /\
    (fun b => h' !! b) <$> pool
      = Some <$> omap (account_of (cfg_of 1 3) chain_demo) keys_demo /\
    (forall i j li lj x,
       lists !! i = Some li -> lists !! j = Some lj ->
       x ∈ li -> x ∈ lj -> i = j) /\
    (NoDup (address <$> omap (account_of (cfg_of 1 3) chain_demo) keys_demo) ->
     forall i j li lj bi bj vi vj,
       lists !! i = Some li -> lists !! j = Some lj ->
       Some bi ∈ li -> Some bj ∈ lj ->
       h' !! bi = Some vi -> h' !! bj = Some vj ->
       address vi = address vj ->
       i = j /\ bi = bj).
Proof.
  apply (Run_deals_each_account_once (cfg_of 1 3) chain_demo keys_demo 2
           [account 7 100 0]).
  - lia.
  - unfold keys_demo.
    repeat (constructor;
            [first [left; reflexivity
                   |right; eexists; split; [reflexivity|]; intros _;
                    eexists; split; [reflexivity|]; intros _;
                    eexists; reflexivity]|]).
    constructor.
Defined.

(** The usable lines of that key list have distinct addresses; those of a
    key list that names a key twice have not, and [Run] deals the two
    records of the one address to two threads. *)
Example keys_demo_distinct :
  NoDup (address <$> omap (account_of (cfg_of 1 3) chain_demo) keys_demo) /\
  ~ NoDup (address <$> omap (account_of (cfg_of 1 3) chain_demo) keys_twice) /\
  Run (cfg_of 1 3) chain_demo keys_twice 2 []
    = Ret ([[Some 0%nat]; [Some 1%nat]], heap_twins).
Proof.
  split; [|split].
  - apply (bool_decide_unpack _). vm_compute. exact I.
  - assert (Heq : address <$> omap (account_of (cfg_of 1 3) chain_demo) keys_twice
                  = [mkAddress 1 1; mkAddress 1 1]) by (vm_compute; reflexivity).
    rewrite Heq. intros Hnd. apply NoDup_cons in Hnd as (Hnin & _).
    apply Hnin. left.
  - vm_compute. reflexivity.
Qed.

(** * The configuration loader *)

(** X18. [GetP2pConfig]: the config it returns is the one [cmdConfig] holds
    after the call; it returns no error exactly when that config has a key;
    a key that is already there is kept and the key string is not parsed,
    so the call changes nothing and cannot fail; on an error [cmdConfig] is
    unchanged; otherwise at most the key of [cmdConfig] is written; and
    after a call without error a second call returns the same config and
    changes nothing. *)
Theorem GetP2pConfig_sets_key_once W c :
  let p := fst (fst (GetP2pConfig W c)) in
  let err := snd (fst (GetP2pConfig W c)) in
  let c' := snd (GetP2pConfig W c) in
  p = u_P2PConfig c' /\
  (err = None <-> is_Some (PrivateKey p)) /\
  (forall k, PrivateKey (u_P2PConfig c) = Some k ->
     GetP2pConfig W c = ((u_P2PConfig c, None), c)) /\
  (err <> None -> c' = c) /\
  (forall k, PrivateKey p = Some k -> c' = set_PrivateKey c k) /\
  (err = None -> GetP2pConfig W c' = ((p, None), c')).
Proof.
  cbv zeta. unfold GetP2pConfig.
  destruct c as [basic log http ws [pk sub rest] metrics genesis].
  cbn [u_P2PConfig PrivateKey SubPrivateKey].
  destruct pk as [k0|].
  - cbn. split; [reflexivity|]. split; [split; eauto|].
    split; [reflexivity|]. split; [reflexivity|].
    split; [|reflexivity]. intros k [= ->]. reflexivity.
  - destruct (crypto_LoadECDSAFromString W sub) as [key|e]; cbn.
    + split; [reflexivity|]. split; [split; eauto|].
      split; [discriminate|]. split; [congruence|].
      split; [|reflexivity]. intros k [= ->]. reflexivity.
    + split; [reflexivity|].
      split; [split; [discriminate|intros [? [=]]]|].
      split; [discriminate|]. split; [reflexivity|].
      split; [discriminate|discriminate].
Qed.

(** The loader up to the key, when both files load. *)
Lemma LoadConfigFromFile_loaded W configFile accounts lc :
  snd (GetConfigFromFile W configFile) = None ->
  snd (LoadAccountConfig W accounts) = None ->
  LoadConfigFromFile W configFile accounts lc =
    let c := set_Accounts (fst (GetConfigFromFile W configFile))
                          (fst (LoadAccountConfig W accounts)) in
    let r := GetP2pConfig W c in
    match snd (fst r) with
    | Some err =>
        Ret ((Some (mkNode (u_BasicConfig c) (u_LogConfig c) (u_HTTPServer c)
                           (u_WSServerConfig c) (fst (fst r))
                           (zero_SeeleConfig W) (u_MetricsConfig c)),
              Some err), lc)
    | None =>
        do coinbase <- common_HexMustToAddres W (Coinbase (u_BasicConfig c));
        Ret ((Some (mkNode
                      (mkBasic (Coinbase (u_BasicConfig c))
                               (filepath_Join W (common_GetDefaultDataFolder W)
                                              (DataDir (u_BasicConfig c)))
                               (basic_rest (u_BasicConfig c)))
                      (u_LogConfig c) (u_HTTPServer c) (u_WSServerConfig c)
                      (fst (fst r))
                      (mkSeele (core_DefaultTxPoolConfig W) coinbase
                               (u_GenesisConfig (snd r)))
                      (u_MetricsConfig c)),
              None),
             mkLogConfiguration (PrintLog (u_LogConfig c))
                                (IsDebug (u_LogConfig c))
                                (DataDir (u_BasicConfig c)))
    end.
Proof.
  intros Hg Ha. unfold LoadConfigFromFile. rewrite Hg, Ha. reflexivity.
Qed.

(** X19. How [LoadConfigFromFile] fails. An error of the config file is
    returned with a nil config, whatever the accounts file holds; with a
    config that loads, an error of the accounts file is returned with a nil
    config; with both loaded, a key string that does not parse (no key
    being there yet) gives the error together with a config that is not
    nil: the bare copy of [CopyConfig], with a zero [SeeleConfig] and the
    data directory as written in the file. The call panics exactly when
    none of the three errors occurs and the coinbase is no address. In every
    case with an error the package-level log configuration is not written,
    and the config is nil exactly when one of the two files failed. *)
Theorem LoadConfigFromFile_failures W configFile accounts lc :
  let g := GetConfigFromFile W configFile in
  let a := LoadAccountConfig W accounts in
  let c := set_Accounts (fst g) (fst a) in
  (forall e, snd g = Some e ->
     LoadConfigFromFile W configFile accounts lc = Ret ((None, Some e), lc)) /\
  (forall e, snd g = None -> snd a = Some e ->
     LoadConfigFromFile W configFile accounts lc = Ret ((None, Some e), lc)) /\
  (forall e, snd g = None -> snd a = None ->
     PrivateKey (u_P2PConfig c) = None ->
     crypto_LoadECDSAFromString W (SubPrivateKey (u_P2PConfig c)) = inr e ->
     LoadConfigFromFile W configFile accounts lc
       = Ret ((Some (CopyConfig W c), Some e), lc)) /\
  (LoadConfigFromFile W configFile accounts lc = Panic <->
     snd g = None /\ snd a = None /\ snd (fst (GetP2pConfig W c)) = None /\
     common_HexMustToAddres W (Coinbase (u_BasicConfig c)) = Panic) /\
  (forall r lc',
     LoadConfigFromFile W configFile accounts lc = Ret (r, lc') ->
     snd r <> None ->
     lc' = lc /\ (fst r = None <-> snd g <> None \/ snd a <> None)).
Proof.
  cbv zeta.
  destruct (snd (GetConfigFromFile W configFile)) as [eg|] eqn:Hg.
  { assert (Hrun : LoadConfigFromFile W configFile accounts lc
                   = Ret ((None, Some eg), lc)).
    { unfold LoadConfigFromFile. rewrite Hg. reflexivity. }
    rewrite Hrun.
    split; [intros e [= <-]; reflexivity|].
    split; [discriminate|]. split; [discriminate|].
    split; [split; [discriminate|intros (? & ? & ? & ?); congruence]|].
    intros r lc' [= <- <-] _. split; [reflexivity|].
    split; [intros _; left; discriminate|reflexivity]. }
  destruct (snd (LoadAccountConfig W accounts)) as [ea|] eqn:Ha.
  { assert (Hrun : LoadConfigFromFile W configFile accounts lc
                   = Ret ((None, Some ea), lc)).
    { unfold LoadConfigFromFile. rewrite Hg, Ha. reflexivity. }
    rewrite Hrun.
    split; [discriminate|].
    split; [intros e _ [= <-]; reflexivity|].
    split; [discriminate|].
    split; [split; [discriminate|intros (? & ? & ? & ?); congruence]|].
    intros r lc' [= <- <-] _. split; [reflexivity|].
    split; [intros _; right; discriminate|reflexivity]. }
  rewrite (LoadConfigFromFile_loaded W configFile accounts lc Hg Ha). cbv zeta.
  set (c := set_Accounts (fst (GetConfigFromFile W configFile))
                         (fst (LoadAccountConfig W accounts))).
  split; [discriminate|]. split; [discriminate|].
  split.
  { intros e _ _ Hnil Hparse. unfold GetP2pConfig. rewrite Hnil, Hparse.
    reflexivity. }
  destruct (snd (fst (GetP2pConfig W c))) as [ek|] eqn:Hk.
  { split; [split; [discriminate|intros (? & ? & ? & ?); congruence]|].
    intros r lc' [= <- <-] _. split; [reflexivity|].
    split; [discriminate|]. intros [H|H]; contradiction. }
  destruct (common_HexMustToAddres W (Coinbase (u_BasicConfig c))) as [cb|];
    cbn [bind].
  - split; [split; [discriminate|intros (? & ? & ? & ?); congruence]|].
    intros r lc' [= <- <-] Herr. contradiction.
  - split; [split; auto|]. discriminate.
Qed.

Lemma LoadConfigFromFile_failures_witness :
  LoadConfigFromFile world_demo "missing.json" "accounts.json" lc_demo
    = Ret ((None, Some "no such file"%string), lc_demo) /\
  LoadConfigFromFile world_demo "node.json" "accounts.txt" lc_demo
    = Ret ((None, Some "no such file"%string), lc_demo) /\
  LoadConfigFromFile world_demo "badkey.json" "accounts.json" lc_demo
    = Ret ((Some (CopyConfig world_demo
                    (set_Accounts (config_demo "??")
                                  {[ mkAddress 1 1 := 50 ]})),
            Some "invalid key"%string), lc_demo).
Proof.
  split; [|split].
  - exact (proj1 (LoadConfigFromFile_failures world_demo "missing.json"
                    "accounts.json" lc_demo) _ eq_refl).
  - exact (proj1 (proj2 (LoadConfigFromFile_failures world_demo "node.json"
                           "accounts.txt" lc_demo)) _ eq_refl eq_refl).
  - exact (proj1 (proj2 (proj2 (LoadConfigFromFile_failures world_demo
                                  "badkey.json" "accounts.json" lc_demo)))
             _ eq_refl eq_refl eq_refl eq_refl).
Defined.

(** X20. [LoadConfigFromFile] when both files load, a key is there or the
    key string parses, and the coinbase is an address: a config is returned
    without error. Its genesis accounts are those of the accounts file and
    never those of the config file (none at all for the empty accounts
    path), the rest of the genesis block is the config file's; it has a key,
    the one of the config when there was one; its data directory is the
    file's joined to the default data folder, while the log configuration
    gets the directory as written in the file; the other blocks are those
    of the config file. *)
Theorem LoadConfigFromFile_success W configFile accounts lc c accs cb :
  GetConfigFromFile W configFile = (c, None) ->
  LoadAccountConfig W accounts = (accs, None) ->
  (PrivateKey (u_P2PConfig c) = None ->
   exists k, crypto_LoadECDSAFromString W (SubPrivateKey (u_P2PConfig c)) = inl k) ->
  common_HexMustToAddres W (Coinbase (u_BasicConfig c)) = Ret cb ->
  exists cfg,
    LoadConfigFromFile W configFile accounts lc
      = Ret ((Some cfg, None),
             mkLogConfiguration (PrintLog (u_LogConfig c))
                                (IsDebug (u_LogConfig c))
                                (DataDir (u_BasicConfig c))) /\
    Accounts (s_GenesisConfig (n_SeeleConfig cfg)) = accs /\
    (accounts = ""%string ->
     Accounts (s_GenesisConfig (n_SeeleConfig cfg)) = ∅) /\
    genesis_rest (s_GenesisConfig (n_SeeleConfig cfg))
      = genesis_rest (u_GenesisConfig c) /\
    s_Coinbase (n_SeeleConfig cfg) = cb /\
    s_TxConf (n_SeeleConfig cfg) = core_DefaultTxPoolConfig W /\
    is_Some (PrivateKey (n_P2PConfig cfg)) /\
    (forall k, PrivateKey (u_P2PConfig c) = Some k ->
       n_P2PConfig cfg = u_P2PConfig c) /\
    (forall k, PrivateKey (u_P2PConfig c) = None ->
       crypto_LoadECDSAFromString W (SubPrivateKey (u_P2PConfig c)) = inl k ->
       PrivateKey (n_P2PConfig cfg) = Some k) /\
    SubPrivateKey (n_P2PConfig cfg) = SubPrivateKey (u_P2PConfig c) /\
    n_BasicConfig cfg
      = mkBasic (Coinbase (u_BasicConfig c))
                (filepath_Join W (common_GetDefaultDataFolder W)
                               (DataDir (u_BasicConfig c)))
                (basic_rest (u_BasicConfig c)) /\
    n_LogConfig cfg = u_LogConfig c /\
    n_HTTPServer cfg = u_HTTPServer c /\
    n_WSServerConfig cfg = u_WSServerConfig c /\
    n_MetricsConfig cfg = u_MetricsConfig c.
Proof.
  intros Hg Ha Hkey Hcb.
  rewrite LoadConfigFromFile_loaded by (rewrite ?Hg, ?Ha; reflexivity).
  rewrite Hg, Ha. cbn [fst snd]. cbv zeta.
  assert (Hempty : accounts = ""%string -> accs = ∅).
  { intros ->. unfold LoadAccountConfig in Ha.
    rewrite decide_True in Ha by reflexivity. congruence. }
  destruct c as [basic log http ws [pk sub rest] metrics genesis].
  cbn [u_P2PConfig PrivateKey SubPrivateKey u_BasicConfig Coinbase] in Hkey, Hcb.
  unfold GetP2pConfig, set_Accounts.
  cbn [u_P2PConfig PrivateKey SubPrivateKey u_BasicConfig u_LogConfig
       u_HTTPServer u_WSServerConfig u_MetricsConfig u_GenesisConfig].
  destruct pk as [k0|].
  - cbn [fst snd]. rewrite Hcb. cbn [bind]. eexists. split; [reflexivity|].
    cbn. repeat split; eauto; discriminate.
  - destruct (Hkey eq_refl) as (k & Hk). rewrite Hk. cbn [fst snd].
    cbn [set_PrivateKey u_BasicConfig]. rewrite Hcb. cbn [bind].
    eexists. split; [reflexivity|].
    cbn. repeat split; eauto; try discriminate.
    intros k' _ [= ->]. reflexivity.
Qed.

Lemma LoadConfigFromFile_success_witness :
  exists cfg,
    LoadConfigFromFile world_demo "node.json" "accounts.json" lc_demo
      = Ret ((Some cfg, None),
             mkLogConfiguration (PrintLog (u_LogConfig (config_demo "k1")))
                                (IsDebug (u_LogConfig (config_demo "k1")))
                                (DataDir (u_BasicConfig (config_demo "k1")))) /\
    Accounts (s_GenesisConfig (n_SeeleConfig cfg)) = {[ mkAddress 1 1 := 50 ]} /\
    ("accounts.json"%string = ""%string ->
     Accounts (s_GenesisConfig (n_SeeleConfig cfg)) = ∅) /\
    genesis_rest (s_GenesisConfig (n_SeeleConfig cfg))
      = genesis_rest (u_GenesisConfig (config_demo "k1")) /\
    s_Coinbase (n_SeeleConfig cfg) = mkAddress 9 1 /\
    s_TxConf (n_SeeleConfig cfg) = core_DefaultTxPoolConfig world_demo /\
    is_Some (PrivateKey (n_P2PConfig cfg)) /\
    (forall k, PrivateKey (u_P2PConfig (config_demo "k1")) = Some k ->
       n_P2PConfig cfg = u_P2PConfig (config_demo "k1")) /\
    (forall k, PrivateKey (u_P2PConfig (config_demo "k1")) = None ->
       crypto_LoadECDSAFromString world_demo
         (SubPrivateKey (u_P2PConfig (config_demo "k1"))) = inl k ->
       PrivateKey (n_P2PConfig cfg) = Some k) /\
    SubPrivateKey (n_P2PConfig cfg)
      = SubPrivateKey (u_P2PConfig (config_demo "k1")) /\
    n_BasicConfig cfg
      = mkBasic (Coinbase (u_BasicConfig (config_demo "k1")))
                (filepath_Join world_demo
                   (common_GetDefaultDataFolder world_demo)
                   (DataDir (u_BasicConfig (config_demo "k1"))))
                (basic_rest (u_BasicConfig (config_demo "k1"))) /\
    n_LogConfig cfg = u_LogConfig (config_demo "k1") /\
    n_HTTPServer cfg = u_HTTPServer (config_demo "k1") /\
    n_WSServerConfig cfg = u_WSServerConfig (config_demo "k1") /\
    n_MetricsConfig cfg = u_MetricsConfig (config_demo "k1").
Proof.
  apply (LoadConfigFromFile_success world_demo "node.json" "accounts.json"
           lc_demo (config_demo "k1") {[ mkAddress 1 1 := 50 ]} (mkAddress 9 1)).
  - reflexivity.
  - reflexivity.
  - intros _. exists 11. reflexivity.
  - reflexivity.
Defined.
